(** * Trading-intelligence core of the moon/bags skills

    A shallow embedding of the position-sizing / Kelly calculator and the
    journal analyzer (moon/lib/calc.mjs), the token scoring engine
    (bags/lib/scanner.mjs) and the persistent state store
    (moon/lib/state.mjs), with the properties the specification states
    about them.

    JavaScript numbers are IEEE-754 binary64 values.  The functions are
    written once over an interface [Number] of the arithmetic the source
    uses and are read at two instances:
    - [float_Number]: Rocq's primitive binary64 floats, bit-for-bit the
      arithmetic the program runs (evaluated with [vm_compute]);
    - [R_Number]: the real numbers, the exact arithmetic the
      specification's formulas are written in.  Every division the real
      instance is used for has a non-zero divisor. *)

From Stdlib Require Import ZArith Reals Lra Lia Floats String List Bool.
From Stdlib Require Import Sorted Permutation.
From stdpp Require Import gmap strings list fin_maps pretty.

Set Warnings "-inexact-float,-register-all,-clear-no-such-hyp".

(** ** JavaScript numbers *)

Declare Scope js_scope.
Delimit Scope js_scope with js.

Class Number (T : Type) := {
  of_Z : Z -> T;                 (* integer literals, lengths, Date.now() *)
  add : T -> T -> T;
  sub : T -> T -> T;
  mul : T -> T -> T;
  div : T -> T -> T;
  neg : T -> T;
  abs : T -> T;                  (* Math.abs *)
  min : T -> T -> T;             (* Math.min *)
  max : T -> T -> T;             (* Math.max *)
  ltb : T -> T -> bool;          (* a < b   (b > a) *)
  leb : T -> T -> bool;          (* a <= b  (b >= a) *)
  eqb : T -> T -> bool;          (* a === b on numbers *)
  truthy : T -> bool             (* ToBoolean: false on 0, -0 and NaN *)
}.

Notation "x + y" := (add x y) : js_scope.
Notation "x - y" := (sub x y) : js_scope.
Notation "x * y" := (mul x y) : js_scope.
Notation "x / y" := (div x y) : js_scope.
Notation "- x" := (neg x) : js_scope.
Notation "x <? y" := (ltb x y) : js_scope.
Notation "x <=? y" := (leb x y) : js_scope.
Notation "x =? y" := (eqb x y) : js_scope.

(** Integer literal. *)
Definition lit {T} `{Number T} (z : Z) : T := of_Z z.

(** Decimal literal [n/10^k], written as the quotient of two integers: a
    correctly rounded quotient of two exactly represented integers is the
    double nearest to the decimal, which is what a JS literal denotes. *)
Definition dec {T} `{Number T} (n d : Z) : T := div (of_Z n) (of_Z d).

(** [x || d] on a possibly absent number. *)
Definition num_or {T} `{Number T} (x : option T) (d : T) : T :=
  match x with
  | Some v => if truthy v then v else d
  | None => d
  end.

(** *** The binary64 instance *)

Module F64.

Definition of_Z (z : Z) : float :=
    match z with
    | Z0 => PrimFloat.of_uint63 (Uint63.of_Z 0)
    | Zpos _ => PrimFloat.of_uint63 (Uint63.of_Z z)
    | Zneg p => PrimFloat.opp (PrimFloat.of_uint63 (Uint63.of_Z (Zpos p)))
    end.

Definition is_neg_zero (x : float) : bool :=
    match PrimFloat.classify x with
    | NZero => true
    | _ => false
    end.

  (* Math.max: NaN if either argument is NaN; +0 is larger than -0. *)
Definition max (a b : float) : float :=
    if PrimFloat.is_nan a || PrimFloat.is_nan b then PrimFloat.nan
    else if PrimFloat.ltb a b then b
    else if PrimFloat.ltb b a then a
    else if is_neg_zero a then b else a.

  (* Math.min: NaN if either argument is NaN; -0 is smaller than +0. *)
Definition min (a b : float) : float :=
    if PrimFloat.is_nan a || PrimFloat.is_nan b then PrimFloat.nan
    else if PrimFloat.ltb a b then a
    else if PrimFloat.ltb b a then b
    else if is_neg_zero a then a else b.

Definition truthy (x : float) : bool :=
    negb (PrimFloat.eqb x PrimFloat.zero || PrimFloat.is_nan x).

End F64.

#[export] Instance float_Number : Number float := {|
  of_Z := F64.of_Z;
  add := PrimFloat.add;
  sub := PrimFloat.sub;
  mul := PrimFloat.mul;
  div := PrimFloat.div;
  neg := PrimFloat.opp;
  abs := PrimFloat.abs;
  min := F64.min;
  max := F64.max;
  ltb := PrimFloat.ltb;
  leb := PrimFloat.leb;
  eqb := PrimFloat.eqb;
  truthy := F64.truthy
|}.

(** *** The exact instance *)

Module Exact.

Definition ltb (a b : R) : bool := if Rlt_dec a b then true else false.
Definition leb (a b : R) : bool := if Rle_dec a b then true else false.
Definition eqb (a b : R) : bool := if Req_dec_T a b then true else false.
Definition truthy (x : R) : bool := negb (eqb x 0%R).

End Exact.

#[export] Instance R_Number : Number R := {|
  of_Z := IZR;
  add := Rplus;
  sub := Rminus;
  mul := Rmult;
  div := Rdiv;
  neg := Ropp;
  abs := Rabs;
  min := Rmin;
  max := Rmax;
  ltb := Exact.ltb;
  leb := Exact.leb;
  eqb := Exact.eqb;
  truthy := Exact.truthy
|}.

(** Math.exp and Math.log10, available in exact arithmetic only. *)
Class Transcendental (T : Type) := {
  exp : T -> T;
  log10 : T -> T
}.

#[export] Instance R_Transcendental : Transcendental R := {|
  exp := Rtrigo_def.exp;
  log10 := fun x => (ln x / ln 10)%R
|}.

(** ** moon/lib/calc.mjs *)

(** A function that answers [{ error: msg }] instead of its record. *)
Inductive result (A : Type) : Type :=
  | Error (msg : string)
  | Value (a : A).
Arguments Error {A} msg.
Arguments Value {A} a.

Inductive Recommendation (T : Type) : Type :=
  | NoLossesRecorded          (* "No losses recorded — insufficient data" *)
  | NoWins                    (* "No wins — do not trade this strategy" *)
  | NegativeEdge              (* "Negative edge — do not trade this strategy" *)
  | VerySmallEdge             (* "Very small edge — trade minimum size" *)
  | SizeHalfKelly (h : T)     (* "Size positions at h% of portfolio (half-Kelly)" *)
  | SizeHalfKellyCapped (h : T). (* "... (half-Kelly, capped)" *)
Arguments NoLossesRecorded {T}.
Arguments NoWins {T}.
Arguments NegativeEdge {T}.
Arguments VerySmallEdge {T}.
Arguments SizeHalfKelly {T} h.
Arguments SizeHalfKellyCapped {T} h.

Record PositionSize (T : Type) := {
  positionSize : T;
  tokensToBuy : T;
  riskAmount : T;
  riskPct : T;
  pctOfPortfolio : T;
  entryPrice : T;
  stopLossPrice : option T
}.
Arguments positionSize {T} _.
Arguments tokensToBuy {T} _.
Arguments riskAmount {T} _.
Arguments riskPct {T} _.
Arguments pctOfPortfolio {T} _.
Arguments entryPrice {T} _.
Arguments stopLossPrice {T} _.

Record Kelly (T : Type) := {
  kellyPct : T;
  halfKellyPct : T;
  winLossRatio : option T;      (* absent on the two short-circuit results *)
  recommendation : Recommendation T
}.
Arguments kellyPct {T} _.
Arguments halfKellyPct {T} _.
Arguments winLossRatio {T} _.
Arguments recommendation {T} _.

Section Calc.
Context {T : Type} `{Number T}.
Local Open Scope js_scope.

  (* [!x || x <= 0] *)
Definition invalid (x : T) : bool := negb (truthy x) || (x <=? lit 0).

Definition calcPositionSize (portfolioValue riskPct entryPrice : T)
      (stopLossPrice : option T) : result (PositionSize T) :=
    if invalid portfolioValue then Error "Invalid portfolio value"
    else if invalid riskPct then Error "Invalid risk %"
    else if invalid entryPrice then Error "Invalid entry price"
    else
      let riskAmount := portfolioValue * (riskPct / lit 100) in
      let sized :=
        match stopLossPrice with
        | Some stop =>
            if truthy stop && (lit 0 <? stop) && (stop <? entryPrice) then
              let riskPerToken := entryPrice - stop in
              let tokensToBuy := riskAmount / riskPerToken in
              (tokensToBuy * entryPrice, tokensToBuy)
            else (riskAmount, riskAmount / entryPrice)
        | None => (riskAmount, riskAmount / entryPrice)
        end in
      let positionSize := fst sized in
      let tokensToBuy := snd sized in
      let pctOfPortfolio := (positionSize / portfolioValue) * lit 100 in
      Value {| positionSize := positionSize;
               tokensToBuy := tokensToBuy;
               riskAmount := riskAmount;
               riskPct := riskPct;
               pctOfPortfolio := pctOfPortfolio;
               entryPrice := entryPrice;
               stopLossPrice :=
                 match stopLossPrice with
                 | Some stop => if truthy stop then Some stop else None
                 | None => None
                 end |}.

Definition calcKellyCriterion (winRate avgWin avgLoss : T) : Kelly T :=
    if avgLoss =? lit 0 then
      {| kellyPct := lit 0; halfKellyPct := lit 0; winLossRatio := None;
         recommendation := NoLossesRecorded |}
    else if winRate <=? lit 0 then
      {| kellyPct := lit 0; halfKellyPct := lit 0; winLossRatio := None;
         recommendation := NoWins |}
    else
      let R := abs avgWin / abs avgLoss in
      let kellyPct := (winRate - (lit 1 - winRate) / R) * lit 100 in
      let kellyPct := min kellyPct (lit 25) in
      let halfKellyPct := max (kellyPct / lit 2) (lit 0) in
      let recommendation :=
        if kellyPct <=? lit 0 then NegativeEdge
        else if halfKellyPct <? lit 1 then VerySmallEdge
        else if halfKellyPct <? lit 5 then SizeHalfKelly halfKellyPct
        else SizeHalfKellyCapped halfKellyPct in
      {| kellyPct := max kellyPct (lit 0);
         halfKellyPct := halfKellyPct;
         winLossRatio := Some R;
         recommendation := recommendation |}.

End Calc.


(** *** Journal analysis *)

(** The fields of a journal entry that [analyzeJournal] reads.  An absent
    or null field is [None]. *)
Record JournalEntry (T : Type) := {
  status : string;
  pnl : option T;
  pnlPct : option T;
  chain : option string;
  narratives : option (list string)
}.
Arguments status {T} _.
Arguments pnl {T} _.
Arguments pnlPct {T} _.
Arguments chain {T} _.
Arguments narratives {T} _.

Inductive ProfitFactor (T : Type) : Type :=
  | Finite (x : T)
  | Infinite.                   (* Infinity: profit and no loss *)
Arguments Finite {T} x.
Arguments Infinite {T}.

Record NarrativeStats (T : Type) := {
  n_trades : nat;
  n_wins : nat;
  n_totalPnlPct : T;
  n_winRate : T;
  n_avgPnlPct : T
}.
Arguments n_trades {T} _.
Arguments n_wins {T} _.
Arguments n_totalPnlPct {T} _.
Arguments n_winRate {T} _.
Arguments n_avgPnlPct {T} _.

Record ChainStats (T : Type) := {
  c_trades : nat;
  c_wins : nat;
  c_totalPnl : T
}.
Arguments c_trades {T} _.
Arguments c_wins {T} _.
Arguments c_totalPnl {T} _.

(** The streak counters are small integers, exact in binary64. *)
Record Streaks := {
  current : Z;
  bestWin : Z;
  worstLose : Z
}.

(** The analysis of a journal with closed trades.  The Kelly figures the
    source copies out as kellyPct, halfKellyPct and kellyRecommendation
    are kept as the record [calcKellyCriterion] returned; bestTrade and
    worstTrade, display fields, are left out. *)
Record JournalAnalysis (T : Type) := {
  totalTrades : nat;
  wins : nat;
  losses : nat;
  winRate : T;
  avgPnlPct : T;
  totalPnl : T;
  profitFactor : ProfitFactor T;
  kelly : Kelly T;
  byNarrative : gmap string (NarrativeStats T);
  byChain : gmap string (ChainStats T);
  streaks : Streaks
}.
Arguments totalTrades {T} _.
Arguments wins {T} _.
Arguments losses {T} _.
Arguments winRate {T} _.
Arguments avgPnlPct {T} _.
Arguments totalPnl {T} _.
Arguments profitFactor {T} _.
Arguments kelly {T} _.
Arguments byNarrative {T} _.
Arguments byChain {T} _.
Arguments streaks {T} _.

Inductive Analysis (T : Type) : Type :=
  | NoClosedTrades              (* all counters 0, "No closed trades to analyze" *)
  | Analyzed (a : JournalAnalysis T).
Arguments NoClosedTrades {T}.
Arguments Analyzed {T} a.

(** The members every object inherits from Object.prototype.  On an object
    that has no own property of that name, [o[k]] gives the inherited
    member: a function, or for __proto__ the prototype itself; it is
    truthy and is no value of a document. *)
Definition objectPrototypeMembers : list string :=
  ["constructor"; "__defineGetter__"; "__defineSetter__"; "hasOwnProperty";
   "__lookupGetter__"; "__lookupSetter__"; "isPrototypeOf";
   "propertyIsEnumerable"; "toString"; "valueOf"; "__proto__";
   "toLocaleString"].

Definition inherited (k : string) : bool :=
  bool_decide (k ∈ objectPrototypeMembers).

Section Journal.
Context {T : Type} `{Number T}.
Local Open Scope js_scope.

(* e.status === "closed" && e.pnlPct != null *)
Definition isClosed (e : JournalEntry T) : bool :=
  bool_decide (status e = "closed") && bool_decide (is_Some (pnlPct e)).

(* e.pnlPct > 0; entries that reach this test have a pnlPct *)
Definition isWin (e : JournalEntry T) : bool :=
  match pnlPct e with
  | Some p => lit 0 <? p
  | None => false
  end.

(* e.pnlPct <= 0 *)
Definition isLoss (e : JournalEntry T) : bool :=
  match pnlPct e with
  | Some p => p <=? lit 0
  | None => false
  end.

(* e.pnlPct of an entry of [closed] *)
Definition pctOf (e : JournalEntry T) : T :=
  match pnlPct e with
  | Some p => p
  | None => lit 0
  end.

(* list.reduce((s, e) => s + f(e), 0) *)
Definition sumOf (f : JournalEntry T -> T) (l : list (JournalEntry T)) : T :=
  fold_left (fun s e => s + f e) l (lit 0).

Definition count (n : nat) : T := of_Z (Z.of_nat n).

Definition avgWinPct (closed : list (JournalEntry T)) : T :=
  let wins := List.filter isWin closed in
  if (0 <? length wins)%nat then sumOf pctOf wins / count (length wins) else lit 0.

Definition avgLossPct (closed : list (JournalEntry T)) : T :=
  let losses := List.filter isLoss closed in
  if (0 <? length losses)%nat
  then sumOf (fun e => abs (pctOf e)) losses / count (length losses)
  else lit 0.

(** One turn of the inner loop.  [byNarrative[n]] is the bucket of that
    name, or without one the member inherited under that name, or
    undefined.  An inherited member is truthy: no bucket is made, the
    three updates go to that member, and byNarrative keeps its own
    properties. *)
Definition bumpNarrative (e : JournalEntry T)
    (m : gmap string (NarrativeStats T)) (n : string) : gmap string (NarrativeStats T) :=
  match m !! n, inherited n with
  | None, true => m
  | bucket, _ =>
      let s := default {| n_trades := 0; n_wins := 0; n_totalPnlPct := lit 0;
                          n_winRate := lit 0; n_avgPnlPct := lit 0 |} bucket in
      <[n := {| n_trades := S (n_trades s);
                n_wins := if isWin e then S (n_wins s) else n_wins s;
                n_totalPnlPct := n_totalPnlPct s + num_or (pnlPct e) (lit 0);
                n_winRate := n_winRate s;
                n_avgPnlPct := n_avgPnlPct s |}]> m
  end.

Definition rateNarrative (s : NarrativeStats T) : NarrativeStats T :=
  {| n_trades := n_trades s;
     n_wins := n_wins s;
     n_totalPnlPct := n_totalPnlPct s;
     n_winRate := count (n_wins s) / count (n_trades s);
     n_avgPnlPct := n_totalPnlPct s / count (n_trades s) |}.

Definition groupByNarrative (closed : list (JournalEntry T))
    : gmap string (NarrativeStats T) :=
  rateNarrative <$>
    fold_left (fun m e => fold_left (bumpNarrative e) (default [] (narratives e)) m)
      closed ∅.

(* e.chain || "unknown" *)
Definition chainOf (e : JournalEntry T) : string :=
  match chain e with
  | Some c => if bool_decide (c = "") then "unknown" else c
  | None => "unknown"
  end.

(** One turn of the loop; a chain named as an inherited member gets no
    bucket, as in [bumpNarrative]. *)
Definition bumpChain (m : gmap string (ChainStats T)) (e : JournalEntry T)
    : gmap string (ChainStats T) :=
  let c := chainOf e in
  match m !! c, inherited c with
  | None, true => m
  | bucket, _ =>
      let s := default {| c_trades := 0; c_wins := 0; c_totalPnl := lit 0 |} bucket in
      <[c := {| c_trades := S (c_trades s);
                c_wins := if isWin e then S (c_wins s) else c_wins s;
                c_totalPnl := c_totalPnl s + num_or (pnl e) (lit 0) |}]> m
  end.

Definition groupByChain (closed : list (JournalEntry T)) : gmap string (ChainStats T) :=
  fold_left bumpChain closed ∅.

(** One turn of the streak loop.  [current] is the value of tempStreak,
    which the loop copies into currentStreak at the end of every turn. *)
Definition streakStep (s : Streaks) (e : JournalEntry T) : Streaks :=
  if isWin e then
    let tempStreak := if (0 <? current s)%Z then (current s + 1)%Z else 1%Z in
    {| current := tempStreak;
       bestWin := Z.max (bestWin s) tempStreak;
       worstLose := worstLose s |}
  else
    let tempStreak := if (current s <? 0)%Z then (current s - 1)%Z else (-1)%Z in
    {| current := tempStreak;
       bestWin := bestWin s;
       worstLose := Z.max (worstLose s) (Z.abs tempStreak) |}.

Definition walkStreaks (closed : list (JournalEntry T)) : Streaks :=
  fold_left streakStep closed {| current := 0; bestWin := 0; worstLose := 0 |}.

Definition analyzeJournal (entries : list (JournalEntry T)) : Analysis T :=
  let closed := List.filter isClosed entries in
  if (length closed =? 0)%nat then NoClosedTrades
  else
    let wins := List.filter isWin closed in
    let losses := List.filter isLoss closed in
    let winRate := count (length wins) / count (length closed) in
    let totalPnl := sumOf (fun e => num_or (pnl e) (lit 0)) closed in
    let totalPnlPct := sumOf (fun e => num_or (pnlPct e) (lit 0)) closed in
    let avgPnlPct := totalPnlPct / count (length closed) in
    let grossProfit := sumOf (fun e => num_or (pnl e) (lit 0)) wins in
    let grossLoss := abs (sumOf (fun e => num_or (pnl e) (lit 0)) losses) in
    let profitFactor :=
      if lit 0 <? grossLoss then Finite (grossProfit / grossLoss)
      else if lit 0 <? grossProfit then Infinite
      else Finite (lit 0) in
    Analyzed {| totalTrades := length closed;
                wins := length wins;
                losses := length losses;
                winRate := winRate;
                avgPnlPct := avgPnlPct;
                totalPnl := totalPnl;
                profitFactor := profitFactor;
                kelly := calcKellyCriterion winRate (avgWinPct closed) (avgLossPct closed);
                byNarrative := groupByNarrative closed;
                byChain := groupByChain closed;
                streaks := walkStreaks closed |}.

End Journal.

(** ** bags/lib/scanner.mjs *)

Record Weights (T : Type) := {
  w_liquidity : T;
  w_volume : T;
  w_holders : T;
  w_safety : T;
  w_age : T
}.
Arguments w_liquidity {T} _.
Arguments w_volume {T} _.
Arguments w_holders {T} _.
Arguments w_safety {T} _.
Arguments w_age {T} _.

(** The metrics object of one token.  [score] is absent until
    [analyzeToken] assigns it. *)
Record Metrics (T : Type) := {
  mint : string;
  liquidityScore : T;
  volumeScore : T;
  holdersScore : T;
  safetyScore : T;
  ageScore : T;
  holderCount : T;
  txCount24h : T;
  riskCount : T;
  priceImpactPct : option T;
  topHolderPct : T;
  hasCriticalRisk : bool;
  quotable : bool;
  score : option T
}.
Arguments mint {T} _.
Arguments liquidityScore {T} _.
Arguments volumeScore {T} _.
Arguments holdersScore {T} _.
Arguments safetyScore {T} _.
Arguments ageScore {T} _.
Arguments holderCount {T} _.
Arguments txCount24h {T} _.
Arguments riskCount {T} _.
Arguments priceImpactPct {T} _.
Arguments topHolderPct {T} _.
Arguments hasCriticalRisk {T} _.
Arguments quotable {T} _.
Arguments score {T} _.

(** What the four fetches of [analyzeToken] deliver.  A fetch that was
    rejected, or fulfilled with a falsy value, is [None] at the call. *)
Record HoldersInfo (T : Type) := {
  totalAccounts : option T;
  top10ConcentrationPct : option T
}.
Arguments totalAccounts {T} _.
Arguments top10ConcentrationPct {T} _.

Record SafetyInfo (T : Type) := {
  s_riskCount : T;
  s_warningCount : T
}.
Arguments s_riskCount {T} _.
Arguments s_warningCount {T} _.

Record QuoteInfo (T : Type) := {
  q_priceImpactPct : option T    (* already read as a number *)
}.
Arguments q_priceImpactPct {T} _.

Record TxInfo (T : Type) := {
  timestamp : option T
}.
Arguments timestamp {T} _.

Section Scanner.
Context {T : Type} `{Number T}.
Local Open Scope js_scope.

Definition WEIGHTS : Weights T := {|
  w_liquidity := dec 25 100;
  w_volume := dec 20 100;
  w_holders := dec 20 100;
  w_safety := dec 20 100;
  w_age := dec 15 100
|}.

Definition scoreLiquidity (priceImpactPct : option T) : T :=
  match priceImpactPct with
  | None => lit 0
  | Some p =>
      let impact := abs p in
      max (lit 0) (min (lit 1) (lit 1 - impact / lit 5))
  end.

Definition scoreVolume (txCount24h : T) : T :=
  max (lit 0) (min (lit 1) (txCount24h / lit 20)).

Definition scoreSafety (riskCount : T) : T :=
  max (lit 0) (min (lit 1) (lit 1 - riskCount / lit 5)).

Definition computeScore (metrics : Metrics T) : T :=
  w_liquidity WEIGHTS * liquidityScore metrics +
  w_volume WEIGHTS * volumeScore metrics +
  w_holders WEIGHTS * holdersScore metrics +
  w_safety WEIGHTS * safetyScore metrics +
  w_age WEIGHTS * ageScore metrics.

(* metrics.score = s *)
Definition setScore (metrics : Metrics T) (s : T) : Metrics T :=
  {| mint := mint metrics;
     liquidityScore := liquidityScore metrics;
     volumeScore := volumeScore metrics;
     holdersScore := holdersScore metrics;
     safetyScore := safetyScore metrics;
     ageScore := ageScore metrics;
     holderCount := holderCount metrics;
     txCount24h := txCount24h metrics;
     riskCount := riskCount metrics;
     priceImpactPct := priceImpactPct metrics;
     topHolderPct := topHolderPct metrics;
     hasCriticalRisk := hasCriticalRisk metrics;
     quotable := quotable metrics;
     score := Some s |}.

Definition passesFilters (metrics : Metrics T) : bool :=
  if holderCount metrics <? lit 10 then false
  else if lit 50 <? topHolderPct metrics then false
  else if hasCriticalRisk metrics then false
  else if negb (quotable metrics) then false
  else true.

Context `{Transcendental T}.

Definition scoreHolders (holderCount : T) : T :=
  if holderCount <=? lit 1 then lit 0
  else max (lit 0) (min (lit 1) (log10 holderCount / lit 3)).

(** [dateNow] is the reading of Date.now(), in milliseconds. *)
Definition scoreAge (dateNow : T) (createdAtUnix : option T) : T :=
  match createdAtUnix with
  | None => dec 5 10
  | Some created =>
      if negb (truthy created) then dec 5 10
      else
        let ageSeconds := max (lit 0) (dateNow / lit 1000 - created) in
        exp (- ageSeconds / lit 86400)
  end.

Definition analyzeToken (dateNow : T) (mint : string) (createdAt : option T)
    (holdersResult : option (HoldersInfo T))
    (safetyResult : option (SafetyInfo T))
    (quoteResult : option (QuoteInfo T))
    (txResult : option (list (TxInfo T))) : Metrics T :=
  (* Holders *)
  let holderCount :=
    match holdersResult with
    | Some h => num_or (totalAccounts h) (lit 0)
    | None => lit 0
    end in
  let holdersScore :=
    match holdersResult with
    | Some h => scoreHolders holderCount
    | None => lit 0
    end in
  let topHolderPct :=
    match holdersResult with
    | Some h => num_or (top10ConcentrationPct h) (lit 100)
    | None => lit 100
    end in
  (* Quote / liquidity *)
  let priceImpactPct :=
    match quoteResult with
    | Some q => Some (num_or (q_priceImpactPct q) (lit 0))
    | None => None
    end in
  (* Volume (tx count in last 24h) *)
  let txCount24h :=
    match txResult with
    | Some txs =>
        let now := dateNow / lit 1000 in
        let recent :=
          List.filter
            (fun tx =>
               match timestamp tx with
               | Some t => truthy t && (now - t <? lit 86400)
               | None => false
               end) txs in
        of_Z (Z.of_nat (length recent))
    | None => lit 0
    end in
  let metrics :=
    {| mint := mint;
       liquidityScore :=
         match quoteResult with
         | Some q => scoreLiquidity priceImpactPct
         | None => lit 0
         end;
       volumeScore :=
         match txResult with
         | Some txs => scoreVolume txCount24h
         | None => lit 0
         end;
       holdersScore := holdersScore;
       safetyScore :=
         match safetyResult with
         | Some s => scoreSafety (s_riskCount s)
         | None => lit 0
         end;
       ageScore := scoreAge dateNow createdAt;
       holderCount := holderCount;
       txCount24h := txCount24h;
       riskCount :=
         match safetyResult with
         | Some s => s_riskCount s + s_warningCount s
         | None => lit 0
         end;
       priceImpactPct := priceImpactPct;
       topHolderPct := topHolderPct;
       hasCriticalRisk :=
         match safetyResult with
         | Some s => lit 0 <? s_riskCount s
         | None => false
         end;
       quotable :=
         match quoteResult with
         | Some q => true
         | None => false
         end;
       score := None |} in
  setScore metrics (computeScore metrics).

(** Step 4 of scanNewTokens: the filter runs on the analysed tokens, each
    of which carries its score. *)
Definition filtered (analyzed : list (Metrics T)) : list (Metrics T) :=
  List.filter passesFilters analyzed.

End Scanner.

(** ** moon/lib/state.mjs *)

(** The values a state document is made of.  A JS value that may be
    [undefined] is an [option (json T)]. *)
Inductive json (T : Type) : Type :=
  | JNull
  | JBool (b : bool)
  | JNum (x : T)
  | JStr (s : string)
  | JArr (l : list (json T))
  | JObj (m : gmap string (json T)).
Arguments JNull {T}.
Arguments JBool {T} b.
Arguments JNum {T} x.
Arguments JStr {T} s.
Arguments JArr {T} l.
Arguments JObj {T} m.

(** The file state.json, up to JSON decoding: absent, not parsable, or the
    text of a value.  JSON.stringify followed by JSON.parse gives back the
    value tree of a document whose numbers are finite and not -0; for the
    others see [throughJSON] and [reread] below. *)
Inductive file (T : Type) : Type :=
  | Missing
  | Unparsable
  | Stored (doc : json T).
Arguments Missing {T}.
Arguments Unparsable {T}.
Arguments Stored {T} doc.

(** A step that may raise a TypeError. *)
Inductive attempt (A : Type) : Type :=
  | Done (a : A)
  | TypeError.
Arguments Done {A} a.
Arguments TypeError {A}.

#[export] Instance attempt_ret : MRet attempt := fun A a => Done a.
#[export] Instance attempt_bind : MBind attempt := fun A B k m =>
  match m with
  | Done a => k a
  | TypeError => TypeError
  end.

(** What a call returns when it returns [o[k]] for a name [k] of the
    caller's: a value of the document, or a member inherited from
    Object.prototype (see [inherited]). *)
Inductive member (T : Type) : Type :=
  | Own (v : json T)
  | Inherited.
Arguments Own {T} v.
Arguments Inherited {T}.

(** The names of the store's call arguments. *)
Inductive mutation (T : Type) : Type :=
  | AddJournalEntry (entry : gmap string (json T))
  | UpdateJournalEntry (id : string) (updates : gmap string (json T))
  | AddWatchlistItem (item : gmap string (json T))
  | RemoveWatchlistItem (mint : string)
  | AddNarrative (name : string) (mint notes : option string)
  | AddScanRecord (record : gmap string (json T))
  | AddPolyBet (bet : gmap string (json T))
  | UpdatePolyBet (conditionId : string) (updates : gmap string (json T))
  | UpdateConfig (updates : gmap string (json T)).
Arguments AddJournalEntry {T} entry.
Arguments UpdateJournalEntry {T} id updates.
Arguments AddWatchlistItem {T} item.
Arguments RemoveWatchlistItem {T} mint.
Arguments AddNarrative {T} name mint notes.
Arguments AddScanRecord {T} record.
Arguments AddPolyBet {T} bet.
Arguments UpdatePolyBet {T} conditionId updates.
Arguments UpdateConfig {T} updates.

Section State.
Context {T : Type} `{Number T}.

Abbreviation value := (json T).
Abbreviation object := (gmap string (json T)).

(** *** The JavaScript the store relies on *)

(* ToBoolean *)
Definition truthyV (v : option value) : bool :=
  match v with
  | None | Some JNull => false
  | Some (JBool b) => b
  | Some (JNum x) => truthy x
  | Some (JStr s) => negb (bool_decide (s = ""))
  | Some (JArr _) | Some (JObj _) => true
  end.

(* a === b, for a value of the document and a call argument: two objects
   are never the same object *)
Definition strictEq (a b : option value) : bool :=
  match a, b with
  | None, None => true
  | Some JNull, Some JNull => true
  | Some (JBool x), Some (JBool y) => bool_decide (x = y)
  | Some (JNum x), Some (JNum y) => eqb x y
  | Some (JStr x), Some (JStr y) => bool_decide (x = y)
  | _, _ => false
  end.

(* v[k] for a key k that is not an array index, "length" or a member
   inherited from a prototype: the keys config, id, mint, conditionId,
   tokens, timestamp and the narrative tags.  Reading a property of null
   or undefined raises. *)
Definition getProp (v : option value) (k : string) : attempt (option value) :=
  match v with
  | None | Some JNull => TypeError
  | Some (JObj m) => Done (m !! k)
  | Some _ => Done None
  end.

(* the own enumerable properties that {...v} copies *)
Definition spreadOf (v : option value) : object :=
  match v with
  | Some (JObj m) => m
  | Some (JArr l) => list_to_map (imap (fun i x => (pretty i, x)) l)
  | Some (JStr s) =>
      list_to_map (imap (fun i c => (pretty i, JStr (String c EmptyString)))
                        (list_ascii_of_string s))
  | _ => ∅
  end.

(* the receiver of .push, .filter and .findIndex: only arrays have them *)
Definition asArray (v : option value) : attempt (list value) :=
  match v with
  | Some (JArr l) => Done l
  | _ => TypeError
  end.

(* l.findIndex(p); -1 is None *)
Fixpoint findIndex (p : value -> attempt bool) (l : list value) : attempt (option nat) :=
  match l with
  | [] => Done None
  | x :: rest =>
      b ← p x;
      if b : bool then Done (Some 0%nat)
      else i ← findIndex p rest; Done (option_map S i)
  end.

(* l.filter(p) *)
Fixpoint filterArray (p : value -> attempt bool) (l : list value) : attempt (list value) :=
  match l with
  | [] => Done []
  | x :: rest =>
      b ← p x;
      kept ← filterArray p rest;
      Done (if b : bool then x :: kept else kept)
  end.

(* l.slice(-n) *)
Definition sliceLast (n : nat) (l : list value) : list value :=
  drop (length l - n) l.

(** *** Load / save *)

Definition DEFAULT_CONFIG : object :=
  <["goalUsd" := JNum (lit 1000000)]>
  (<["defaultRiskPct" := JNum (lit 2)]>
  (<["defaultStopLossPct" := JNum (lit 20)]>
  (<["lastWatchCheck" := JNum (lit 0)]> ∅))).

Definition DEFAULT_STATE : object :=
  <["version" := JNum (lit 1)]>
  (<["config" := JObj DEFAULT_CONFIG]>
  (<["journal" := JArr []]>
  (<["watchlist" := JArr []]>
  (<["narratives" := JObj ∅]>
  (<["scanHistory" := JArr []]>
  (<["polymarketBets" := JArr []]> ∅)))))).

(** In a union the left map wins, so [{...a, ...b}] is [b ∪ a]. *)
Definition loadState (disk : file T) : object :=
  match disk with
  | Stored parsed =>
      match getProp (Some parsed) "config" with
      | Done config =>
          let config := if truthyV config then config else Some (JObj ∅) in
          <["config" := JObj (spreadOf config ∪ DEFAULT_CONFIG)]>
            (spreadOf (Some parsed) ∪ DEFAULT_STATE)
      | TypeError => DEFAULT_STATE
      end
  | Missing | Unparsable => DEFAULT_STATE
  end.

(** The temporary file is renamed over state.json: a reader sees the old
    text or the new one.  [Stored (JObj state)] is the file by the document
    that JSON.stringify was given. *)
Definition saveState (state : object) : file T := Stored (JObj state).

(* whether a number is finite: x - x is 0 for a finite x, and NaN for NaN
   and the infinities *)
Definition isFinite (x : T) : bool := eqb (sub x x) (lit 0).

(** What JSON.parse reads from the text JSON.stringify writes for a
    value: NaN and the infinities are written as null, and -0 as 0; a
    finite number is written with the digits that read back as the same
    double; strings, booleans and null are kept, arrays and objects
    member by member. *)
Fixpoint throughJSON (v : value) : value :=
  match v with
  | JNum x =>
      if isFinite x then (if eqb x (lit 0) then JNum (lit 0) else JNum x) else JNull
  | JArr l => JArr (throughJSON <$> l)
  | JObj m => JObj (throughJSON <$> m)
  | other => other
  end.

(** A document that JSON keeps as it is: every number in it is finite and
    none is -0.  For these documents the file after saveState parses to
    the document saved, as [loadState (saveState state)] reads it; for any
    document it parses to [throughJSON] of it, see [reread]. *)
Definition keptByJSON (state : object) : Prop :=
  throughJSON (JObj state) = JObj state.

(** The file a save leaves, as the next JSON.parse reads it:
    [loadState (reread (saveState state))] is loadState() right after
    saveState(state), for every document. *)
Definition reread (disk : file T) : file T :=
  match disk with
  | Stored doc => Stored (throughJSON doc)
  | Missing => Missing
  | Unparsable => Unparsable
  end.

(** *** The mutators

    Each takes the reading [now] of Date.now() where it uses one (the
    readings within one call are the same millisecond) and the file, and
    gives its return value with the file it leaves, or raises with the file
    as it was.  Call arguments are JSON objects. *)

Definition addJournalEntry (now : Z) (entry : object) (disk : file T)
    : attempt (value * file T) :=
  let state := loadState disk in
  let id := "j_" +:+ pretty now in
  let full : object :=
    <["timestamp" := if truthyV (entry !! "timestamp")
                     then default JNull (entry !! "timestamp")
                     else JNum (of_Z now)]>
      (entry ∪
       <["id" := JStr id]>
       (<["status" := JStr "open"]>
       (<["exitPrice" := JNull]>
       (<["exitTimestamp" := JNull]>
       (<["pnl" := JNull]>
       (<["pnlPct" := JNull]> ∅)))))) in
  journal ← asArray (state !! "journal");
  let state := <["journal" := JArr (journal ++ [JObj full])]> state in
  Done (JObj full, saveState state).

Definition updateJournalEntry (id : string) (updates : object) (disk : file T)
    : attempt (value * file T) :=
  let state := loadState disk in
  journal ← asArray (state !! "journal");
  idx ← findIndex (fun j => jid ← getProp (Some j) "id";
                            Done (strictEq jid (Some (JStr id)))) journal;
  match idx with
  | None => Done (JNull, disk)
  | Some idx =>
      let updated := JObj (updates ∪ spreadOf (journal !! idx)) in
      let state := <["journal" := JArr (<[idx := updated]> journal)]> state in
      Done (updated, saveState state)
  end.

Definition addWatchlistItem (now : Z) (item : object) (disk : file T)
    : attempt (value * file T) :=
  let state := loadState disk in
  watchlist ← asArray (state !! "watchlist");
  kept ← filterArray (fun w => m ← getProp (Some w) "mint";
                               Done (negb (strictEq m (item !! "mint")))) watchlist;
  let added :=
    JObj (item ∪ <["addedAt" := JNum (of_Z now)]> (<["lastCheck" := JNum (lit 0)]> ∅)) in
  let state := <["watchlist" := JArr (kept ++ [added])]> state in
  Done (JObj item, saveState state).

Definition removeWatchlistItem (mint : string) (disk : file T)
    : attempt (value * file T) :=
  let state := loadState disk in
  watchlist ← asArray (state !! "watchlist");
  let before := length watchlist in
  kept ← filterArray (fun w => m ← getProp (Some w) "mint";
                               Done (negb (strictEq m (Some (JStr mint))))) watchlist;
  let state := <["watchlist" := JArr kept]> state in
  Done (JBool (length kept <? before)%nat, saveState state).

(* what JSON.stringify shows of [container[k] = v]: an object gets the
   key, an array keeps a named property to itself, a primitive refuses
   (module code is strict) *)
Definition assignProp (container : option value) (k : string) (v : value)
    : attempt value :=
  match container with
  | Some (JObj m) => Done (JObj (<[k := v]> m))
  | Some (JArr l) => Done (JArr l)
  | _ => TypeError
  end.

(** [state.narratives[name]] reads the record of that name, or without one
    the member inherited under that name.  That member is truthy, so no
    record is made; it has no tokens, so a call with a mint raises; a call
    without one sets at most a property of the member, saves the document
    as loaded and returns the member. *)
Definition addNarrative (name : string) (mint notes : option string) (disk : file T)
    : attempt (member T * file T) :=
  let state := loadState disk in
  let narratives := state !! "narratives" in
  existing ← getProp narratives name;
  match existing, inherited name with
  | None, true =>
      if truthyV (JStr <$> mint) then TypeError
      else Done (Inherited, saveState state)
  | _, _ =>
  (* if (!state.narratives[name]) state.narratives[name] = {...} *)
  record ←
    (if truthyV existing then Done (default JNull existing)
     else
       let fresh : value :=
         JObj (<["tokens" := JArr []]>
              (<["notes" := JStr (if truthyV (JStr <$> notes)
                                  then default "" notes else "")]> ∅)) in
       _ ← assignProp narratives name fresh; Done fresh);
  (* if (mint && !record.tokens.includes(mint)) record.tokens.push(mint) *)
  record ←
    (if truthyV (JStr <$> mint) then
       let mint := default "" mint in
       tokens ← getProp (Some record) "tokens";
       match tokens with
       | Some (JArr l) =>
           if existsb (fun t => strictEq (Some t) (Some (JStr mint))) l
           then Done record
           else assignProp (Some record) "tokens" (JArr (l ++ [JStr mint]))
       | Some (JStr s) =>
           if bool_decide (is_Some (index 0 mint s)) then Done record else TypeError
       | _ => TypeError
       end
     else Done record);
  (* if (notes) record.notes = notes *)
  record ←
    (if truthyV (JStr <$> notes)
     then assignProp (Some record) "notes" (JStr (default "" notes))
     else Done record);
  narratives ← assignProp narratives name record;
  let state := <["narratives" := narratives]> state in
  Done (Own record, saveState state)
  end.

Definition addScanRecord (now : Z) (record : object) (disk : file T)
    : attempt (unit * file T) :=
  let state := loadState disk in
  scanHistory ← asArray (state !! "scanHistory");
  let scanHistory :=
    scanHistory ++ [JObj (record ∪ <["timestamp" := JNum (of_Z now)]> ∅)] in
  let scanHistory :=
    if (50 <? length scanHistory)%nat then sliceLast 50 scanHistory else scanHistory in
  let state := <["scanHistory" := JArr scanHistory]> state in
  Done (tt, saveState state).

Definition addPolyBet (now : Z) (bet : object) (disk : file T)
    : attempt (value * file T) :=
  let state := loadState disk in
  let state :=
    if truthyV (state !! "polymarketBets") then state
    else <["polymarketBets" := JArr []]> state in
  bets ← asArray (state !! "polymarketBets");
  let tracked :=
    JObj (bet ∪ <["trackedAt" := JNum (of_Z now)]> (<["status" := JStr "open"]> ∅)) in
  let state := <["polymarketBets" := JArr (bets ++ [tracked])]> state in
  Done (JObj bet, saveState state).

Definition updatePolyBet (conditionId : string) (updates : object) (disk : file T)
    : attempt (value * file T) :=
  let state := loadState disk in
  if negb (truthyV (state !! "polymarketBets")) then Done (JNull, disk)
  else
    bets ← asArray (state !! "polymarketBets");
    idx ← findIndex (fun b => cid ← getProp (Some b) "conditionId";
                              Done (strictEq cid (Some (JStr conditionId)))) bets;
    match idx with
    | None => Done (JNull, disk)
    | Some idx =>
        let updated := JObj (updates ∪ spreadOf (bets !! idx)) in
        let state := <["polymarketBets" := JArr (<[idx := updated]> bets)]> state in
        Done (updated, saveState state)
    end.

Definition updateConfig (updates : object) (disk : file T)
    : attempt (value * file T) :=
  let state := loadState disk in
  let config := JObj (updates ∪ spreadOf (state !! "config")) in
  let state := <["config" := config]> state in
  Done (config, saveState state).

(** The file a call leaves behind. *)
Definition diskAfter {A} (disk : file T) (r : attempt (A * file T)) : file T :=
  match r with
  | Done (_, disk') => disk'
  | TypeError => disk
  end.

Definition mutate (now : Z) (m : mutation T) (disk : file T) : file T :=
  match m with
  | AddJournalEntry entry => diskAfter disk (addJournalEntry now entry disk)
  | UpdateJournalEntry id updates => diskAfter disk (updateJournalEntry id updates disk)
  | AddWatchlistItem item => diskAfter disk (addWatchlistItem now item disk)
  | RemoveWatchlistItem mint => diskAfter disk (removeWatchlistItem mint disk)
  | AddNarrative name mint notes => diskAfter disk (addNarrative name mint notes disk)
  | AddScanRecord record => diskAfter disk (addScanRecord now record disk)
  | AddPolyBet bet => diskAfter disk (addPolyBet now bet disk)
  | UpdatePolyBet conditionId updates =>
      diskAfter disk (updatePolyBet conditionId updates disk)
  | UpdateConfig updates => diskAfter disk (updateConfig updates disk)
  end.

End State.

(** A document that carries the defaults: every top-level key of
    DEFAULT_STATE, and under config an object with every key of
    DEFAULT_STATE.config. *)
Definition carriesDefaults {T} `{Number T} (state : gmap string (json T)) : Prop :=
  dom (DEFAULT_STATE (T:=T)) ⊆ dom state /\
  exists config : gmap string (json T),
    state !! "config" = Some (JObj config) /\ dom (DEFAULT_CONFIG (T:=T)) ⊆ dom config.


(** No element of the array has the string [id] under key [k]. *)
Definition noneHas {T} (k id : string) (l : list (json T)) : Prop :=
  Forall (fun j => j <> JNull /\
                   forall m : gmap string (json T), j = JObj m -> m !! k <> Some (JStr id)) l.

(** A run of the program: store calls one after the other, each with its
    clock reading. *)
Definition replay {T} `{Number T} (calls : list (Z * mutation T)) (disk : file T) : file T :=
  fold_left (fun d call => mutate (fst call) (snd call) d) calls disk.

(** A binary64 score that is between 0 and 1, unless it is NaN. *)
Definition unit_or_nan (s : float) : Prop :=
  PrimFloat.is_nan s = true \/ (PrimFloat.leb 0 s = true /\ PrimFloat.leb s 1 = true).

(** ** moon/lib/calc.mjs, the remaining calculators *)

(** [x === Infinity]: never in exact arithmetic. *)
Class HasInfinity (T : Type) := {
  isInfinity : T -> bool
}.

#[export] Instance float_HasInfinity : HasInfinity float := {|
  isInfinity := fun x => PrimFloat.eqb x PrimFloat.infinity
|}.

#[export] Instance R_HasInfinity : HasInfinity R := {|
  isInfinity := fun _ => false
|}.

Record TargetPosition (T : Type) := {
  tokensNeeded : T;
  costAtCurrentPrice : T;
  pctOfSupply : option T;
  tp_currentMcap : option T;
  tp_targetUsd : T;
  tp_currentPrice : T
}.
Arguments tokensNeeded {T} _.
Arguments costAtCurrentPrice {T} _.
Arguments pctOfSupply {T} _.
Arguments tp_currentMcap {T} _.
Arguments tp_targetUsd {T} _.
Arguments tp_currentPrice {T} _.

(** [rm_currentMcap] is the key that only calcRequiredMcapWithCurrent adds. *)
Record RequiredMcap (T : Type) := {
  requiredMcap : T;
  requiredPrice : T;
  rm_tokensHeld : T;
  rm_totalSupply : T;
  rm_targetUsd : T;
  rm_currentMcap : option T;
  multiplierNeeded : option T
}.
Arguments requiredMcap {T} _.
Arguments requiredPrice {T} _.
Arguments rm_tokensHeld {T} _.
Arguments rm_totalSupply {T} _.
Arguments rm_targetUsd {T} _.
Arguments rm_currentMcap {T} _.
Arguments multiplierNeeded {T} _.

(** The fields of a position that calcGoalProgress reads. *)
Record Position (T : Type) := {
  p_symbol : option string;
  p_mint : option string;
  p_tokenAmount : option T;
  p_currentPrice : option T;
  p_price : option T
}.
Arguments p_symbol {T} _.
Arguments p_mint {T} _.
Arguments p_tokenAmount {T} _.
Arguments p_currentPrice {T} _.
Arguments p_price {T} _.

Inductive Multiplier (T : Type) : Type :=
  | NotApplicable               (* "N/A" *)
  | Times (x : T).
Arguments NotApplicable {T}.
Arguments Times {T} x.

Record PathEntry (T : Type) := {
  pe_symbol : option string;
  pe_mint : option string;
  pe_currentValue : T;
  pe_multiplierNeeded : Multiplier T;
  pctOfGoal : T
}.
Arguments pe_symbol {T} _.
Arguments pe_mint {T} _.
Arguments pe_currentValue {T} _.
Arguments pe_multiplierNeeded {T} _.
Arguments pctOfGoal {T} _.

Record GoalProgress (T : Type) := {
  currentValue : T;
  progressPct : T;
  remainingUsd : T;
  gp_targetUsd : T;
  pathToGoal : list (PathEntry T)
}.
Arguments currentValue {T} _.
Arguments progressPct {T} _.
Arguments remainingUsd {T} _.
Arguments gp_targetUsd {T} _.
Arguments pathToGoal {T} _.

Section Calculators.
Context {T : Type} `{Number T}.
Local Open Scope js_scope.

Definition calcTargetPosition (currentPrice totalSupply targetUsd : T)
    : result (TargetPosition T) :=
  if invalid currentPrice then Error "Invalid price"
  else
    let tokensNeeded := targetUsd / currentPrice in
    let costAtCurrentPrice := tokensNeeded * currentPrice in
    let pctOfSupply :=
      if lit 0 <? totalSupply then Some ((tokensNeeded / totalSupply) * lit 100) else None in
    let currentMcap :=
      if lit 0 <? totalSupply then Some (currentPrice * totalSupply) else None in
    Value {| tokensNeeded := tokensNeeded;
             costAtCurrentPrice := costAtCurrentPrice;
             pctOfSupply := pctOfSupply;
             tp_currentMcap := currentMcap;
             tp_targetUsd := targetUsd;
             tp_currentPrice := currentPrice |}.

Definition calcRequiredMcap (tokensHeld totalSupply targetUsd : T)
    : result (RequiredMcap T) :=
  if invalid tokensHeld then Error "Invalid token amount"
  else if invalid totalSupply then Error "Invalid supply"
  else
    let requiredPrice := targetUsd / tokensHeld in
    let requiredMcap := requiredPrice * totalSupply in
    Value {| requiredMcap := requiredMcap;
             requiredPrice := requiredPrice;
             rm_tokensHeld := tokensHeld;
             rm_totalSupply := totalSupply;
             rm_targetUsd := targetUsd;
             rm_currentMcap := None;
             multiplierNeeded := None |}.

Definition calcRequiredMcapWithCurrent (tokensHeld totalSupply targetUsd currentMcap : T)
    : result (RequiredMcap T) :=
  match calcRequiredMcap tokensHeld totalSupply targetUsd with
  | Error msg => Error msg
  | Value base =>
      let multiplierNeeded :=
        if lit 0 <? currentMcap then Some (requiredMcap base / currentMcap) else None in
      Value {| requiredMcap := requiredMcap base;
               requiredPrice := requiredPrice base;
               rm_tokensHeld := rm_tokensHeld base;
               rm_totalSupply := rm_totalSupply base;
               rm_targetUsd := rm_targetUsd base;
               rm_currentMcap := Some currentMcap;
               multiplierNeeded := multiplierNeeded |}
  end.

Context `{HasInfinity T}.

(* (pos.tokenAmount || 0) * (pos.currentPrice || pos.price || 0) *)
Definition positionValue (pos : Position T) : T :=
  num_or (p_tokenAmount pos) (lit 0)
  * (match p_currentPrice pos with
     | Some c => if truthy c then c else num_or (p_price pos) (lit 0)
     | None => num_or (p_price pos) (lit 0)
     end).

(* a || b on strings *)
Definition str_or (a b : option string) : option string :=
  match a with
  | Some s => if bool_decide (s = "") then b else a
  | None => b
  end.

Definition pathEntry (targetUsd : T) (pos : Position T) : PathEntry T :=
  let value := positionValue pos in
  {| pe_symbol := str_or (p_symbol pos) (p_mint pos);
     pe_mint := p_mint pos;
     pe_currentValue := value;
     pe_multiplierNeeded :=
       if lit 0 <? value then
         let multiplierNeeded := targetUsd / value in
         if isInfinity multiplierNeeded then NotApplicable else Times multiplierNeeded
       else NotApplicable;
     pctOfGoal := (value / targetUsd) * lit 100 |}.

(* the comparator (a, b) => (b.currentValue || 0) - (a.currentValue || 0) *)
Definition byValueDesc (a b : PathEntry T) : T :=
  num_or (Some (pe_currentValue b)) (lit 0) - num_or (Some (pe_currentValue a)) (lit 0).

(** Array.prototype.sort with a comparator: the sort is stable, and for a
    consistent comparator its result is the one arrangement in comparator
    order that keeps equal elements in their input order.  [insertSorted]
    puts [x] before the first element that does not come strictly before
    it. *)
Fixpoint insertSorted {A} (cmp : A -> A -> T) (x : A) (l : list A) : list A :=
  match l with
  | [] => [x]
  | y :: rest =>
      if cmp y x <? lit 0 then y :: insertSorted cmp x rest
      else x :: y :: rest
  end.

Definition sortBy {A} (cmp : A -> A -> T) (l : list A) : list A :=
  fold_right (insertSorted cmp) [] l.

Definition calcGoalProgress (positions : option (list (Position T))) (targetUsd : T)
    : GoalProgress T :=
  match positions with
  | None | Some [] =>
      {| currentValue := lit 0;
         progressPct := lit 0;
         remainingUsd := targetUsd;
         gp_targetUsd := targetUsd;
         pathToGoal := [] |}
  | Some positions =>
      let currentValue :=
        fold_left (fun acc pos => acc + positionValue pos) positions (lit 0) in
      let pathToGoal := List.map (pathEntry targetUsd) positions in
      {| currentValue := currentValue;
         progressPct := (currentValue / targetUsd) * lit 100;
         remainingUsd := targetUsd - currentValue;
         gp_targetUsd := targetUsd;
         pathToGoal := sortBy byValueDesc pathToGoal |}
  end.

End Calculators.

(** The sum of [f] over a list, in exact arithmetic. *)
Definition sumR {A} (f : A -> R) (l : list A) : R :=
  fold_right (fun x acc => (f x + acc)%R) 0%R l.

(** [a] may stand before [b] in a list ordered by value, largest first. *)
Definition valueDesc (a b : PathEntry R) : Prop :=
  (pe_currentValue b <= pe_currentValue a)%R.

(** The sum of a counter over the buckets of a breakdown. *)
Definition mapTotal {V} (f : V -> nat) (m : gmap string V) : nat :=
  map_fold (fun _ v acc => (f v + acc)%nat) 0%nat m.

(** The number of narrative tags on the entries of a list. *)
Definition tagCount {T} (l : list (JournalEntry T)) : nat :=
  fold_right (fun e acc => (length (default [] (narratives e)) + acc)%nat) 0%nat l.

(** The tags of an entry that get a bucket in byNarrative, and the entries
    that get one in byChain: those whose name is no inherited member. *)
Definition bucketTags {T} (e : JournalEntry T) : list string :=
  List.filter (fun n => negb (inherited n)) (default [] (narratives e)).

Definition bucketTagCount {T} (l : list (JournalEntry T)) : nat :=
  fold_right (fun e acc => (length (bucketTags e) + acc)%nat) 0%nat l.

Definition filedByChain {T} (l : list (JournalEntry T)) : list (JournalEntry T) :=
  List.filter (fun e => negb (inherited (chainOf e))) l.

(** What the streak loop keeps true, with [w] wins and [m] other entries
    walked so far. *)
Definition streaksWithin (s : Streaks) (w m : nat) : Prop :=
  (0 <= bestWin s <= Z.of_nat w)%Z /\
  (0 <= worstLose s <= Z.of_nat m)%Z /\
  (- worstLose s <= current s <= bestWin s)%Z.


(** ** moon/lib/state.mjs, the reads and what a call writes *)

Section StateReads.
Context {T : Type} `{Number T}.

Abbreviation value := (json T).
Abbreviation object := (gmap string (json T)).

(** [w[k] === v] for an array element [w] that is not null. *)
Definition propIs (k : string) (v : option value) (w : value) : bool :=
  match w with
  | JObj m => strictEq (m !! k) v
  | _ => strictEq None v
  end.

Definition getOpenPositions (disk : file T) : attempt (list value) :=
  let state := loadState disk in
  journal ← asArray (state !! "journal");
  filterArray (fun j => s ← getProp (Some j) "status";
                        Done (strictEq s (Some (JStr "open")))) journal.

(* [...v]: an array or a string can be spread into an array *)
Definition spreadArray (v : option value) : attempt (list value) :=
  match v with
  | Some (JArr l) => Done l
  | Some (JStr s) =>
      Done ((fun c => JStr (String c EmptyString)) <$> list_ascii_of_string s)
  | _ => TypeError
  end.

(* l.filter(x => x[k] === v) *)
Definition filterBy (k : string) (v : option value) (l : list value)
    : attempt (list value) :=
  filterArray (fun x : value => p ← getProp (Some x) k; Done (strictEq p v)) l.

(* (j.narratives || []).includes(narrative) *)
Definition hasNarrative (narrative : string) (j : value) : attempt bool :=
  v ← getProp (Some j) "narratives";
  if truthyV v then
    match v with
    | Some (JArr l) =>
        Done (existsb (fun t => strictEq (Some t) (Some (JStr narrative))) l)
    | Some (JStr s) => Done (bool_decide (is_Some (index 0 narrative s)))
    | _ => TypeError
    end
  else Done false.

(** The entry is an object whose narratives are an array with the tag. *)
Definition tagged (narrative : string) (j : value) : bool :=
  match j with
  | JObj m =>
      match m !! "narratives" with
      | Some (JArr l) => existsb (fun t => strictEq (Some t) (Some (JStr narrative))) l
      | _ => false
      end
  | _ => false
  end.

(* entries.slice(-last) *)
Definition sliceFromEnd (last : Z) (entries : list value) : list value :=
  if (0 <=? last)%Z then drop (length entries - Z.to_nat last) entries
  else drop (Z.to_nat (- last)) entries.

(** [opts.last] is an integer, or absent. *)
Definition getJournal (status narrative : option string) (last : option Z)
    (disk : file T) : attempt (list value) :=
  let state := loadState disk in
  entries ← spreadArray (state !! "journal");
  entries ←
    (if truthyV (JStr (T:=T) <$> status)
     then filterBy "status" (JStr <$> status) entries
     else Done entries);
  entries ←
    (if truthyV (JStr (T:=T) <$> narrative)
     then filterArray (hasNarrative (default "" narrative)) entries
     else Done entries);
  Done (match last with
        | Some n => if (n =? 0)%Z then entries else sliceFromEnd n entries
        | None => entries
        end).

Definition getPolyBets (conditionId status : option string) (disk : file T)
    : attempt value :=
  let state := loadState disk in
  let stored := state !! "polymarketBets" in
  let bets : value := if truthyV stored then default JNull stored else JArr [] in
  bets ←
    (if truthyV (JStr (T:=T) <$> conditionId)
     then l ← asArray (Some bets);
          l ← filterBy "conditionId" (JStr <$> conditionId) l;
          Done (JArr l)
     else Done bets) : attempt value;
  bets ←
    (if truthyV (JStr (T:=T) <$> status)
     then l ← asArray (Some bets);
          l ← filterBy "status" (JStr <$> status) l;
          Done (JArr l)
     else Done bets) : attempt value;
  Done bets.


Definition getNarratives (disk : file T) : option value :=
  loadState disk !! "narratives".

Definition getConfig (disk : file T) : option value :=
  loadState disk !! "config".

End StateReads.

(** The top-level key of the document that a call assigns or pushes to. *)
Definition writtenKey {T} (m : mutation T) : string :=
  match m with
  | AddJournalEntry _ | UpdateJournalEntry _ _ => "journal"
  | AddWatchlistItem _ | RemoveWatchlistItem _ => "watchlist"
  | AddNarrative _ _ _ => "narratives"
  | AddScanRecord _ => "scanHistory"
  | AddPolyBet _ | UpdatePolyBet _ _ => "polymarketBets"
  | UpdateConfig _ => "config"
  end.

(** ** bags/lib/scanner.mjs, from the pool signatures to the report *)

(** Math.round, available in exact arithmetic only: the nearest integer,
    a tie going up. *)
Class Rounding (T : Type) := {
  round : T -> T
}.

#[export] Instance R_Rounding : Rounding R := {|
  round := fun x => IZR (Int_part (x + / 2))
|}.

(** An entry of getSolNewPools' answer, as far as the scanner reads it. *)
Record PoolSignature (T : Type) := {
  signature : string;
  sig_blockTime : option T;
  dex : string
}.
Arguments signature {T} _.
Arguments sig_blockTime {T} _.
Arguments dex {T} _.

(** A parsed transaction that has a [meta]: its block time and the mints
    of [meta.postTokenBalances]. *)
Record ParsedTransaction (T : Type) := {
  tx_blockTime : option T;
  postTokenBalances : option (list (option string))
}.
Arguments tx_blockTime {T} _.
Arguments postTokenBalances {T} _.

(** What the per-signature promise resolves to. *)
Record SignatureMints (T : Type) := {
  sm_mints : list string;
  sm_blockTime : option T;
  sm_dex : string;
  sm_signature : string
}.
Arguments sm_mints {T} _.
Arguments sm_blockTime {T} _.
Arguments sm_dex {T} _.
Arguments sm_signature {T} _.

Record MintInfo (T : Type) := {
  createdAt : option T;
  mi_dex : string;
  mi_signature : string
}.
Arguments createdAt {T} _.
Arguments mi_dex {T} _.
Arguments mi_signature {T} _.

(** What analyzeToken's four fetches and its clock deliver for a mint. *)
Record Fetched (T : Type) := {
  f_dateNow : T;
  f_holders : option (HoldersInfo T);
  f_safety : option (SafetyInfo T);
  f_quote : option (QuoteInfo T);
  f_transactions : option (list (TxInfo T))
}.
Arguments f_dateNow {T} _.
Arguments f_holders {T} _.
Arguments f_safety {T} _.
Arguments f_quote {T} _.
Arguments f_transactions {T} _.

Record Breakdown (T : Type) := {
  b_liquidity : T;
  b_volume : T;
  b_holders : T;
  b_safety : T;
  b_age : T
}.
Arguments b_liquidity {T} _.
Arguments b_volume {T} _.
Arguments b_holders {T} _.
Arguments b_safety {T} _.
Arguments b_age {T} _.

Record RankedToken (T : Type) := {
  rank : nat;
  rt_mint : string;
  rt_score : option T;
  breakdown : Breakdown T;
  rt_holderCount : T;
  rt_txCount24h : T;
  rt_riskCount : T;
  rt_priceImpactPct : option T;
  rt_topHolderPct : T;
  discoveryDex : string
}.
Arguments rank {T} _.
Arguments rt_mint {T} _.
Arguments rt_score {T} _.
Arguments breakdown {T} _.
Arguments rt_holderCount {T} _.
Arguments rt_txCount24h {T} _.
Arguments rt_riskCount {T} _.
Arguments rt_priceImpactPct {T} _.
Arguments rt_topHolderPct {T} _.
Arguments discoveryDex {T} _.

(** The report; its [weights] and [filters] fields are constants. *)
Record ScanReport (T : Type) := {
  tokens : list (RankedToken T);
  totalDiscovered : nat;
  totalAnalyzed : nat;
  totalPassedFilters : nat;
  returned : nat
}.
Arguments tokens {T} _.
Arguments totalDiscovered {T} _.
Arguments totalAnalyzed {T} _.
Arguments totalPassedFilters {T} _.
Arguments returned {T} _.

Inductive ScanOutcome (T : Type) : Type :=
  | Exited                (* requireEnv: process.exit(1) *)
  | NoRecentPools         (* "No recent pool creations found" *)
  | NoMintsExtracted      (* "Could not extract token mints from recent transactions" *)
  | Report (r : ScanReport T).
Arguments Exited {T}.
Arguments NoRecentPools {T}.
Arguments NoMintsExtracted {T}.
Arguments Report {T} r.

Section ScanPipeline.
Context {T : Type} `{Number T} `{Transcendental T} `{Rounding T}.
Local Open Scope js_scope.

(** The Map of extractMintsFromSignatures, in insertion order. *)
Abbreviation MintMap := (list (string * MintInfo T)).

Definition WSOL_MINT : string := "So11111111111111111111111111111111111111112".

(* mints.has(mint) *)
Definition has (mints : MintMap) (mint : string) : bool :=
  existsb (fun e => bool_decide (fst e = mint)) mints.

(* the Set tokenMints, spread into an array *)
Definition tokenMintsOf (balances : list (option string)) : list string :=
  fold_left
    (fun tokenMints bal =>
       match bal with
       | Some mint =>
           if negb (bool_decide (mint = "")) && negb (bool_decide (mint = WSOL_MINT))
           then if bool_decide (mint ∈ tokenMints) then tokenMints
                else tokenMints ++ [mint]
           else tokenMints
       | None => tokenMints
       end)
    balances [].

(** [getParsedTransaction] answers [None] when the call is rejected, or the
    transaction is null or has no meta. *)
Definition signatureMints (getParsedTransaction : string -> option (ParsedTransaction T))
    (sig : PoolSignature T) : option (SignatureMints T) :=
  match getParsedTransaction (signature sig) with
  | None => None
  | Some tx =>
      Some {| sm_mints := tokenMintsOf (default [] (postTokenBalances tx));
              sm_blockTime :=
                match tx_blockTime tx with
                | Some t => if truthy t then Some t else sig_blockTime sig
                | None => sig_blockTime sig
                end;
              sm_dex := dex sig;
              sm_signature := signature sig |}
  end.

Definition recordMints (mints : MintMap) (r : option (SignatureMints T)) : MintMap :=
  match r with
  | None => mints
  | Some r =>
      fold_left
        (fun mints mint =>
           if has mints mint then mints
           else mints ++ [(mint, {| createdAt := sm_blockTime r;
                                    mi_dex := sm_dex r;
                                    mi_signature := sm_signature r |})])
        (sm_mints r) mints
  end.

(** The loop over batches of 5; a round takes at least one signature, so
    fuel equal to their number is enough. *)
Fixpoint extractLoop (fuel : nat)
    (getParsedTransaction : string -> option (ParsedTransaction T))
    (sigs : list (PoolSignature T)) (limit : Z) (mints : MintMap) : MintMap :=
  match fuel with
  | O => mints
  | S fuel =>
      match sigs with
      | [] => mints
      | _ :: _ =>
          if (Z.of_nat (length mints) <? limit)%Z then
            let batch := take 5 sigs in
            let results := signatureMints getParsedTransaction <$> batch in
            extractLoop fuel getParsedTransaction (drop 5 sigs) limit
              (fold_left recordMints results mints)
          else mints
      end
  end.

Definition extractMintsFromSignatures
    (getParsedTransaction : string -> option (ParsedTransaction T))
    (sigs : list (PoolSignature T)) (limit : Z) : MintMap :=
  extractLoop (length sigs) getParsedTransaction sigs limit [].

(** Step 3.  [fetched mint] is [None] when analyzeToken's promise is
    rejected; the analysed token goes with its discoveryDex. *)
Definition analyzeEntry (fetched : string -> option (Fetched T))
    (entry : string * MintInfo T) : option (Metrics T * string) :=
  match fetched (fst entry) with
  | None => None
  | Some f =>
      Some (analyzeToken (f_dateNow f) (fst entry) (createdAt (snd entry))
              (f_holders f) (f_safety f) (f_quote f) (f_transactions f),
            mi_dex (snd entry))
  end.

Fixpoint analyzeLoop (fuel : nat) (fetched : string -> option (Fetched T))
    (entries : MintMap) (limit : Z) (analyzed : list (Metrics T * string))
    : list (Metrics T * string) :=
  match fuel with
  | O => analyzed
  | S fuel =>
      match entries with
      | [] => analyzed
      | _ :: _ =>
          if (Z.of_nat (length analyzed) <? limit * 2)%Z then
            let batch := take 5 entries in
            let results := analyzeEntry fetched <$> batch in
            analyzeLoop fuel fetched (drop 5 entries) limit
              (analyzed ++ omap (fun r => r) results)
          else analyzed
      end
  end.

(* (a, b) => b.score - a.score; a comparison that is NaN counts as 0 *)
Definition byScoreDesc (a b : Metrics T * string) : T :=
  match score (fst a), score (fst b) with
  | Some x, Some y => y - x
  | _, _ => lit 0
  end.

(* l.slice(0, limit) *)
Definition sliceTo {A} (limit : Z) (l : list A) : list A :=
  if (0 <=? limit)%Z then take (Z.to_nat limit) l
  else take (length l - Z.to_nat (- limit)) l.

Definition rankedToken (i : nat) (t : Metrics T * string) : RankedToken T :=
  let m := fst t in
  {| rank := i + 1;
     rt_mint := mint m;
     rt_score := (fun s => round (s * lit 1000) / lit 1000) <$> score m;
     breakdown :=
       {| b_liquidity := round (liquidityScore m * lit 100) / lit 100;
          b_volume := round (volumeScore m * lit 100) / lit 100;
          b_holders := round (holdersScore m * lit 100) / lit 100;
          b_safety := round (safetyScore m * lit 100) / lit 100;
          b_age := round (ageScore m * lit 100) / lit 100 |};
     rt_holderCount := holderCount m;
     rt_txCount24h := txCount24h m;
     rt_riskCount := riskCount m;
     rt_priceImpactPct := priceImpactPct m;
     rt_topHolderPct := topHolderPct m;
     discoveryDex := snd t |}.

(** [heliusKey] is process.env.HELIUS_API_KEY, which requireEnv wants set
    and not empty, and [recentSigs] is the answer of getSolNewPools. *)
Definition scanNewTokens (heliusKey : option string) (limit : Z)
    (recentSigs : list (PoolSignature T))
    (getParsedTransaction : string -> option (ParsedTransaction T))
    (fetched : string -> option (Fetched T)) : ScanOutcome T :=
  if bool_decide (heliusKey = None \/ heliusKey = Some "") then Exited
  else
    (* Step 1: Discover recent pool creations (over-discover 3x) *)
    let discoveryLimit := (limit * 3)%Z in
    if (length recentSigs =? 0)%nat then NoRecentPools
    else
      (* Step 2: Extract token mints from pool creation transactions *)
      let mintMap := extractMintsFromSignatures getParsedTransaction recentSigs discoveryLimit in
      if (length mintMap =? 0)%nat then NoMintsExtracted
      else
        (* Step 3: Analyze tokens in batches of 5 *)
        let analyzed := analyzeLoop (length mintMap) fetched mintMap limit [] in
        (* Step 4: Filter *)
        let filtered := List.filter (fun t => passesFilters (fst t)) analyzed in
        (* Step 5: Rank by score descending *)
        let filtered := sortBy byScoreDesc filtered in
        let tokens := imap rankedToken (sliceTo limit filtered) in
        Report {| tokens := tokens;
                  totalDiscovered := length mintMap;
                  totalAnalyzed := length analyzed;
                  totalPassedFilters := length filtered;
                  returned := length tokens |}.

End ScanPipeline.

(** Both tokens are scored, and the first scores at least as high. *)
Definition scoreDesc (a b : Metrics R * string) : Prop :=
  exists x y : R, score (fst a) = Some x /\ score (fst b) = Some y /\ (y <= x)%R.

(** The same on the scores the report shows. *)
Definition shownScoreDesc (a b : RankedToken R) : Prop :=
  exists x y : R, rt_score a = Some x /\ rt_score b = Some y /\ (y <= x)%R.

(** ** bags/lib/helius.mjs, the holders of a token *)

(** An entry of [token_accounts]; [ta_amount] is [Number(a.amount || 0)]
    before the fallback. *)
Record TokenAccount (T : Type) := {
  ta_amount : option T;
  ta_owner : option string;
  ta_address : option string
}.
Arguments ta_amount {T} _.
Arguments ta_owner {T} _.
Arguments ta_address {T} _.

(** The answer of the getTokenAccounts call. *)
Record TokenAccounts (T : Type) := {
  token_accounts : option (list (TokenAccount T));
  ta_total : option T
}.
Arguments token_accounts {T} _.
Arguments ta_total {T} _.

Record Holder (T : Type) := {
  h_rank : nat;
  h_owner : option string;
  h_account : option string;
  h_amount : T;
  pctOfVisible : T
}.
Arguments h_rank {T} _.
Arguments h_owner {T} _.
Arguments h_account {T} _.
Arguments h_amount {T} _.
Arguments pctOfVisible {T} _.

(** What getTokenHolders returns: the holders, and the two figures that
    analyzeToken reads (absent from the answer without accounts). *)
Record TokenHolders (T : Type) := {
  holders : list (Holder T);
  holdersInfo : HoldersInfo T
}.
Arguments holders {T} _.
Arguments holdersInfo {T} _.

Section Holders.
Context {T : Type} `{Number T} `{Rounding T}.
Local Open Scope js_scope.

(* Number(a.amount || 0) *)
Definition amountOf (a : TokenAccount T) : T := num_or (ta_amount a) (lit 0).

Definition byAmountDesc (a b : TokenAccount T) : T :=
  let aAmt := amountOf a in
  let bAmt := amountOf b in
  bAmt - aAmt.

Definition holder (totalVisible : T) (i : nat) (a : TokenAccount T) : Holder T :=
  let amount := amountOf a in
  let pct := if lit 0 <? totalVisible then (amount / totalVisible) * lit 100 else lit 0 in
  {| h_rank := i + 1;
     h_owner := ta_owner a;
     h_account := ta_address a;
     h_amount := amount;
     pctOfVisible := round (pct * lit 100) / lit 100 |}.

(** [result] is what dasPost resolved to, [None] for a falsy answer. *)
Definition getTokenHolders (result : option (TokenAccounts T)) (limit : Z)
    : TokenHolders T :=
  let none :=
    {| holders := [];
       holdersInfo := {| totalAccounts := None; top10ConcentrationPct := None |} |} in
  match result with
  | None => none
  | Some result =>
      match token_accounts result with
      | None => none
      | Some accounts =>
          (* Sort by amount descending *)
          let accounts := sortBy byAmountDesc accounts in
          (* Calculate total supply from visible accounts *)
          let totalVisible :=
            fold_left (fun sum a => sum + amountOf a) accounts (lit 0) in
          let holders := imap (holder totalVisible) (sliceTo limit accounts) in
          (* Top holder concentration *)
          let topN := take (Nat.min 10 (length holders)) holders in
          let topConcentration :=
            fold_left (fun sum h => sum + pctOfVisible h) topN (lit 0) in
          {| holders := holders;
             holdersInfo :=
               {| totalAccounts :=
                    Some (num_or (ta_total result) (of_Z (Z.of_nat (length accounts))));
                  top10ConcentrationPct :=
                    Some (round (topConcentration * lit 100) / lit 100) |} |}
      end
  end.

End Holders.

(** Holders in the order of their amounts, largest first. *)
Definition amountDesc (a b : Holder R) : Prop := (h_amount b <= h_amount a)%R.

(** ** moon/lib/helpers.mjs *)

(* args.indexOf(flag); -1 is None *)
Fixpoint indexOf (flag : string) (args : list string) : option nat :=
  match args with
  | [] => None
  | a :: rest =>
      if bool_decide (a = flag) then Some 0%nat
      else option_map S (indexOf flag rest)
  end.

(** [defaultVal] is a string or null. *)
Definition parseFlag (args : list string) (flag : string) (defaultVal : option string)
    : option string :=
  match indexOf flag args with
  | None => defaultVal
  | Some idx =>
      match args !! (idx + 1)%nat with
      | Some v => Some v
      | None => defaultVal
      end
  end.

Definition hasFlag (args : list string) (flag : string) : bool :=
  bool_decide (flag ∈ args).

(** A string whose characters are ASCII: each is one UTF-16 code unit, so
    [String.length] is the string's .length and [substring] cuts where
    .slice cuts. *)
Definition asciiOnly (s : string) : Prop :=
  Forall (fun c => (Ascii.nat_of_ascii c < 128)%nat) (list_ascii_of_string s).

(** [addr] is a string, or null or undefined.  The lengths and cuts are
    those of the source for a string that is [asciiOnly]. *)
Definition shortAddr (addr : option string) : string :=
  match addr with
  | None => "???"
  | Some addr =>
      if bool_decide (addr = "") then "???"
      else if (String.length addr <=? 12)%nat then addr
      else substring 0 6 addr +:+ "..." +:+ substring (String.length addr - 4) 4 addr
  end.
(** ** Reading the exact instance

    The boolean tests of [R_Number] decide the order of the reals. *)

Lemma Exact_ltb_spec (a b : R) : Exact.ltb a b = true <-> (a < b)%R.
Proof. unfold Exact.ltb. destruct (Rlt_dec a b); split; intros; try lra; discriminate. Qed.

Lemma Exact_leb_spec (a b : R) : Exact.leb a b = true <-> (a <= b)%R.
Proof. unfold Exact.leb. destruct (Rle_dec a b); split; intros; try lra; discriminate. Qed.

Lemma Exact_eqb_spec (a b : R) : Exact.eqb a b = true <-> a = b.
Proof. unfold Exact.eqb. destruct (Req_dec_T a b); split; intros; try lra; discriminate. Qed.

Lemma Exact_truthy_spec (x : R) : Exact.truthy x = true <-> x <> 0%R.
Proof.
  unfold Exact.truthy, Exact.eqb.
  destruct (Req_dec_T x 0); split; intros; simpl in *; try congruence; try discriminate.
Qed.

(** Unfold the interface at the exact instance, leaving the operations of
    [R] folded. *)
Ltac exact_ops :=
  cbv beta iota zeta delta
    [lit dec num_or of_Z add sub mul div neg abs min max ltb leb eqb truthy
     R_Number exp log10 R_Transcendental] in *.

(** Decide every order test in sight and discharge the impossible cases. *)
Ltac exact_tests :=
  unfold Exact.truthy, Exact.ltb, Exact.leb, Exact.eqb in *;
  repeat match goal with
  | |- context [Rlt_dec ?a ?b] => destruct (Rlt_dec a b)
  | |- context [Rle_dec ?a ?b] => destruct (Rle_dec a b)
  | |- context [Req_dec_T ?a ?b] => destruct (Req_dec_T a b)
  end;
  cbn [negb andb orb fst snd];
  try lra.

(** ** Reading the binary64 instance

    Math.max and Math.min on zeros and NaN, and decimal literals. *)

Example f64_max_min_zeros :
  PrimFloat.classify (F64.max (-0) 0) = PZero /\
  PrimFloat.classify (F64.max 0 (-0)) = PZero /\
  PrimFloat.classify (F64.min 0 (-0)) = NZero /\
  PrimFloat.classify (F64.min (-0) 0) = NZero /\
  PrimFloat.is_nan (F64.max PrimFloat.nan 1) = true /\
  PrimFloat.is_nan (F64.min 1 PrimFloat.nan) = true /\
  F64.max 3 7 = 7%float /\ F64.min 3 7 = 3%float.
Proof. vm_compute. repeat split; reflexivity. Qed.

Example f64_literals :
  dec 5 10 = 0.5%float /\ dec 25 100 = 0.25%float /\
  dec 20 100 = 0.2%float /\ dec 15 100 = 0.15%float /\
  lit (-1) = (-1)%float /\ lit 86400 = 86400%float.
Proof. vm_compute. repeat split; reflexivity. Qed.

(** ** Position sizing *)

(** Whatever the arithmetic: once the three guards pass and the stop-loss
    test fails, the sizing is the no-stop one.  This is the statement at
    the arithmetic the program runs as well as at the exact one. *)
Lemma calcPositionSize_fallback {T} `{Number T} (p r e : T) (stop : option T) :
  invalid p = false -> invalid r = false -> invalid e = false ->
  match stop with
  | Some s => truthy s && ltb (lit 0) s && ltb s e = false
  | None => True
  end ->
  calcPositionSize p r e stop =
    Value {| positionSize := mul p (div r (lit 100));
             tokensToBuy := div (mul p (div r (lit 100))) e;
             riskAmount := mul p (div r (lit 100));
             riskPct := r;
             pctOfPortfolio := mul (div (mul p (div r (lit 100))) p) (lit 100);
             entryPrice := e;
             stopLossPrice :=
               match stop with
               | Some s => if truthy s then Some s else None
               | None => None
               end |}.
Proof.
  intros Hp Hr He Hs. unfold calcPositionSize. rewrite Hp, Hr, He.
  destruct stop as [s|]; [rewrite Hs|]; reflexivity.
Qed.

Lemma invalid_exact (x : R) : (0 < x)%R -> invalid x = false.
Proof. intros Hx. unfold invalid. exact_ops. exact_tests. Qed.

(** *** Binary64 facts

    Read off the specification of the primitive comparisons. *)

Lemma f64_positive (x : float) :
  PrimFloat.ltb 0 x = true ->
  PrimFloat.eqb x 0 = false /\ PrimFloat.is_nan x = false /\ PrimFloat.leb x 0 = false.
Proof.
  unfold PrimFloat.is_nan.
  rewrite FloatAxioms.ltb_spec, !FloatAxioms.eqb_spec, FloatAxioms.leb_spec.
  change (Prim2SF 0) with (S754_zero false).
  unfold SFltb, SFeqb, SFleb.
  destruct (Prim2SF x) as [s|s| |s m e]; cbn; try discriminate.
  - destruct s; try discriminate. auto.
  - destruct s; try discriminate.
    rewrite Z.compare_refl, Pos.compare_cont_refl. auto.
Qed.

Lemma SFcompare_antisym (x y : spec_float) :
  SFcompare y x = option_map CompOpp (SFcompare x y).
Proof.
  destruct x as [sx|sx| |sx mx ex], y as [sy|sy| |sy my ey]; cbn;
    try reflexivity; try (destruct sx; reflexivity); try (destruct sy; reflexivity);
    try (destruct sx, sy; reflexivity).
  destruct sx, sy; cbn; try reflexivity;
    rewrite (Z.compare_antisym ex ey); destruct (ex ?= ey)%Z; cbn; try reflexivity.
  - change (PosDef.Pos.compare_cont Eq my mx) with (Pos.compare_cont (CompOpp Eq) my mx).
    rewrite <- Pos.compare_cont_antisym. reflexivity.
  - change (PosDef.Pos.compare_cont Eq my mx) with (Pos.compare_cont (CompOpp Eq) my mx).
    rewrite <- Pos.compare_cont_antisym. reflexivity.
Qed.

Lemma f64_not_nan (x : float) : PrimFloat.is_nan x = false -> Prim2SF x <> S754_nan.
Proof.
  unfold PrimFloat.is_nan. rewrite FloatAxioms.eqb_spec. intros Hx E.
  rewrite E in Hx. discriminate.
Qed.

Lemma f64_ltb_leb (a b : float) : PrimFloat.ltb a b = true -> PrimFloat.leb a b = true.
Proof.
  rewrite FloatAxioms.ltb_spec, FloatAxioms.leb_spec. unfold SFltb, SFleb.
  destruct (SFcompare _ _) as [[]|]; congruence.
Qed.

Lemma f64_not_ltb_leb (a b : float) :
  PrimFloat.is_nan a = false -> PrimFloat.is_nan b = false ->
  PrimFloat.ltb a b = false -> PrimFloat.leb b a = true.
Proof.
  intros Ha Hb. apply f64_not_nan in Ha, Hb.
  rewrite FloatAxioms.ltb_spec, FloatAxioms.leb_spec. unfold SFltb, SFleb.
  rewrite (SFcompare_antisym (Prim2SF a) (Prim2SF b)).
  destruct (SFcompare (Prim2SF a) (Prim2SF b)) as [[]|] eqn:E; cbn; try congruence.
  destruct (Prim2SF a) as [| | |], (Prim2SF b) as [| | |]; try congruence; discriminate.
Qed.

(** The clamp [Math.max(0, Math.min(1, y))] in binary64: NaN on NaN,
    otherwise between 0 and 1. *)
Lemma f64_clamp (y : float) :
  let c := F64.max 0 (F64.min 1 y) in
  (PrimFloat.is_nan y = true /\ PrimFloat.is_nan c = true) \/
  (PrimFloat.is_nan y = false /\ PrimFloat.leb 0 c = true /\ PrimFloat.leb c 1 = true).
Proof.
  cbv zeta. unfold F64.min.
  change (PrimFloat.is_nan 1) with false. change (F64.is_neg_zero 1) with false.
  cbn [orb].
  destruct (PrimFloat.is_nan y) eqn:Hn.
  { left. split; reflexivity. }
  right. split; [reflexivity|].
  destruct (PrimFloat.ltb 1 y) eqn:H1y.
  { split; reflexivity. }
  assert (Hy1 : PrimFloat.leb y 1 = true) by (apply f64_not_ltb_leb; auto).
  assert (Hc : F64.max 0 y = y /\ PrimFloat.ltb 0 y = true \/ F64.max 0 y = 0%float).
  { unfold F64.max. change (PrimFloat.is_nan 0) with false.
    change (F64.is_neg_zero 0) with false. rewrite Hn. cbn [orb].
    destruct (PrimFloat.ltb 0 y); [left; auto|].
    right. destruct (PrimFloat.ltb y 0); reflexivity. }
  assert (Hres : PrimFloat.leb 0 (F64.max 0 y) = true /\ PrimFloat.leb (F64.max 0 y) 1 = true).
  { destruct Hc as [[-> H0y] | ->].
    - split; [apply f64_ltb_leb, H0y | exact Hy1].
    - split; reflexivity. }
  destruct (PrimFloat.ltb y 1); exact Hres.
Qed.

Lemma invalid_f64 (x : float) : PrimFloat.ltb 0 x = true -> invalid x = false.
Proof.
  intros Hx. destruct (f64_positive x Hx) as (He & Hn & Hl).
  unfold invalid. cbn [truthy leb lit of_Z float_Number]. unfold F64.truthy.
  change (F64.of_Z 0) with 0%float. change PrimFloat.zero with 0%float.
  rewrite He, Hn, Hl. reflexivity.
Qed.

(** C10: with positive portfolio value, risk % and entry price, a stop-loss
    that is absent, not positive, or not below the entry price gives no
    error result but the no-stop sizing: positionSize = riskAmount =
    portfolioValue * riskPct / 100 and tokensToBuy = riskAmount / entryPrice.
    First in exact arithmetic, then in the program's. *)
Theorem calcPositionSize_invalid_stop_is_no_stop :
  (forall (portfolioValue riskPct entryPrice : R) (stopLossPrice : option R),
     (0 < portfolioValue)%R -> (0 < riskPct)%R -> (0 < entryPrice)%R ->
     match stopLossPrice with
     | Some stop => ~ (0 < stop < entryPrice)%R
     | None => True
     end ->
     exists ps,
       calcPositionSize portfolioValue riskPct entryPrice stopLossPrice = Value ps /\
       riskAmount ps = (portfolioValue * riskPct / 100)%R /\
       positionSize ps = riskAmount ps /\
       tokensToBuy ps = (riskAmount ps / entryPrice)%R) /\
  (forall (portfolioValue riskPct entryPrice : float) (stopLossPrice : option float),
     (0 <? portfolioValue)%float = true -> (0 <? riskPct)%float = true ->
     (0 <? entryPrice)%float = true ->
     match stopLossPrice with
     | Some stop => ((0 <? stop) && (stop <? entryPrice))%float = false
     | None => True
     end ->
     exists ps,
       calcPositionSize portfolioValue riskPct entryPrice stopLossPrice = Value ps /\
       riskAmount ps = (portfolioValue * (riskPct / 100))%float /\
       positionSize ps = riskAmount ps /\
       tokensToBuy ps = (riskAmount ps / entryPrice)%float).
Proof.
  split.
  - intros p r e stop Hp Hr He Hs. eexists. split.
    + apply calcPositionSize_fallback; try (apply invalid_exact; assumption).
      destruct stop as [s|]; [|exact I].
      exact_ops. exact_tests.
    + cbn [riskAmount positionSize tokensToBuy]. exact_ops.
      repeat split; try reflexivity. field.
  - intros p r e stop Hp Hr He Hs. eexists. split.
    + apply calcPositionSize_fallback; try (apply invalid_f64; assumption).
      destruct stop as [s|]; [|exact I].
      cbn [truthy ltb lit of_Z float_Number]. change (F64.of_Z 0) with 0%float.
      rewrite <- andb_assoc, Hs. apply andb_false_r.
    + cbn [riskAmount positionSize tokensToBuy]. repeat split.
Qed.

Lemma calcPositionSize_invalid_stop_is_no_stop_witness :
  (exists ps,
     calcPositionSize 10000%R 2%R 1%R (Some 1.5%R) = Value ps /\
     riskAmount ps = (10000 * 2 / 100)%R /\
     positionSize ps = riskAmount ps /\
     tokensToBuy ps = (riskAmount ps / 1)%R) /\
  (exists ps,
     calcPositionSize 10000%float 2%float 1%float (Some 1.5%float) = Value ps /\
     riskAmount ps = (10000 * (2 / 100))%float /\
     positionSize ps = riskAmount ps /\
     tokensToBuy ps = (riskAmount ps / 1)%float).
Proof.
  split.
  - apply (proj1 calcPositionSize_invalid_stop_is_no_stop 10000%R 2%R 1%R (Some 1.5%R)); lra.
  - apply (proj2 calcPositionSize_invalid_stop_is_no_stop
             10000%float 2%float 1%float (Some 1.5%float)); reflexivity.
Defined.

(** Two doubles that differ are different values. *)
Lemma float_neq (x y : float) : PrimFloat.eqb x y = false -> PrimFloat.eqb y y = true -> x <> y.
Proof. intros Hxy Hyy E. rewrite E in Hxy. congruence. Qed.

(** The documented example does not come out exact in the arithmetic the
    program runs: no result with tokensToBuy = 1000, positionSize = 1000
    and pctOfPortfolio = 10 is returned. *)
Lemma calcPositionSize_doc_example_inexact :
  ~ exists ps,
      calcPositionSize (T:=float) 10000%float 2%float 1%float (Some 0.8%float) = Value ps /\
      riskAmount ps = 200%float /\
      tokensToBuy ps = 1000%float /\
      positionSize ps = 1000%float /\
      pctOfPortfolio ps = 10%float.
Proof.
  intros (ps & Hps & _ & Htok & _).
  vm_compute in Hps. injection Hps as <-. cbn [tokensToBuy] in Htok.
  revert Htok. apply float_neq; vm_compute; reflexivity.
Qed.

(** C7 (as amended): calcPositionSize(10000, 2, 1.0, 0.8) has riskAmount
    exactly 200; since 1.0 - 0.8 is 0.19999999999999996 in binary64, the
    program returns tokensToBuy = positionSize = 1000.0000000000002 and
    pctOfPortfolio = 10.000000000000002; the values 1000, 1000 and 10 are
    those of exact arithmetic. *)
Theorem calcPositionSize_doc_example :
  calcPositionSize (T:=float) 10000%float 2%float 1%float (Some 0.8%float)
  = Value {| positionSize := 1000.0000000000002%float;
             tokensToBuy := 1000.0000000000002%float;
             riskAmount := 200%float;
             riskPct := 2%float;
             pctOfPortfolio := 10.000000000000002%float;
             entryPrice := 1%float;
             stopLossPrice := Some 0.8%float |}
  /\ (1%float - 0.8%float = 0.19999999999999996%float)%float
  /\ calcPositionSize (T:=R) 10000%R 2%R 1%R (Some (8 / 10)%R)
  = Value {| positionSize := 1000%R;
             tokensToBuy := 1000%R;
             riskAmount := 200%R;
             riskPct := 2%R;
             pctOfPortfolio := 10%R;
             entryPrice := 1%R;
             stopLossPrice := Some (8 / 10)%R |}.
Proof.
  split; [vm_compute; reflexivity|]. split; [vm_compute; reflexivity|].
  unfold calcPositionSize, invalid. exact_ops. exact_tests.
  f_equal. f_equal; lra.
Qed.

(** ** Kelly criterion *)

(** Whatever the arithmetic: past the two short-circuits the result is the
    capped and floored formula of the source. *)
Lemma calcKellyCriterion_formula {T} `{Number T} (winRate avgWin avgLoss : T) :
  eqb avgLoss (lit 0) = false -> leb winRate (lit 0) = false ->
  let R := div (abs avgWin) (abs avgLoss) in
  let raw := mul (sub winRate (div (sub (lit 1) winRate) R)) (lit 100) in
  let k := calcKellyCriterion winRate avgWin avgLoss in
  kellyPct k = max (min raw (lit 25)) (lit 0) /\
  halfKellyPct k = max (div (min raw (lit 25)) (lit 2)) (lit 0) /\
  winLossRatio k = Some R.
Proof.
  intros Hl Hw. cbv zeta. unfold calcKellyCriterion. rewrite Hl, Hw.
  repeat split.
Qed.

(** At avgWin = 0 the ratio R is 0 and the program divides by it: for a
    win rate below 1 the raw value is -Infinity, floored to 0. *)
Example calcKellyCriterion_zero_avgWin :
  let k := calcKellyCriterion (T:=float) 0.5%float 0%float 10%float in
  kellyPct k = 0%float /\ halfKellyPct k = 0%float.
Proof. vm_compute. split; reflexivity. Qed.

(** C5: calcKellyCriterion(0.6, 20, 10) has raw Kelly value 40, returned as
    kellyPct = 25 with halfKellyPct = 12.5.  In any arithmetic, once avgLoss
    is not 0 and winRate is above 0, kellyPct is
    (winRate - (1 - winRate)/R) * 100 with R = |avgWin| / |avgLoss|, capped
    at 25 and floored at 0, and halfKellyPct is the capped value halved and
    floored at 0; in exact arithmetic, where R has to be non-zero to divide,
    that is kellyPct / 2. *)
Theorem calcKellyCriterion_capped_floored :
  (let k := calcKellyCriterion (T:=float) 0.6%float 20%float 10%float in
   ((0.6 - (1 - 0.6) / (20 / 10)) * 100 = 40)%float /\
   kellyPct k = 25%float /\ halfKellyPct k = 12.5%float) /\
  (let k := calcKellyCriterion (T:=R) (6 / 10)%R 20%R 10%R in
   kellyPct k = 25%R /\ halfKellyPct k = 12.5%R) /\
  (forall (T : Type) (N : Number T) (winRate avgWin avgLoss : T),
     eqb avgLoss (lit 0) = false -> leb winRate (lit 0) = false ->
     let R := div (abs avgWin) (abs avgLoss) in
     let raw := mul (sub winRate (div (sub (lit 1) winRate) R)) (lit 100) in
     let k := calcKellyCriterion winRate avgWin avgLoss in
     kellyPct k = max (min raw (lit 25)) (lit 0) /\
     halfKellyPct k = max (div (min raw (lit 25)) (lit 2)) (lit 0)) /\
  (forall winRate avgWin avgLoss : R,
     avgLoss <> 0%R -> (0 < winRate)%R -> avgWin <> 0%R ->
     let R := (Rabs avgWin / Rabs avgLoss)%R in
     let raw := ((winRate - (1 - winRate) / R) * 100)%R in
     let k := calcKellyCriterion winRate avgWin avgLoss in
     kellyPct k = Rmax (Rmin raw 25) 0 /\
     halfKellyPct k = (kellyPct k / 2)%R).
Proof.
  split; [vm_compute; repeat split; reflexivity|].
  assert (Hgen : forall winRate avgWin avgLoss : R,
     avgLoss <> 0%R -> (0 < winRate)%R ->
     let R := (Rabs avgWin / Rabs avgLoss)%R in
     let raw := ((winRate - (1 - winRate) / R) * 100)%R in
     let k := calcKellyCriterion winRate avgWin avgLoss in
     kellyPct k = Rmax (Rmin raw 25) 0 /\
     halfKellyPct k = (kellyPct k / 2)%R).
  { intros w aw al Hal Hw. cbv zeta.
    destruct (calcKellyCriterion_formula w aw al) as (Hk & Hh & _).
    - exact_ops. exact_tests.
    - exact_ops. exact_tests.
    - rewrite Hk, Hh. exact_ops. split; [reflexivity|].
      set (x := Rmin _ 25).
      unfold Rmax. destruct (Rle_dec (x / 2) 0), (Rle_dec x 0); lra. }
  split; [|split].
  - destruct (Hgen (6 / 10)%R 20%R 10%R) as [Hk Hh]; try lra.
    cbv zeta in *. rewrite Hh, Hk.
    replace (Rabs 20) with 20%R by (rewrite Rabs_right; lra).
    replace (Rabs 10) with 10%R by (rewrite Rabs_right; lra).
    replace ((6 / 10 - (1 - 6 / 10) / (20 / 10)) * 100)%R with 40%R by field.
    unfold Rmin, Rmax.
    destruct (Rle_dec 40 25), (Rle_dec 25 0); lra.
  - intros T N w aw al Hal Hw.
    destruct (calcKellyCriterion_formula w aw al Hal Hw) as (Hk & Hh & _).
    split; assumption.
  - intros w aw al Hal Hw _. apply Hgen; assumption.
Qed.

Lemma calcKellyCriterion_capped_floored_witness :
  (let R := (Rabs 20 / Rabs 10)%R in
   let raw := ((6 / 10 - (1 - 6 / 10) / R) * 100)%R in
   let k := calcKellyCriterion (6 / 10)%R 20%R 10%R in
   kellyPct k = Rmax (Rmin raw 25) 0 /\ halfKellyPct k = (kellyPct k / 2)%R) /\
  (let R := (PrimFloat.abs 3 / PrimFloat.abs 4)%float in
   let raw := ((0.5 - (1 - 0.5) / R) * 100)%float in
   let k := calcKellyCriterion 0.5%float 3%float 4%float in
   kellyPct k = F64.max (F64.min raw 25) 0 /\
   halfKellyPct k = F64.max (F64.min raw 25 / 2)%float 0).
Proof.
  split.
  - apply (proj2 (proj2 (proj2 calcKellyCriterion_capped_floored))); lra.
  - apply (proj1 (proj2 (proj2 calcKellyCriterion_capped_floored))
             float float_Number 0.5%float 3%float 4%float); reflexivity.
Defined.

(** ** Journal analysis *)

Section JournalFacts.
Context {T : Type} `{Number T}.

Lemma closed_app (l1 l2 : list (JournalEntry T)) :
  List.filter isClosed (l1 ++ l2) = List.filter isClosed l1 ++ List.filter isClosed l2.
Proof. apply List.filter_app. Qed.

Lemma walkStreaks_app (l1 l2 : list (JournalEntry T)) :
  walkStreaks (l1 ++ l2) = fold_left streakStep l2 (walkStreaks l1).
Proof. unfold walkStreaks. apply fold_left_app. Qed.

(** An entry that is not a win turns the running streak negative: it
    starts a losing streak at -1 or makes the current one longer; the best
    winning streak is untouched. *)
Lemma streakStep_not_win (s : Streaks) (e : JournalEntry T) :
  isWin e = false ->
  let s' := streakStep s e in
  (current s' < 0)%Z /\
  current s' = (if (current s <? 0)%Z then current s - 1 else -1)%Z /\
  bestWin s' = bestWin s /\
  worstLose s' = Z.max (worstLose s) (- current s')%Z.
Proof.
  intros Hw. cbv zeta. unfold streakStep. rewrite Hw. cbn [current bestWin worstLose].
  destruct (Z.ltb_spec (current s) 0); repeat split; try lia.
Qed.

End JournalFacts.

Lemma length_filter_le {A} (f : A -> bool) (l : list A) :
  (length (List.filter f l) <= length l)%nat.
Proof. induction l as [|x l IH]; simpl; [lia|]. destruct (f x); simpl; lia. Qed.

(** In exact arithmetic every closed entry is a win or else a loss. *)
Lemma isLoss_exact (e : JournalEntry R) : isClosed e = true -> isLoss e = negb (isWin e).
Proof.
  unfold isClosed, isLoss, isWin. intros Hc.
  apply andb_true_iff in Hc as [_ Hp]. apply bool_decide_eq_true in Hp as [p Hp].
  rewrite Hp. exact_ops. exact_tests.
Qed.

Lemma wins_plus_losses (closed : list (JournalEntry R)) :
  Forall (fun e => isClosed e = true) closed ->
  (length (List.filter isWin closed) + length (List.filter isLoss closed))%nat = length closed.
Proof.
  induction 1 as [|e l He _ IH]; [reflexivity|].
  simpl. rewrite (isLoss_exact e He). destruct (isWin e); simpl; lia.
Qed.

Lemma closed_Forall {T} `{Number T} (entries : list (JournalEntry T)) :
  Forall (fun e => isClosed e = true) (List.filter isClosed entries).
Proof. apply List.Forall_forall. intros e He. apply List.filter_In in He. tauto. Qed.

(** What an entry that is closed, not a win and a loss does to the
    analysis, in any arithmetic: compared with the journal without it, one
    more trade, the same wins, one more loss; the same wins under avgWin;
    a losing turn in the streak walk. *)
Lemma analyzeJournal_extra_loss {T} `{Number T}
    (before after : list (JournalEntry T)) (e0 : JournalEntry T) :
  isClosed e0 = true -> isWin e0 = false -> isLoss e0 = true ->
  exists a,
    analyzeJournal (before ++ e0 :: after) = Analyzed a /\
    match analyzeJournal (before ++ after) with
    | NoClosedTrades =>
        totalTrades a = 1%nat /\ wins a = 0%nat /\ losses a = 1%nat /\
        winRate a = div (count 0) (count 1)
    | Analyzed a' =>
        totalTrades a = S (totalTrades a') /\
        wins a = wins a' /\
        losses a = S (losses a') /\
        winRate a = div (count (wins a')) (count (S (totalTrades a')))
    end /\
    List.filter isWin (List.filter isClosed (before ++ e0 :: after))
      = List.filter isWin (List.filter isClosed (before ++ after)) /\
    avgWinPct (List.filter isClosed (before ++ e0 :: after))
      = avgWinPct (List.filter isClosed (before ++ after)) /\
    let s := walkStreaks (List.filter isClosed before) in
    streaks a = fold_left streakStep (List.filter isClosed after) (streakStep s e0) /\
    (current (streakStep s e0) < 0)%Z /\
    current (streakStep s e0) = (if (current s <? 0)%Z then current s - 1 else -1)%Z /\
    bestWin (streakStep s e0) = bestWin s.
Proof.
  intros Hc Hw Hl.
  set (c1 := List.filter isClosed before).
  set (c2 := List.filter isClosed after).
  assert (Hcl : List.filter isClosed (before ++ e0 :: after) = c1 ++ e0 :: c2).
  { rewrite closed_app. simpl. rewrite Hc. reflexivity. }
  assert (Hcl' : List.filter isClosed (before ++ after) = c1 ++ c2) by apply closed_app.
  assert (Hwins : List.filter isWin (c1 ++ e0 :: c2) = List.filter isWin (c1 ++ c2)).
  { rewrite !List.filter_app. simpl. rewrite Hw. reflexivity. }
  assert (Hlosses : length (List.filter isLoss (c1 ++ e0 :: c2))
                    = S (length (List.filter isLoss (c1 ++ c2)))).
  { rewrite !List.filter_app. simpl. rewrite Hl. rewrite !length_app. simpl. lia. }
  assert (Hlen : length (c1 ++ e0 :: c2) = S (length (c1 ++ c2))).
  { rewrite !length_app. simpl. lia. }
  unfold analyzeJournal at 1. rewrite Hcl.
  destruct (Nat.eqb_spec (length (c1 ++ e0 :: c2)) 0) as [E|_]; [rewrite Hlen in E; discriminate|].
  eexists. split; [reflexivity|].
  cbn [wins losses totalTrades winRate streaks].
  rewrite Hwins, Hlosses, Hlen.
  split.
  { unfold analyzeJournal. rewrite Hcl'.
    destruct (Nat.eqb_spec (length (c1 ++ c2)) 0) as [E|NE].
    - pose proof (length_filter_le isWin (c1 ++ c2)) as Hle.
      pose proof (length_filter_le isLoss (c1 ++ c2)) as Hle'.
      assert (length (List.filter isWin (c1 ++ c2)) = 0%nat) as -> by lia.
      assert (length (List.filter isLoss (c1 ++ c2)) = 0%nat) as -> by lia.
      rewrite E. repeat split.
    - cbn [wins losses totalTrades winRate]. repeat split. }
  rewrite ?Hcl, ?Hcl'.
  split; [rewrite ?Hwins; reflexivity|].
  split; [unfold avgWinPct; rewrite ?Hwins; reflexivity|].
  cbv zeta. split.
  { unfold walkStreaks. rewrite fold_left_app. reflexivity. }
  pose proof (streakStep_not_win (walkStreaks c1) e0 Hw) as Hs. cbv zeta in Hs. tauto.
Qed.

Lemma winRate_drops (w n : nat) :
  (w <= n)%nat -> (0 < n)%nat ->
  (INR w / INR (S n) <= INR w / INR n)%R /\
  ((0 < w)%nat -> (INR w / INR (S n) < INR w / INR n)%R).
Proof.
  intros Hwn Hn0.
  assert (Hn : (0 < INR n)%R) by (apply lt_0_INR; lia).
  assert (Hw0 : (0 <= INR w)%R) by apply pos_INR.
  rewrite S_INR. split.
  - unfold Rdiv. apply Rmult_le_compat_l; [lra|].
    apply Rinv_le_contravar; lra.
  - intros Hpos. assert (0 < INR w)%R by (apply lt_0_INR; lia).
    unfold Rdiv. apply Rmult_lt_compat_l; [lra|].
    apply Rinv_lt_contravar; nra.
Qed.

(** C9: a closed entry whose pnlPct is exactly 0 is a loss.  Compared with
    the same journal without it, the analysis has one more trade and one
    more loss and the same wins, so the win rate wins/(trades+1) is no
    higher (lower as soon as there is a win); the wins that avgWin averages
    are the same; every closed trade is one of win or loss; and in the
    streak walk the entry starts or extends a losing streak.  The counts and
    the streak are the same in the program's arithmetic, for +0 and -0. *)
Theorem analyzeJournal_breakeven_is_loss :
  (forall (before after : list (JournalEntry R)) (e0 : JournalEntry R),
     status e0 = "closed" -> pnlPct e0 = Some 0%R ->
     isWin e0 = false /\ isLoss e0 = true /\
     exists a,
       analyzeJournal (before ++ e0 :: after) = Analyzed a /\
       (wins a + losses a)%nat = totalTrades a /\
       match analyzeJournal (before ++ after) with
       | NoClosedTrades =>
           totalTrades a = 1%nat /\ wins a = 0%nat /\ losses a = 1%nat /\ winRate a = 0%R
       | Analyzed a' =>
           totalTrades a = S (totalTrades a') /\
           wins a = wins a' /\
           losses a = S (losses a') /\
           winRate a = (INR (wins a') / INR (S (totalTrades a')))%R /\
           (winRate a <= winRate a')%R /\
           ((0 < wins a')%nat -> (winRate a < winRate a')%R)
       end /\
       List.filter isWin (List.filter isClosed (before ++ e0 :: after))
         = List.filter isWin (List.filter isClosed (before ++ after)) /\
       avgWinPct (List.filter isClosed (before ++ e0 :: after))
         = avgWinPct (List.filter isClosed (before ++ after)) /\
       let s := walkStreaks (List.filter isClosed before) in
       streaks a = fold_left streakStep (List.filter isClosed after) (streakStep s e0) /\
       (current (streakStep s e0) < 0)%Z /\
       current (streakStep s e0) = (if (current s <? 0)%Z then current s - 1 else -1)%Z /\
       bestWin (streakStep s e0) = bestWin s) /\
  (forall (before after : list (JournalEntry float)) (e0 : JournalEntry float),
     status e0 = "closed" -> pnlPct e0 = Some 0%float \/ pnlPct e0 = Some (-0)%float ->
     isWin e0 = false /\ isLoss e0 = true /\
     exists a,
       analyzeJournal (before ++ e0 :: after) = Analyzed a /\
       match analyzeJournal (before ++ after) with
       | NoClosedTrades =>
           totalTrades a = 1%nat /\ wins a = 0%nat /\ losses a = 1%nat /\
           winRate a = 0%float
       | Analyzed a' =>
           totalTrades a = S (totalTrades a') /\
           wins a = wins a' /\
           losses a = S (losses a') /\
           winRate a = (count (wins a') / count (S (totalTrades a')))%float
       end /\
       let s := walkStreaks (List.filter isClosed before) in
       streaks a = fold_left streakStep (List.filter isClosed after) (streakStep s e0) /\
       (current (streakStep s e0) < 0)%Z /\
       bestWin (streakStep s e0) = bestWin s).
Proof.
  split.
  - intros before after e0 Hst Hp.
    assert (Hw : isWin e0 = false).
    { unfold isWin. rewrite Hp. exact_ops. exact_tests. }
    assert (Hl : isLoss e0 = true).
    { unfold isLoss. rewrite Hp. exact_ops. exact_tests. }
    assert (Hc : isClosed e0 = true).
    { unfold isClosed. rewrite Hst, Hp. apply andb_true_iff.
      split; apply bool_decide_eq_true; eauto. }
    split; [exact Hw|]. split; [exact Hl|].
    destruct (analyzeJournal_extra_loss before after e0 Hc Hw Hl)
      as (a & Ha & Hcmp & Hwins & Havg & Hstreak).
    exists a. split; [exact Ha|]. split.
    { unfold analyzeJournal in Ha.
      destruct (length (List.filter isClosed (before ++ e0 :: after)) =? 0)%nat;
        [discriminate|].
      injection Ha as <-. cbn [wins losses totalTrades].
      apply wins_plus_losses, closed_Forall. }
    split; [|tauto].
    unfold analyzeJournal in Hcmp |- *.
    destruct (Nat.eqb_spec (length (List.filter isClosed (before ++ after))) 0) as [E|NE].
    + destruct Hcmp as (? & ? & ? & Hr). repeat split; try assumption.
      rewrite Hr. unfold count. exact_ops.
      change (Z.of_nat 0) with 0%Z. lra.
    + cbn [wins losses totalTrades winRate] in *.
      destruct Hcmp as (Ht & Hw' & Hl' & Hr).
      repeat split; try assumption.
      * rewrite Hr. unfold count. exact_ops. rewrite <- !INR_IZR_INZ. reflexivity.
      * rewrite Hr. unfold count. exact_ops. rewrite <- !INR_IZR_INZ.
        apply winRate_drops; [apply length_filter_le | lia].
      * rewrite Hr. unfold count. exact_ops. rewrite <- !INR_IZR_INZ.
        apply winRate_drops; [apply length_filter_le | lia].
  - intros before after e0 Hst Hp.
    assert (Hw : isWin e0 = false).
    { unfold isWin. destruct Hp as [-> | ->]; reflexivity. }
    assert (Hl : isLoss e0 = true).
    { unfold isLoss. destruct Hp as [-> | ->]; reflexivity. }
    assert (Hc : isClosed e0 = true).
    { unfold isClosed. rewrite Hst. apply andb_true_iff.
      split; apply bool_decide_eq_true; [reflexivity|].
      destruct Hp as [-> | ->]; eauto. }
    split; [exact Hw|]. split; [exact Hl|].
    destruct (analyzeJournal_extra_loss before after e0 Hc Hw Hl)
      as (a & Ha & Hcmp & _ & _ & Hstreak).
    exists a. split; [exact Ha|]. split; [|cbv zeta in *; tauto].
    destruct (analyzeJournal (before ++ after)); [|exact Hcmp].
    destruct Hcmp as (? & ? & ? & Hr). repeat split; assumption.
Qed.

Lemma analyzeJournal_breakeven_is_loss_witness :
  let before := [ {| status := "closed"; pnl := Some 5%R; pnlPct := Some 10%R;
                     chain := Some "sol"; narratives := None |} ] in
  let after := @nil (JournalEntry R) in
  let e0 := {| status := "closed"; pnl := Some 0%R; pnlPct := Some 0%R;
               chain := Some "sol"; narratives := None |} in
  isWin e0 = false /\ isLoss e0 = true /\
  exists a,
    analyzeJournal (before ++ e0 :: after) = Analyzed a /\
    (wins a + losses a)%nat = totalTrades a /\
    match analyzeJournal (before ++ after) with
    | NoClosedTrades =>
        totalTrades a = 1%nat /\ wins a = 0%nat /\ losses a = 1%nat /\ winRate a = 0%R
    | Analyzed a' =>
        totalTrades a = S (totalTrades a') /\
        wins a = wins a' /\
        losses a = S (losses a') /\
        winRate a = (INR (wins a') / INR (S (totalTrades a')))%R /\
        (winRate a <= winRate a')%R /\
        ((0 < wins a')%nat -> (winRate a < winRate a')%R)
    end /\
    List.filter isWin (List.filter isClosed (before ++ e0 :: after))
      = List.filter isWin (List.filter isClosed (before ++ after)) /\
    avgWinPct (List.filter isClosed (before ++ e0 :: after))
      = avgWinPct (List.filter isClosed (before ++ after)) /\
    let s := walkStreaks (List.filter isClosed before) in
    streaks a = fold_left streakStep (List.filter isClosed after) (streakStep s e0) /\
    (current (streakStep s e0) < 0)%Z /\
    current (streakStep s e0) = (if (current s <? 0)%Z then current s - 1 else -1)%Z /\
    bestWin (streakStep s e0) = bestWin s.
Proof.
  intros before after e0.
  apply (proj1 analyzeJournal_breakeven_is_loss before after e0); reflexivity.
Defined.

(** The analyzer on three wins and two losses, in the program's arithmetic. *)
Example analyzeJournal_three_wins_two_losses :
  let trade (pl pct : float) : JournalEntry float :=
    {| status := "closed"; pnl := Some pl; pnlPct := Some pct;
       chain := Some "sol"; narratives := Some ["ai"] |} in
  let open_trade : JournalEntry float :=
    {| status := "open"; pnl := None; pnlPct := None;
       chain := Some "sol"; narratives := None |} in
  match analyzeJournal
          [trade 1 10; trade (-1) (-5); open_trade; trade 2 20; trade 1 5; trade (-3) (-15)]%float with
  | Analyzed a =>
      totalTrades a = 5%nat /\ wins a = 3%nat /\ losses a = 2%nat /\
      winRate a = 0.6%float /\ avgPnlPct a = 3%float /\
      profitFactor a = Finite 1%float /\
      streaks a = {| current := -1; bestWin := 2; worstLose := 1 |}
  | NoClosedTrades => False
  end.
Proof. vm_compute. repeat split; reflexivity. Qed.

(** ** Token scoring *)

(** The clamp [Math.max(0, Math.min(1, y))]. *)
Lemma clamp_unit (y : R) : (0 <= Rmax 0 (Rmin 1 y) <= 1)%R.
Proof.
  unfold Rmax, Rmin.
  destruct (Rle_dec 1 y); destruct (Rle_dec 0 _); lra.
Qed.

Lemma exp_le_1 (x : R) : (x <= 0)%R -> (Rtrigo_def.exp x <= 1)%R.
Proof.
  intros [Hx| ->].
  - rewrite <- exp_0. left. apply exp_increasing. exact Hx.
  - rewrite exp_0. lra.
Qed.

(** Bounds on the exponential by sixteen-fold squaring of
    [1 + x/16 <= exp (x/16)]. *)
Lemma exp_double (x : R) : Rtrigo_def.exp (2 * x) = (Rtrigo_def.exp x * Rtrigo_def.exp x)%R.
Proof. rewrite <- exp_plus. f_equal. lra. Qed.

Lemma exp_pow16 (x : R) : Rtrigo_def.exp x = (Rtrigo_def.exp (x / 16) ^ 16)%R.
Proof.
  replace x with (2 * (2 * (2 * (2 * (x / 16)))))%R at 1 by field.
  rewrite !exp_double. ring.
Qed.

Lemma exp_lower16 (x : R) :
  (-16 <= x)%R -> ((1 + x / 16) ^ 16 <= Rtrigo_def.exp x)%R.
Proof.
  intros Hx. rewrite (exp_pow16 x).
  apply pow_incr. split; [lra|]. apply exp_ineq1_le.
Qed.

Lemma exp_upper16 (x : R) :
  (0 <= x)%R -> (Rtrigo_def.exp (- x) <= / (1 + x / 16) ^ 16)%R.
Proof.
  intros Hx. rewrite exp_Ropp.
  apply Rinv_le_contravar.
  - apply pow_lt. lra.
  - apply exp_lower16. lra.
Qed.

(** The decay after 100000 seconds: about 0.314. *)
Lemma exp_100000_bounds :
  (3 / 10 < Rtrigo_def.exp (- (100000 / 86400)) < 33 / 100)%R.
Proof.
  split.
  - eapply Rlt_le_trans; [|apply exp_lower16; lra].
    replace (1 + - (100000 / 86400) / 16)%R with (1603 / 1728)%R by field.
    lra.
  - eapply Rle_lt_trans; [apply exp_upper16; lra|].
    replace (1 + 100000 / 86400 / 16)%R with (1853 / 1728)%R by field.
    lra.
Qed.

(** The score of a token whose creation time is known. *)
Lemma scoreAge_known (dateNow created : R) :
  created <> 0%R ->
  scoreAge dateNow (Some created)
  = Rtrigo_def.exp (- Rmax 0 (dateNow / 1000 - created) / 86400).
Proof.
  intros Hc. unfold scoreAge. exact_ops.
  apply Exact_truthy_spec in Hc. rewrite Hc. reflexivity.
Qed.

Lemma scoreAge_unknown (dateNow : R) (created : option R) :
  created = None \/ created = Some 0%R ->
  scoreAge dateNow created = (5 / 10)%R.
Proof.
  intros [-> | ->]; unfold scoreAge; exact_ops; [reflexivity|].
  exact_tests.
Qed.

(** A token created 100000 seconds ago does not score below 0.01. *)
Lemma scoreAge_100000s_not_below_1pct :
  ~ (scoreAge 1700000000000%R (Some (1700000000000 / 1000 - 100000)%R) < 1 / 100)%R.
Proof.
  rewrite scoreAge_known by lra.
  replace (Rmax 0 (1700000000000 / 1000 - (1700000000000 / 1000 - 100000)))
    with 100000%R by (unfold Rmax; destruct (Rle_dec _ _); lra).
  replace (- (100000) / 86400)%R with (- (100000 / 86400))%R by field.
  pose proof exp_100000_bounds. lra.
Qed.

(** C1 (as amended): scoreAge is exp(-ageSeconds/86400) of the age since
    creation and 0.5 when the creation time is unknown; at a creation time
    equal to the current time it is 1; at a creation time 100000 seconds in
    the past it is exp(-100000/86400), which lies between 0.30 and 0.33. *)
Theorem scoreAge_fresh_and_100000s (dateNow : R) :
  scoreAge dateNow None = (5 / 10)%R /\
  (dateNow / 1000 <> 0 ->
   scoreAge dateNow (Some (dateNow / 1000)) = 1)%R /\
  (dateNow / 1000 - 100000 <> 0 ->
   scoreAge dateNow (Some (dateNow / 1000 - 100000))
     = Rtrigo_def.exp (- (100000 / 86400)) /\
   3 / 10 < scoreAge dateNow (Some (dateNow / 1000 - 100000)) < 33 / 100)%R.
Proof.
  split; [apply scoreAge_unknown; auto|]. split.
  - intros Hc. rewrite scoreAge_known by exact Hc.
    replace (Rmax 0 (dateNow / 1000 - dateNow / 1000)) with 0%R
      by (unfold Rmax; destruct (Rle_dec _ _); lra).
    replace (- 0 / 86400)%R with 0%R by field. apply exp_0.
  - intros Hc.
    assert (E : scoreAge dateNow (Some (dateNow / 1000 - 100000)%R)
                = Rtrigo_def.exp (- (100000 / 86400))).
    { rewrite scoreAge_known by exact Hc.
      replace (Rmax 0 (dateNow / 1000 - (dateNow / 1000 - 100000))) with 100000%R
        by (unfold Rmax; destruct (Rle_dec _ _); lra).
      f_equal. field. }
    split; [exact E|]. rewrite E. apply exp_100000_bounds.
Qed.

Lemma scoreAge_fresh_and_100000s_witness :
  scoreAge 1700000000000%R None = (5 / 10)%R /\
  scoreAge 1700000000000%R (Some (1700000000000 / 1000)%R) = 1%R /\
  scoreAge 1700000000000%R (Some (1700000000000 / 1000 - 100000)%R)
    = Rtrigo_def.exp (- (100000 / 86400)) /\
  (3 / 10 < scoreAge 1700000000000%R (Some (1700000000000 / 1000 - 100000)%R) < 33 / 100)%R.
Proof.
  destruct (scoreAge_fresh_and_100000s 1700000000000%R) as (H0 & H1 & H2).
  split; [exact H0|]. split; [apply H1; lra|]. apply H2; lra.
Defined.

(** A token has to be about five days old before its age score is under
    0.01: six days are enough. *)
Lemma scoreAge_six_days (dateNow created : R) :
  created <> 0%R -> (518400 <= dateNow / 1000 - created)%R ->
  (scoreAge dateNow (Some created) < 1 / 100)%R.
Proof.
  intros Hc Hage. rewrite scoreAge_known by exact Hc.
  replace (Rmax 0 (dateNow / 1000 - created)) with (dateNow / 1000 - created)%R
    by (unfold Rmax; destruct (Rle_dec _ _); lra).
  apply Rle_lt_trans with (Rtrigo_def.exp (Ropp 6)).
  - destruct Hage as [Hlt | Heq].
    + left. apply exp_increasing. lra.
    + right. f_equal. rewrite <- Heq. field.
  - eapply Rle_lt_trans; [apply exp_upper16; lra|].
    replace (1 + 6 / 16)%R with (11 / 8)%R by field. lra.
Qed.

Lemma f64_clamp_unit_or_nan (y : float) : unit_or_nan (F64.max 0 (F64.min 1 y)).
Proof.
  destruct (f64_clamp y) as [[_ Hc] | [_ Hc]]; [left | right]; exact Hc.
Qed.

(** C6: on every real input each of the five sub-scores lies in [0, 1].
    The three of them that the program's arithmetic can be run on are, in
    that arithmetic, between 0 and 1 on every input that is not NaN. *)
Theorem scores_in_unit_interval :
  (forall priceImpactPct : option R, 0 <= scoreLiquidity priceImpactPct <= 1)%R /\
  (forall txCount24h : R, 0 <= scoreVolume txCount24h <= 1)%R /\
  (forall holderCount : R, 0 <= scoreHolders holderCount <= 1)%R /\
  (forall riskCount : R, 0 <= scoreSafety riskCount <= 1)%R /\
  (forall (dateNow : R) (createdAtUnix : option R),
     0 <= scoreAge dateNow createdAtUnix <= 1)%R /\
  (forall priceImpactPct : option float, unit_or_nan (scoreLiquidity priceImpactPct)) /\
  (forall txCount24h : float, unit_or_nan (scoreVolume txCount24h)) /\
  (forall riskCount : float, unit_or_nan (scoreSafety riskCount)).
Proof.
  split; [|split; [|split; [|split; [|split; [|split; [|split]]]]]].
  - intros [p|]; unfold scoreLiquidity; exact_ops; [apply clamp_unit | lra].
  - intros x. unfold scoreVolume. exact_ops. apply clamp_unit.
  - intros x. unfold scoreHolders. exact_ops. unfold Exact.leb.
    destruct (Rle_dec x 1); [lra | apply clamp_unit].
  - intros x. unfold scoreSafety. exact_ops. apply clamp_unit.
  - intros dateNow [c|]; [destruct (Req_dec_T c 0) as [->|Hc]|].
    + rewrite scoreAge_unknown by auto. lra.
    + rewrite scoreAge_known by exact Hc. split; [left; apply exp_pos|].
      apply exp_le_1.
      pose proof (Rmax_l 0 (dateNow / 1000 - c)).
      apply Rmult_le_reg_r with 86400%R; [lra|].
      unfold Rdiv. rewrite Rmult_assoc, Rinv_l by lra. lra.
    + rewrite scoreAge_unknown by auto. lra.
  - intros [p|]; [apply f64_clamp_unit_or_nan|].
    right. split; reflexivity.
  - intros x. apply f64_clamp_unit_or_nan.
  - intros x. apply f64_clamp_unit_or_nan.
Qed.

(** The three scorers that need no logarithm or exponential, run in the
    program's arithmetic on negative, zero and very large inputs. *)
Example scores_f64_samples :
  scoreLiquidity (Some (-3)%float) = 0.4%float /\
  scoreLiquidity (Some 0%float) = 1%float /\
  scoreLiquidity (Some 1e300%float) = 0%float /\
  scoreLiquidity (T:=float) None = 0%float /\
  scoreVolume (-7)%float = 0%float /\
  scoreVolume 10%float = 0.5%float /\
  scoreVolume 1e300%float = 1%float /\
  scoreSafety (-2)%float = 1%float /\
  scoreSafety 1%float = 0.8%float /\
  scoreSafety 1e300%float = 0%float.
Proof. vm_compute. repeat split; reflexivity. Qed.

(** The weights add up to 1. *)
Example WEIGHTS_sum :
  (w_liquidity WEIGHTS + w_volume WEIGHTS + w_holders WEIGHTS
   + w_safety WEIGHTS + w_age WEIGHTS = 1)%R.
Proof. cbn [WEIGHTS w_liquidity w_volume w_holders w_safety w_age]. exact_ops. lra. Qed.

(** ** Filters *)

(** Whatever the arithmetic, the filter is the conjunction of its four
    tests and never reads the score. *)
Lemma passesFilters_tests {T} `{Number T} (m : Metrics T) :
  passesFilters m =
    negb (ltb (holderCount m) (lit 10)) && negb (ltb (lit 50) (topHolderPct m))
    && negb (hasCriticalRisk m) && quotable m.
Proof.
  unfold passesFilters.
  destruct (ltb (holderCount m) (lit 10)), (ltb (lit 50) (topHolderPct m)),
    (hasCriticalRisk m), (quotable m); reflexivity.
Qed.

Lemma passesFilters_setScore {T} `{Number T} (m : Metrics T) (s : T) :
  passesFilters (setScore m s) = passesFilters m.
Proof. reflexivity. Qed.

Lemma passesFilters_true_iff (m : Metrics R) :
  passesFilters m = true <->
  (10 <= holderCount m)%R /\ (topHolderPct m <= 50)%R /\
  hasCriticalRisk m = false /\ quotable m = true.
Proof.
  rewrite passesFilters_tests. exact_ops. unfold Exact.ltb.
  destruct (Rlt_dec (holderCount m) 10), (Rlt_dec 50 (topHolderPct m)),
    (hasCriticalRisk m), (quotable m); cbn; split;
    try discriminate; try (intros (? & ? & ? & ?); try discriminate; lra);
    intros _; repeat split; lra.
Qed.

(** C4: a token is excluded whenever it has fewer than 10 holders, or its
    top-10 concentration is above 50%, or it has a critical risk, or it is
    not quotable, whatever its score and in any arithmetic: so with 9
    holders under any score, and with a critical risk under perfect
    liquidity and volume sub-scores.  [analyzeToken] assigns the score to
    every token, from the five sub-scores alone, and the filter runs on the
    scored tokens. *)
Theorem passesFilters_excludes :
  (forall (T : Type) (N : Number T) (m : Metrics T),
     ltb (holderCount m) (lit 10) = true \/ ltb (lit 50) (topHolderPct m) = true \/
     hasCriticalRisk m = true \/ quotable m = false ->
     passesFilters m = false) /\
  (forall (T : Type) (N : Number T) (m : Metrics T) (s : T),
     passesFilters (setScore m s) = passesFilters m) /\
  (forall (m : Metrics float) (s : float),
     holderCount m = 9%float -> passesFilters (setScore m s) = false) /\
  (forall (m : Metrics R) (s : R),
     holderCount m = 9%R -> passesFilters (setScore m s) = false) /\
  (forall m : Metrics R,
     (holderCount m < 10)%R \/ (50 < topHolderPct m)%R \/
     hasCriticalRisk m = true \/ quotable m = false ->
     passesFilters m = false) /\
  (forall (T : Type) (N : Number T) (m : Metrics T),
     hasCriticalRisk m = true -> liquidityScore m = lit 1 -> volumeScore m = lit 1 ->
     passesFilters m = false) /\
  (forall (T : Type) (N : Number T) (Tr : Transcendental T)
          (dateNow : T) (mint : string) (createdAt : option T)
          holdersResult safetyResult quoteResult txResult,
     let m := analyzeToken dateNow mint createdAt
                holdersResult safetyResult quoteResult txResult in
     score m = Some (computeScore m) /\
     (quoteResult = None -> passesFilters m = false) /\
     (forall s, safetyResult = Some s -> ltb (lit 0) (s_riskCount s) = true ->
                passesFilters m = false) /\
     filtered [m] = if passesFilters m then [m] else []).
Proof.
  assert (Hex : forall (T : Type) (N : Number T) (m : Metrics T),
     ltb (holderCount m) (lit 10) = true \/ ltb (lit 50) (topHolderPct m) = true \/
     hasCriticalRisk m = true \/ quotable m = false ->
     passesFilters m = false).
  { intros T N m Hm. rewrite passesFilters_tests.
    destruct Hm as [-> | [-> | [-> | ->]]]; cbn [negb andb];
      rewrite ?andb_false_r; reflexivity. }
  split; [exact Hex|]. split; [reflexivity|]. split; [|split; [|split; [|split]]].
  - intros m s H9. rewrite passesFilters_setScore. apply Hex. left.
    rewrite H9. reflexivity.
  - intros m s H9. rewrite passesFilters_setScore. apply Hex. left.
    rewrite H9. exact_ops. apply Exact_ltb_spec. lra.
  - intros m Hm. apply Hex.
    destruct Hm as [Hh | [Ht | [Hc | Hq]]]; auto.
    + left. exact_ops. apply Exact_ltb_spec. exact Hh.
    + right; left. exact_ops. apply Exact_ltb_spec. exact Ht.
  - intros T N m Hc _ _. apply Hex. auto.
  - intros T N Tr dateNow mint0 createdAt hr sr qr tr m.
    split; [reflexivity|]. split; [|split].
    + intros ->. apply Hex. right; right; right. reflexivity.
    + intros s -> Hs. apply Hex. right; right; left. exact Hs.
    + unfold filtered. cbn [List.filter]. reflexivity.
Qed.

Lemma passesFilters_excludes_witness :
  passesFilters
    {| mint := "Mint1111"; liquidityScore := 1%float; volumeScore := 1%float;
       holdersScore := 1%float; safetyScore := 1%float; ageScore := 1%float;
       holderCount := 9%float; txCount24h := 40%float; riskCount := 0%float;
       priceImpactPct := Some 0%float; topHolderPct := 12%float;
       hasCriticalRisk := false; quotable := true; score := Some 1%float |} = false.
Proof.
  apply (proj1 passesFilters_excludes float float_Number). left. reflexivity.
Defined.

(** ** The state store *)

Section StateFacts.
Context {T : Type} `{Number T}.

Abbreviation value := (json T).
Abbreviation object := (gmap string (json T)).

Lemma union_absorbs (m d : object) : dom d ⊆ dom m -> m ∪ d = m.
Proof.
  intros Hd. apply map_eq. intros k.
  destruct (m !! k) as [v|] eqn:E.
  - by apply lookup_union_Some_l.
  - apply lookup_union_None. split; [done|].
    apply not_elem_of_dom. apply not_elem_of_dom in E. set_solver.
Qed.

Lemma DEFAULT_STATE_config :
  DEFAULT_STATE (T:=T) !! "config" = Some (JObj DEFAULT_CONFIG).
Proof. unfold DEFAULT_STATE. by simplify_map_eq. Qed.

(** Whatever is on disk, the loaded document is the defaults overridden by
    some object, with the default config overridden by some object. *)
Lemma loadState_shape (disk : file T) :
  exists extra config : object,
    loadState disk
    = <["config" := JObj (config ∪ DEFAULT_CONFIG)]> (extra ∪ DEFAULT_STATE).
Proof.
  assert (Hdef : DEFAULT_STATE (T:=T)
                 = <["config" := JObj (∅ ∪ DEFAULT_CONFIG)]> (∅ ∪ DEFAULT_STATE)).
  { rewrite !(left_id_L ∅ (∪)). symmetry. apply insert_id, DEFAULT_STATE_config. }
  destruct disk as [| |parsed]; cbn [loadState]; try (exists ∅, ∅; exact Hdef).
  destruct (getProp (Some parsed) "config") as [config|]; [|exists ∅, ∅; exact Hdef].
  eauto.
Qed.

Lemma loadState_carriesDefaults (disk : file T) : carriesDefaults (loadState disk).
Proof.
  destruct (loadState_shape disk) as (extra & config & ->). split.
  - rewrite dom_insert_L, dom_union_L. set_solver.
  - eexists. split; [apply lookup_insert_eq|]. rewrite dom_union_L. set_solver.
Qed.

Lemma loadState_saveState (state : object) :
  carriesDefaults state -> loadState (saveState state) = state.
Proof.
  intros [Hdom (config & Hcfg & Hcdom)].
  unfold saveState. cbn [loadState getProp spreadOf]. rewrite Hcfg.
  cbn [truthyV spreadOf].
  rewrite (union_absorbs config) by exact Hcdom.
  rewrite (union_absorbs state) by exact Hdom.
  apply insert_id, Hcfg.
Qed.

(** What JSON makes of a document that carries the defaults carries them. *)
Lemma carriesDefaults_throughJSON (state : object) :
  carriesDefaults state -> carriesDefaults (throughJSON <$> state).
Proof.
  intros [Hdom (config & Hcfg & Hcdom)]. split.
  - by rewrite dom_fmap_L.
  - exists (throughJSON <$> config). split.
    + rewrite lookup_fmap, Hcfg. reflexivity.
    + by rewrite dom_fmap_L.
Qed.

(** Loading right after saving gives the saved document as JSON wrote it. *)
Lemma loadState_reread_saveState (state : object) :
  carriesDefaults state -> loadState (reread (saveState state)) = throughJSON <$> state.
Proof.
  intros Hc. unfold saveState. cbn [reread throughJSON].
  apply (loadState_saveState (throughJSON <$> state)).
  by apply carriesDefaults_throughJSON.
Qed.

Lemma keptByJSON_fmap (state : object) :
  keptByJSON state -> throughJSON <$> state = state.
Proof. unfold keptByJSON. cbn [throughJSON]. by intros [= ->]. Qed.

Lemma reread_kept (state : object) :
  keptByJSON state -> reread (saveState state) = saveState state.
Proof. intros Hk. unfold saveState. cbn [reread]. by rewrite Hk. Qed.

(** C2 (as amended): loading right after saving gives back the saved
    document as JSON wrote it, with the default top-level keys and config
    fields present; for a document that JSON keeps (finite numbers, no -0)
    that is the document that was saved, deep-equal to it.  So it is for
    the default document and for every kept document the store loads; a
    loaded document always carries the defaults.  Equality of documents is
    equality of maps: the same keys with the same values, in any order. *)
Theorem loadState_after_saveState :
  (forall state : object,
     carriesDefaults state ->
     loadState (reread (saveState state)) = throughJSON <$> state /\
     carriesDefaults (loadState (reread (saveState state))) /\
     (keptByJSON state ->
      reread (saveState state) = saveState state /\
      loadState (reread (saveState state)) = state)) /\
  (forall disk : file T,
     carriesDefaults (loadState disk) /\
     (keptByJSON (loadState disk) ->
      loadState (reread (saveState (loadState disk))) = loadState disk)) /\
  loadState (T:=T) Missing = DEFAULT_STATE /\
  loadState (T:=T) Unparsable = DEFAULT_STATE /\
  (keptByJSON (DEFAULT_STATE (T:=T)) ->
   loadState (T:=T) (reread (saveState DEFAULT_STATE)) = DEFAULT_STATE).
Proof.
  assert (Hkept : forall state : object,
            carriesDefaults state -> keptByJSON state ->
            loadState (reread (saveState state)) = state).
  { intros state Hc Hk. rewrite (reread_kept state Hk).
    by apply loadState_saveState. }
  split.
  { intros state Hc. split; [by apply loadState_reread_saveState|]. split.
    - rewrite loadState_reread_saveState by done.
      by apply carriesDefaults_throughJSON.
    - intros Hk. split; [by apply reread_kept|by apply Hkept]. }
  split.
  { intros disk. split; [apply loadState_carriesDefaults|].
    apply Hkept, loadState_carriesDefaults. }
  split; [reflexivity|]. split; [reflexivity|].
  apply Hkept. apply (loadState_carriesDefaults Missing).
Qed.

End StateFacts.

(** JSON on doubles: NaN and the infinities come back as null, -0 as 0, and
    a finite number as itself. *)
Lemma throughJSON_f64 :
  throughJSON (JNum nan) = JNull /\
  throughJSON (JNum infinity) = JNull /\
  throughJSON (JNum neg_infinity) = JNull /\
  throughJSON (JNum (PrimFloat.opp 0%float)) = JNum 0%float /\
  throughJSON (JNum 0%float) = JNum 0%float /\
  throughJSON (JNum 0.1%float) = JNum 0.1%float /\
  throughJSON (JNum (-1700000000000)%float) = JNum (-1700000000000)%float /\
  throughJSON (JArr [JNum nan; JStr "x"; JObj (<["pnl" := JNum infinity]> ∅)])
  = JArr [JNull; JStr "x"; JObj (<["pnl" := JNull (T:=float)]> ∅)].
Proof. repeat split; vm_compute; reflexivity. Qed.

(** The default document is kept by JSON, and comes back as saved. *)
Lemma loadState_after_saveState_witness :
  keptByJSON (DEFAULT_STATE (T:=float)) /\
  loadState (reread (saveState (DEFAULT_STATE (T:=float)))) = DEFAULT_STATE.
Proof.
  assert (Hk : keptByJSON (DEFAULT_STATE (T:=float))) by (vm_compute; reflexivity).
  split; [exact Hk|].
  exact (proj2 (proj2 (proj2 (proj2 (loadState_after_saveState (T:=float))))) Hk).
Defined.

(** C2, the claim as stated: a document that carries the defaults and holds
    NaN (the document that updateConfig({goalUsd: NaN}) saves) is not the
    document that is loaded after it is saved: JSON.stringify writes the
    NaN as null, and the loaded config has goalUsd null. *)
Lemma loadState_after_saveState_not_NaN :
  let doc : gmap string (json float) :=
    <["config" := JObj (<["goalUsd" := JNum nan]> DEFAULT_CONFIG)]> DEFAULT_STATE in
  carriesDefaults doc /\
  (loadState (reread (saveState doc))
   = <["config" := JObj (<["goalUsd" := JNull]> DEFAULT_CONFIG)]> DEFAULT_STATE) /\
  (loadState (reread (saveState doc)) <> doc).
Proof.
  intros doc.
  assert (Hload : doc = loadState
            (Stored (JObj (<["config" := JObj (<["goalUsd" := JNum nan]> ∅)]> ∅))))
    by (vm_compute; reflexivity).
  assert (Hafter : loadState (reread (saveState doc))
                   = <["config" := JObj (<["goalUsd" := JNull]> DEFAULT_CONFIG)]>
                       DEFAULT_STATE)
    by (vm_compute; reflexivity).
  split; [rewrite Hload; apply loadState_carriesDefaults|].
  split; [exact Hafter|].
  rewrite Hafter. intros E.
  apply (f_equal (fun m : gmap string (json float) =>
                    match m !! "config" with
                    | Some (JObj c) => c !! "goalUsd"
                    | _ => None
                    end)) in E.
  vm_compute in E. discriminate E.
Qed.

Section MutatorFacts.
Context {T : Type} `{Number T}.

Abbreviation value := (json T).
Abbreviation object := (gmap string (json T)).

Ltac steps := cbn [mbind attempt_bind mret attempt_ret diskAfter fst snd].

Lemma findIndex_noneHas (k id : string) (l : list value) :
  noneHas k id l ->
  findIndex (fun j => v ← getProp (Some j) k; Done (strictEq v (Some (JStr id)))) l
  = Done None.
Proof.
  induction 1 as [|j l [Hnull Hobj] _ IH]; [reflexivity|].
  cbn [findIndex]. rewrite IH.
  destruct j as [| b | x | s | a | m]; try done.
  cbn [getProp]. steps.
  destruct (m !! k) as [[| b | x | s | a | m']|] eqn:E; try done.
  cbn [strictEq]. rewrite bool_decide_eq_false_2; [done|].
  intros ->. by apply (Hobj m).
Qed.

(** C3: when no journal entry has the id, updateJournalEntry returns null
    and leaves the file as it was, without saving; the same for
    updatePolyBet when no bet has the conditionId, or there are no bets. *)
Theorem update_unknown_returns_null :
  (forall (id : string) (updates : object) (disk : file T) (journal : list value),
     loadState disk !! "journal" = Some (JArr journal) ->
     noneHas "id" id journal ->
     updateJournalEntry id updates disk = Done (JNull, disk)) /\
  (forall (conditionId : string) (updates : object) (disk : file T),
     truthyV (loadState disk !! "polymarketBets") = false \/
     (exists bets : list value,
        loadState disk !! "polymarketBets" = Some (JArr bets) /\
        noneHas "conditionId" conditionId bets) ->
     updatePolyBet conditionId updates disk = Done (JNull, disk)).
Proof.
  split.
  - intros id updates disk journal Hj Hnone.
    unfold updateJournalEntry. rewrite Hj. cbn [asArray]. steps.
    rewrite (findIndex_noneHas "id" id journal Hnone). reflexivity.
  - intros cid updates disk [Hfalsy | (bets & Hb & Hnone)].
    + unfold updatePolyBet. rewrite Hfalsy. reflexivity.
    + unfold updatePolyBet. rewrite Hb. cbn [truthyV negb asArray]. steps.
      rewrite (findIndex_noneHas "conditionId" cid bets Hnone). reflexivity.
Qed.

(** *** The scan history *)


Lemma carriesDefaults_insert (state : object) (k : string) (v : value) :
  carriesDefaults state ->
  (k = "config" -> exists c : object, v = JObj c /\ dom (DEFAULT_CONFIG (T:=T)) ⊆ dom c) ->
  carriesDefaults (<[k := v]> state).
Proof.
  intros [Hdom (config & Hcfg & Hcdom)] Hk. split.
  - rewrite dom_insert_L. set_solver.
  - destruct (decide (k = "config")) as [->|Hne].
    + destruct (Hk eq_refl) as (c & -> & Hc). exists c. by rewrite lookup_insert_eq.
    + exists config. by rewrite lookup_insert_ne.
Qed.

Lemma loadState_saved_insert (disk : file T) (k : string) (v : value) :
  (k = "config" -> exists c : object, v = JObj c /\ dom (DEFAULT_CONFIG (T:=T)) ⊆ dom c) ->
  loadState (saveState (<[k := v]> (loadState disk))) = <[k := v]> (loadState disk).
Proof.
  intros Hk. apply loadState_saveState, carriesDefaults_insert; [|exact Hk].
  apply loadState_carriesDefaults.
Qed.






End MutatorFacts.

Lemma update_unknown_returns_null_witness :
  let entry : gmap string (json float) :=
    <["id" := JStr "j_1700000000000"]> (<["status" := JStr "open"]> ∅) in
  let disk : file float := Stored (JObj (<["journal" := JArr [JObj entry]]> ∅)) in
  updateJournalEntry "j_1700000000001" (<["status" := JStr "closed"]> ∅) disk
  = Done (JNull, disk).
Proof.
  intros entry disk.
  apply (proj1 (update_unknown_returns_null (T:=float))
           "j_1700000000001" (<["status" := JStr "closed"]> ∅) disk [JObj entry]).
  - vm_compute. reflexivity.
  - constructor; [|constructor]. split; [discriminate|].
    intros m [= <-]. vm_compute. discriminate.
Defined.


(** *** The store at work, in the program's arithmetic *)

Example journal_add_then_close :
  let bought : gmap string (json float) :=
    <["type" := JStr "buy"]> (<["mint" := JStr "Mint1111"]> ∅) in
  let closing : gmap string (json float) :=
    <["status" := JStr "closed"]> (<["pnl" := JNum 5%float]> ∅) in
  let disk1 := mutate 1700000000000%Z (AddJournalEntry bought) Missing in
  let disk2 := mutate 1700000000500%Z
                 (UpdateJournalEntry "j_1700000000000" closing) disk1 in
  let disk3 := mutate 1700000000900%Z
                 (UpdateJournalEntry "j_1700000000001" closing) disk2 in
  loadState disk2 !! "journal"
  = Some (JArr [JObj (<["id" := JStr "j_1700000000000"]>
                     (<["status" := JStr "closed"]>
                     (<["exitPrice" := JNull]>
                     (<["exitTimestamp" := JNull]>
                     (<["pnl" := JNum 5%float]>
                     (<["pnlPct" := JNull]>
                     (<["type" := JStr "buy"]>
                     (<["mint" := JStr "Mint1111"]>
                     (<["timestamp" := JNum 1700000000000%float]> ∅)))))))))])
  /\ disk3 = disk2.
Proof. vm_compute. split; reflexivity. Qed.

Example scanHistory_sixty_scans :
  let scan (n : nat) : Z * mutation float :=
    (Z.of_nat n, AddScanRecord (<["bestScore" := JNum 0.5%float]> ∅)) in
  match loadState (replay (scan <$> seq 1 60) Missing) !! "scanHistory" with
  | Some (JArr kept) =>
      length kept = 50%nat /\
      head kept = Some (JObj (<["bestScore" := JNum 0.5%float]>
                             (<["timestamp" := JNum 11%float]> ∅)))
  | _ => False
  end.
Proof. vm_compute. split; reflexivity. Qed.

(** A file written by an older version: no version, scan history or bets,
    and a config with a single field.  Loading supplies the defaults, and
    saving and loading again changes nothing. *)
Example loadState_fills_defaults :
  let old : file float :=
    Stored (JObj (<["journal" := JArr [JStr "entry"]]>
                 (<["config" := JObj (<["goalUsd" := JNum 5000%float]> ∅)]> ∅))) in
  loadState old
  = <["version" := JNum 1%float]>
    (<["config" := JObj (<["goalUsd" := JNum 5000%float]>
                        (<["defaultRiskPct" := JNum 2%float]>
                        (<["defaultStopLossPct" := JNum 20%float]>
                        (<["lastWatchCheck" := JNum 0%float]> ∅))))]>
    (<["journal" := JArr [JStr "entry"]]>
    (<["watchlist" := JArr []]>
    (<["narratives" := JObj ∅]>
    (<["scanHistory" := JArr []]>
    (<["polymarketBets" := JArr []]> ∅))))))
  /\ loadState (saveState (loadState old)) = loadState old
  /\ loadState (Stored (T:=float) JNull) = DEFAULT_STATE.
Proof. vm_compute. repeat split; reflexivity. Qed.

(** * Further properties of the code *)

(** ** The target and market-cap calculators *)

Lemma invalid_exact_true (x : R) : ~ (0 < x)%R -> invalid x = true.
Proof. intros Hx. unfold invalid. exact_ops. exact_tests. Qed.

(** X1: calcTargetPosition refuses exactly the prices that are not positive;
    on a positive price the cost of the tokens needed is the target, and
    with a positive supply the reported share of supply and market cap are
    those of the tokens and the price. *)
Theorem calcTargetPosition_exact (currentPrice totalSupply targetUsd : R) :
  (~ (0 < currentPrice)%R ->
   calcTargetPosition currentPrice totalSupply targetUsd = Error "Invalid price") /\
  ((0 < currentPrice)%R ->
   exists tp,
     calcTargetPosition currentPrice totalSupply targetUsd = Value tp /\
     (tokensNeeded tp * currentPrice = targetUsd)%R /\
     costAtCurrentPrice tp = targetUsd /\
     ((0 < totalSupply)%R ->
      exists pct,
        pctOfSupply tp = Some pct /\
        (pct / 100 * totalSupply = tokensNeeded tp)%R /\
        tp_currentMcap tp = Some (currentPrice * totalSupply)%R) /\
     (~ (0 < totalSupply)%R -> pctOfSupply tp = None /\ tp_currentMcap tp = None)).
Proof.
  split.
  - intros Hp. unfold calcTargetPosition. rewrite invalid_exact_true by exact Hp. reflexivity.
  - intros Hp. unfold calcTargetPosition. rewrite invalid_exact by exact Hp.
    eexists. split; [reflexivity|].
    cbn [tokensNeeded costAtCurrentPrice pctOfSupply tp_currentMcap]. exact_ops.
    split; [field; lra|]. split; [field; lra|]. split.
    + intros Hs. apply Exact_ltb_spec in Hs. rewrite Hs.
      eexists. split; [reflexivity|]. split; [|reflexivity].
      apply Exact_ltb_spec in Hs. field. lra.
    + intros Hs. destruct (Exact.ltb 0 totalSupply) eqn:E; [|split; reflexivity].
      apply Exact_ltb_spec in E. contradiction.
Qed.

Lemma calcTargetPosition_exact_witness :
  exists tp,
    calcTargetPosition 2%R 1000%R 500%R = Value tp /\
    (tokensNeeded tp * 2 = 500)%R /\
    costAtCurrentPrice tp = 500%R /\
    ((0 < 1000)%R ->
     exists pct,
       pctOfSupply tp = Some pct /\
       (pct / 100 * 1000 = tokensNeeded tp)%R /\
       tp_currentMcap tp = Some (2 * 1000)%R) /\
    (~ (0 < 1000)%R -> pctOfSupply tp = None /\ tp_currentMcap tp = None).
Proof.
  apply (proj2 (calcTargetPosition_exact 2 1000 500)). lra.
Defined.

(** In the program's arithmetic the cost can miss the target by rounding. *)
Example calcTargetPosition_f64_rounding :
  match calcTargetPosition 49%float 0%float 1%float with
  | Value tp => costAtCurrentPrice tp = 0.99999999999999989%float
                /\ pctOfSupply tp = None
  | Error _ => False
  end.
Proof. vm_compute. split; reflexivity. Qed.

(** X2: calcRequiredMcap checks the holdings before the supply; on positive
    holdings and supply the holdings are worth the target at the required
    price, and the holder's share of the required market cap is the target. *)
Theorem calcRequiredMcap_exact (tokensHeld totalSupply targetUsd : R) :
  (~ (0 < tokensHeld)%R ->
   calcRequiredMcap tokensHeld totalSupply targetUsd = Error "Invalid token amount") /\
  ((0 < tokensHeld)%R -> ~ (0 < totalSupply)%R ->
   calcRequiredMcap tokensHeld totalSupply targetUsd = Error "Invalid supply") /\
  ((0 < tokensHeld)%R -> (0 < totalSupply)%R ->
   exists rm,
     calcRequiredMcap tokensHeld totalSupply targetUsd = Value rm /\
     (requiredPrice rm * tokensHeld = targetUsd)%R /\
     (requiredMcap rm = requiredPrice rm * totalSupply)%R /\
     (requiredMcap rm * (tokensHeld / totalSupply) = targetUsd)%R /\
     multiplierNeeded rm = None /\ rm_currentMcap rm = None).
Proof.
  split; [|split].
  - intros Hh. unfold calcRequiredMcap. rewrite invalid_exact_true by exact Hh. reflexivity.
  - intros Hh Hs. unfold calcRequiredMcap.
    rewrite invalid_exact by exact Hh. rewrite invalid_exact_true by exact Hs. reflexivity.
  - intros Hh Hs. unfold calcRequiredMcap. rewrite !invalid_exact by assumption.
    eexists. split; [reflexivity|].
    cbn [requiredPrice requiredMcap multiplierNeeded rm_currentMcap]. exact_ops.
    repeat split; try reflexivity; field; lra.
Qed.

Lemma calcRequiredMcap_exact_witness :
  exists rm,
    calcRequiredMcap 250%R 1000%R 500%R = Value rm /\
    (requiredPrice rm * 250 = 500)%R /\
    (requiredMcap rm = requiredPrice rm * 1000)%R /\
    (requiredMcap rm * (250 / 1000) = 500)%R /\
    multiplierNeeded rm = None /\ rm_currentMcap rm = None.
Proof.
  apply (proj2 (proj2 (calcRequiredMcap_exact 250 1000 500))); lra.
Defined.

(** X3: calcRequiredMcapWithCurrent fails exactly when calcRequiredMcap does,
    with its error; otherwise it keeps the base figures and, for a positive
    current market cap, reports the multiplier that takes the current cap
    to the required one (no multiplier otherwise). *)
Theorem calcRequiredMcapWithCurrent_exact
    (tokensHeld totalSupply targetUsd currentMcap : R) :
  match calcRequiredMcap tokensHeld totalSupply targetUsd with
  | Error msg =>
      calcRequiredMcapWithCurrent tokensHeld totalSupply targetUsd currentMcap = Error msg
  | Value base =>
      exists rm,
        calcRequiredMcapWithCurrent tokensHeld totalSupply targetUsd currentMcap = Value rm /\
        requiredMcap rm = requiredMcap base /\
        requiredPrice rm = requiredPrice base /\
        rm_currentMcap rm = Some currentMcap /\
        ((0 < currentMcap)%R ->
         exists m, multiplierNeeded rm = Some m /\ (m * currentMcap = requiredMcap base)%R) /\
        (~ (0 < currentMcap)%R -> multiplierNeeded rm = None)
  end.
Proof.
  unfold calcRequiredMcapWithCurrent.
  destruct (calcRequiredMcap tokensHeld totalSupply targetUsd) as [msg|base]; [reflexivity|].
  eexists. split; [reflexivity|].
  cbn [requiredMcap requiredPrice rm_currentMcap multiplierNeeded]. exact_ops.
  repeat split.
  - intros Hc. pose proof Hc as Hc'. apply Exact_ltb_spec in Hc'. rewrite Hc'.
    eexists. split; [reflexivity|]. field. lra.
  - intros Hc. destruct (Exact.ltb 0 currentMcap) eqn:E; [|reflexivity].
    apply Exact_ltb_spec in E. contradiction.
Qed.

(** X4: The two calculators agree: the tokens that calcTargetPosition says to
    buy for a positive target need, by calcRequiredMcap, exactly the current
    market cap, that is a multiplier of 1; for a target that is not positive
    there are no tokens to hold and calcRequiredMcap refuses. *)
Theorem calcTarget_then_requiredMcap (currentPrice totalSupply targetUsd : R) :
  (0 < currentPrice)%R -> (0 < totalSupply)%R ->
  exists tp,
    calcTargetPosition currentPrice totalSupply targetUsd = Value tp /\
    ((0 < targetUsd)%R ->
     exists rm,
       calcRequiredMcapWithCurrent (tokensNeeded tp) totalSupply targetUsd
         (currentPrice * totalSupply)%R = Value rm /\
       tp_currentMcap tp = Some (requiredMcap rm) /\
       requiredPrice rm = currentPrice /\
       multiplierNeeded rm = Some 1%R) /\
    (~ (0 < targetUsd)%R ->
     calcRequiredMcap (tokensNeeded tp) totalSupply targetUsd =
       Error "Invalid token amount").
Proof.
  intros Hp Hs.
  unfold calcTargetPosition. rewrite invalid_exact by exact Hp.
  eexists. split; [reflexivity|]. cbn [tokensNeeded tp_currentMcap].
  assert (Hq : forall t, ((0 < t)%R <-> (0 < t / currentPrice)%R)).
  { intros t. split; intros Ht.
    - apply Rdiv_lt_0_compat; assumption.
    - replace t with (t / currentPrice * currentPrice)%R by (field; lra). nra. }
  split.
  - intros Ht. unfold calcRequiredMcapWithCurrent, calcRequiredMcap.
    exact_ops. rewrite invalid_exact by (apply (proj1 (Hq targetUsd)); exact Ht).
    rewrite invalid_exact by exact Hs.
    assert (Hm : (0 < currentPrice * totalSupply)%R) by nra.
    pose proof Hm as Hm'. apply Exact_ltb_spec in Hm'. rewrite Hm'.
    pose proof Hs as Hs'. apply Exact_ltb_spec in Hs'. rewrite Hs'.
    eexists. split; [reflexivity|].
    cbn [requiredMcap requiredPrice multiplierNeeded].
    repeat split; f_equal; field; lra.
  - intros Ht. unfold calcRequiredMcap. exact_ops.
    rewrite invalid_exact_true; [reflexivity|]. intros Hn. apply Ht, (proj2 (Hq targetUsd)), Hn.
Qed.

Lemma calcTarget_then_requiredMcap_witness :
  exists tp,
    calcTargetPosition 2%R 1000%R 500%R = Value tp /\
    ((0 < 500)%R ->
     exists rm,
       calcRequiredMcapWithCurrent (tokensNeeded tp) 1000%R 500%R (2 * 1000)%R = Value rm /\
       tp_currentMcap tp = Some (requiredMcap rm) /\
       requiredPrice rm = 2%R /\
       multiplierNeeded rm = Some 1%R) /\
    (~ (0 < 500)%R ->
     calcRequiredMcap (tokensNeeded tp) 1000%R 500%R = Error "Invalid token amount").
Proof.
  apply (calcTarget_then_requiredMcap 2 1000 500); lra.
Defined.

(** ** Goal progress *)

Lemma insertSorted_Permutation {T A} `{Number T} (cmp : A -> A -> T) (x : A) (l : list A) :
  Permutation (insertSorted cmp x l) (x :: l).
Proof.
  induction l as [|y l IH]; cbn [insertSorted]; [reflexivity|].
  destruct (ltb (cmp y x) (lit 0)); [|reflexivity].
  rewrite IH. apply perm_swap.
Qed.

Lemma sortBy_Permutation {T A} `{Number T} (cmp : A -> A -> T) (l : list A) :
  Permutation (sortBy cmp l) l.
Proof.
  induction l as [|x l IH]; cbn [sortBy fold_right]; [reflexivity|].
  fold (sortBy cmp l). rewrite insertSorted_Permutation. by constructor.
Qed.

Lemma byValueDesc_negative (a b : PathEntry R) :
  ltb (byValueDesc a b) (lit 0) = true <-> (pe_currentValue b < pe_currentValue a)%R.
Proof.
  unfold byValueDesc. exact_ops. rewrite Exact_ltb_spec.
  unfold Exact.truthy, Exact.eqb.
  destruct (Req_dec_T (pe_currentValue a) 0), (Req_dec_T (pe_currentValue b) 0);
    cbn [negb]; lra.
Qed.

Lemma insertSorted_valueDesc (x : PathEntry R) (l : list (PathEntry R)) :
  StronglySorted valueDesc l -> StronglySorted valueDesc (insertSorted byValueDesc x l).
Proof.
  induction 1 as [|y l Hs IH Hy]; cbn [insertSorted].
  - repeat constructor.
  - destruct (ltb (byValueDesc y x) (lit 0)) eqn:E.
    + apply byValueDesc_negative in E. constructor; [exact IH|].
      rewrite (insertSorted_Permutation byValueDesc x l).
      constructor; [unfold valueDesc; lra | exact Hy].
    + assert (Hyx : (pe_currentValue y <= pe_currentValue x)%R).
      { destruct (Rle_dec (pe_currentValue y) (pe_currentValue x)) as [|Hn]; [assumption|].
        assert (ltb (byValueDesc y x) (lit 0) = true) by (apply byValueDesc_negative; lra).
        congruence. }
      constructor; [constructor; assumption|].
      constructor; [exact Hyx|].
      eapply Forall_impl; [exact Hy|]. unfold valueDesc. intros z Hz. lra.
Qed.

Lemma sortBy_valueDesc (l : list (PathEntry R)) :
  StronglySorted valueDesc (sortBy byValueDesc l).
Proof.
  induction l as [|x l IH]; cbn [sortBy fold_right]; [constructor|].
  apply insertSorted_valueDesc, IH.
Qed.

Lemma sumR_Permutation {A} (f : A -> R) (l1 l2 : list A) :
  Permutation l1 l2 -> sumR f l1 = sumR f l2.
Proof.
  induction 1 as [|x l l' _ IH|x y l|l l' l'' _ IH1 _ IH2]; unfold sumR in *;
    cbn [fold_right]; try lra; congruence.
Qed.

Lemma fold_left_sumR {A} (f : A -> R) (l : list A) (acc : R) :
  fold_left (fun s x => (s + f x)%R) l acc = (acc + sumR f l)%R.
Proof.
  revert acc. induction l as [|x l IH]; intros acc; cbn [fold_left sumR fold_right].
  - lra.
  - rewrite IH. fold (sumR f l). lra.
Qed.

Lemma sumR_pctOfGoal (targetUsd : R) (positions : list (Position R)) :
  targetUsd <> 0%R ->
  sumR pctOfGoal (List.map (pathEntry targetUsd) positions)
  = (sumR positionValue positions / targetUsd * 100)%R.
Proof.
  intros Ht. unfold sumR.
  induction positions as [|q qs IH]; cbn [fold_right List.map].
  - field. exact Ht.
  - rewrite IH. cbn [pathEntry pctOfGoal]. exact_ops. field. exact Ht.
Qed.

(** X5: calcGoalProgress without positions reports zero progress and the whole
    target as remaining.  With positions: the current value is the sum of
    the position values and, with the remaining amount, makes up the target;
    the path lists every position once, largest value first; the shares of
    the goal add up to the progress; and a position has a multiplier exactly
    when its value is positive, the multiplier taking that value to the
    target. *)
Theorem calcGoalProgress_exact (positions : list (Position R)) (targetUsd : R) :
  calcGoalProgress None targetUsd = calcGoalProgress (Some []) targetUsd /\
  calcGoalProgress (Some []) targetUsd
    = {| currentValue := 0%R; progressPct := 0%R; remainingUsd := targetUsd;
         gp_targetUsd := targetUsd; pathToGoal := [] |} /\
  let g := calcGoalProgress (Some positions) targetUsd in
  currentValue g = sumR positionValue positions /\
  (remainingUsd g + currentValue g = targetUsd)%R /\
  Permutation (pathToGoal g) (List.map (pathEntry targetUsd) positions) /\
  StronglySorted valueDesc (pathToGoal g) /\
  (targetUsd <> 0%R -> sumR pctOfGoal (pathToGoal g) = progressPct g) /\
  Forall (fun e =>
            match pe_multiplierNeeded e with
            | Times m => (0 < pe_currentValue e)%R /\ (m * pe_currentValue e = targetUsd)%R
            | NotApplicable => (pe_currentValue e <= 0)%R
            end) (pathToGoal g).
Proof.
  split; [reflexivity|]. split; [reflexivity|]. cbv zeta.
  destruct positions as [|p ps].
  { cbn [calcGoalProgress currentValue remainingUsd pathToGoal progressPct sumR fold_right
         List.map]. exact_ops.
    repeat split; try constructor; try lra. }
  cbn [calcGoalProgress currentValue remainingUsd pathToGoal progressPct].
  set (positions := p :: ps).
  assert (Hcv : fold_left (fun acc pos => add acc (positionValue pos)) positions (lit 0)
                = sumR positionValue positions).
  { exact_ops. rewrite fold_left_sumR. lra. }
  rewrite Hcv.
  pose proof (sortBy_Permutation byValueDesc (List.map (pathEntry targetUsd) positions)) as Hperm.
  split; [reflexivity|]. split; [exact_ops; lra|]. split; [exact Hperm|].
  split; [apply sortBy_valueDesc|]. split.
  - intros Ht. rewrite (sumR_Permutation _ _ _ Hperm).
    rewrite sumR_pctOfGoal by exact Ht. exact_ops. reflexivity.
  - rewrite Hperm. apply List.Forall_forall. intros e He.
    apply List.in_map_iff in He as (q & <- & _).
    cbn [pathEntry pe_multiplierNeeded pe_currentValue]. exact_ops.
    cbn [isInfinity R_HasInfinity].
    destruct (Exact.ltb 0 (positionValue q)) eqn:E.
    + apply Exact_ltb_spec in E. split; [exact E|]. field. lra.
    + apply Rnot_lt_le. intros Hlt. apply Exact_ltb_spec in Hlt.
      rewrite Hlt in E. discriminate.
Qed.

Lemma calcGoalProgress_exact_witness :
  let positions : list (Position R) :=
    [ {| p_symbol := Some "AAA"; p_mint := Some "MintA"; p_tokenAmount := Some 10%R;
         p_currentPrice := Some 2%R; p_price := Some 1%R |};
      {| p_symbol := None; p_mint := Some "MintB"; p_tokenAmount := Some 5%R;
         p_currentPrice := None; p_price := Some 8%R |} ] in
  let g := calcGoalProgress (Some positions) 100%R in
  sumR pctOfGoal (pathToGoal g) = progressPct g.
Proof.
  intros positions g.
  apply (proj2 (proj2 (calcGoalProgress_exact positions 100))). lra.
Defined.

(** The same two positions in the program's arithmetic: the larger one
    comes first, with the multiplier that takes it to the goal. *)
Example calcGoalProgress_f64 :
  let positions : list (Position float) :=
    [ {| p_symbol := Some "AAA"; p_mint := Some "MintA"; p_tokenAmount := Some 10%float;
         p_currentPrice := Some 2%float; p_price := Some 1%float |};
      {| p_symbol := None; p_mint := Some "MintB"; p_tokenAmount := Some 5%float;
         p_currentPrice := None; p_price := Some 8%float |};
      {| p_symbol := Some "CCC"; p_mint := Some "MintC"; p_tokenAmount := None;
         p_currentPrice := Some 3%float; p_price := None |} ] in
  let g := calcGoalProgress (Some positions) 100%float in
  currentValue g = 60%float /\ progressPct g = 60%float /\ remainingUsd g = 40%float /\
  List.map (fun e => (pe_symbol e, pe_currentValue e, pe_multiplierNeeded e)) (pathToGoal g)
  = [ (Some "MintB", 40%float, Times 2.5%float);
      (Some "AAA", 20%float, Times 5%float);
      (Some "CCC", 0%float, NotApplicable) ].
Proof. vm_compute. repeat split; reflexivity. Qed.

(** ** The Kelly figures *)

(** [Math.max(Math.min(x, 25), 0)] in binary64: NaN on NaN, otherwise
    between 0 and 25. *)
Lemma f64_cap_floor (x : float) :
  let c := F64.max (F64.min x 25) 0 in
  (PrimFloat.is_nan x = true /\ PrimFloat.is_nan c = true) \/
  (PrimFloat.is_nan x = false /\ PrimFloat.leb 0 c = true /\ PrimFloat.leb c 25 = true).
Proof.
  cbv zeta. unfold F64.min.
  change (PrimFloat.is_nan 25) with false. rewrite orb_false_r.
  destruct (PrimFloat.is_nan x) eqn:Hn.
  { left. split; reflexivity. }
  right. split; [reflexivity|].
  assert (Hm : forall m : float,
            PrimFloat.is_nan m = false -> PrimFloat.leb m 25 = true ->
            PrimFloat.leb 0 (F64.max m 0) = true /\ PrimFloat.leb (F64.max m 0) 25 = true).
  { intros m Hmn Hm25. unfold F64.max.
    change (PrimFloat.is_nan 0) with false. rewrite Hmn. cbn [orb].
    destruct (PrimFloat.ltb m 0) eqn:Hlt; [split; reflexivity|].
    assert (H0m : PrimFloat.leb 0 m = true) by (apply f64_not_ltb_leb; auto).
    destruct (PrimFloat.ltb 0 m); [split; assumption|].
    destruct (F64.is_neg_zero m); [split; reflexivity | split; assumption]. }
  destruct (PrimFloat.ltb x 25) eqn:Hx.
  { apply Hm; [exact Hn | apply f64_ltb_leb, Hx]. }
  destruct (PrimFloat.ltb 25 x) eqn:Hx'.
  { split; reflexivity. }
  destruct (F64.is_neg_zero x).
  - apply Hm; [exact Hn | apply f64_not_ltb_leb; auto].
  - split; reflexivity.
Qed.

(** X6: calcKellyCriterion never reports more than 25% nor less than 0%, and
    half-Kelly never more than 12.5%: in exact arithmetic wherever the win
    to loss ratio can divide, and in the program's arithmetic unless the
    figure is NaN.  Without losses or without wins both figures are 0.  A
    position size is recommended only from 1% of half-Kelly upwards, and the
    size named is the half-Kelly figure. *)
Theorem calcKellyCriterion_bounds :
  (forall winRate avgWin avgLoss : R,
     avgWin <> 0%R \/ avgLoss = 0%R \/ (winRate <= 0)%R ->
     let k := calcKellyCriterion winRate avgWin avgLoss in
     (0 <= kellyPct k <= 25)%R /\
     (0 <= halfKellyPct k <= 12.5)%R /\
     (halfKellyPct k <= kellyPct k)%R /\
     match recommendation k with
     | NoLossesRecorded => avgLoss = 0%R /\ kellyPct k = 0%R /\ halfKellyPct k = 0%R
     | NoWins => (winRate <= 0)%R /\ kellyPct k = 0%R /\ halfKellyPct k = 0%R
     | NegativeEdge => kellyPct k = 0%R /\ halfKellyPct k = 0%R
     | VerySmallEdge => (0 < kellyPct k)%R /\ (halfKellyPct k < 1)%R
     | SizeHalfKelly h => h = halfKellyPct k /\ (1 <= h < 5)%R
     | SizeHalfKellyCapped h => h = halfKellyPct k /\ (5 <= h <= 12.5)%R
     end) /\
  (forall winRate avgWin avgLoss : float,
     let k := calcKellyCriterion winRate avgWin avgLoss in
     PrimFloat.is_nan (kellyPct k) = true \/
     (PrimFloat.leb 0 (kellyPct k) = true /\ PrimFloat.leb (kellyPct k) 25 = true)).
Proof.
  split.
  - intros w aw al _. cbv zeta. unfold calcKellyCriterion. exact_ops.
    unfold Exact.eqb, Exact.leb, Exact.ltb.
    destruct (Req_dec_T al 0) as [Hal|Hal].
    { cbn [kellyPct halfKellyPct recommendation]. repeat split; try lra; assumption. }
    destruct (Rle_dec w 0) as [Hw|Hw].
    { cbn [kellyPct halfKellyPct recommendation]. repeat split; try lra; assumption. }
    cbn [kellyPct halfKellyPct recommendation].
    set (x := Rmin _ 25).
    assert (Hx : (x <= 25)%R) by apply Rmin_r.
    unfold Rmax.
    destruct (Rle_dec x 0), (Rle_dec (x / 2) 0); try lra;
      repeat (match goal with
              | |- context [Rlt_dec ?a ?b] => destruct (Rlt_dec a b)
              | |- context [Rle_dec ?a ?b] => destruct (Rle_dec a b)
              end); repeat split; try lra.
  - intros w aw al. cbv zeta. unfold calcKellyCriterion.
    destruct (eqb al (lit 0)); [right; split; reflexivity|].
    destruct (leb w (lit 0)); [right; split; reflexivity|].
    cbn [kellyPct max min lit of_Z float_Number].
    change (F64.of_Z 25) with 25%float. change (F64.of_Z 0) with 0%float.
    match goal with
    | |- context [F64.min ?raw 25] => destruct (f64_cap_floor raw) as [[_ Hc] | [_ Hc]]
    end; [left | right]; exact Hc.
Qed.

Lemma calcKellyCriterion_bounds_witness :
  let k := calcKellyCriterion 0.5%R 30%R 10%R in
  (0 <= kellyPct k <= 25)%R /\
  (0 <= halfKellyPct k <= 12.5)%R /\
  (halfKellyPct k <= kellyPct k)%R /\
  match recommendation k with
  | NoLossesRecorded => 10%R = 0%R /\ kellyPct k = 0%R /\ halfKellyPct k = 0%R
  | NoWins => (0.5 <= 0)%R /\ kellyPct k = 0%R /\ halfKellyPct k = 0%R
  | NegativeEdge => kellyPct k = 0%R /\ halfKellyPct k = 0%R
  | VerySmallEdge => (0 < kellyPct k)%R /\ (halfKellyPct k < 1)%R
  | SizeHalfKelly h => h = halfKellyPct k /\ (1 <= h < 5)%R
  | SizeHalfKellyCapped h => h = halfKellyPct k /\ (5 <= h <= 12.5)%R
  end.
Proof.
  apply (proj1 calcKellyCriterion_bounds 0.5%R 30%R 10%R). left. lra.
Defined.

(** Called with a win rate of 1 and no average win, the program divides 0
    by 0 and reports NaN. *)
Example calcKellyCriterion_nan :
  PrimFloat.is_nan (kellyPct (calcKellyCriterion 1%float 0%float 5%float)) = true.
Proof. vm_compute. reflexivity. Qed.

(** ** The journal analysis as a whole *)

Section AnalysisFacts.
Context {T : Type} `{Number T}.

Lemma filter_isClosed_idem (entries : list (JournalEntry T)) :
  List.filter isClosed (List.filter isClosed entries) = List.filter isClosed entries.
Proof.
  induction entries as [|e l IH]; [reflexivity|].
  cbn [List.filter]. destruct (isClosed e) eqn:E; [|exact IH].
  cbn [List.filter]. rewrite E, IH. reflexivity.
Qed.

(** X7: Only entries that are closed and carry a pnlPct count: the analysis
    is that of the closed entries alone, an entry that is open or closed
    without a pnlPct changes nothing wherever it stands, and the analysis
    is the "no closed trades" one exactly when there is no such entry. *)
Theorem analyzeJournal_closed_only (entries : list (JournalEntry T)) :
  analyzeJournal entries = analyzeJournal (List.filter isClosed entries) /\
  (forall before after e,
     entries = before ++ e :: after -> isClosed e = false ->
     analyzeJournal entries = analyzeJournal (before ++ after)) /\
  (analyzeJournal entries = NoClosedTrades <-> List.filter isClosed entries = []) /\
  (forall a, analyzeJournal entries = Analyzed a ->
     totalTrades a = length (List.filter isClosed entries) /\ (0 < totalTrades a)%nat).
Proof.
  split; [|split; [|split]].
  - unfold analyzeJournal. rewrite filter_isClosed_idem. reflexivity.
  - intros before after e -> He. unfold analyzeJournal.
    rewrite !List.filter_app. cbn [List.filter]. rewrite He. reflexivity.
  - unfold analyzeJournal.
    destruct (List.filter isClosed entries) as [|c cs]; cbn [length Nat.eqb]; split;
      intros; try reflexivity; discriminate.
  - intros a. unfold analyzeJournal.
    destruct (List.filter isClosed entries) as [|c cs]; cbn [length Nat.eqb];
      [discriminate|].
    intros [= <-]. cbn [totalTrades length]. split; [reflexivity | lia].
Qed.

(** *** Streaks *)

Lemma streakStep_within (s : Streaks) (e : JournalEntry T) (w m : nat) :
  streaksWithin s w m ->
  streaksWithin (streakStep s e)
    (if isWin e then S w else w) (if isWin e then m else S m) /\
  (if isWin e then (0 < current (streakStep s e))%Z else (current (streakStep s e) < 0)%Z).
Proof.
  intros (Hb & Hl & Hc). unfold streaksWithin, streakStep.
  destruct (isWin e); cbn [current bestWin worstLose].
  - destruct (Z.ltb_spec 0 (current s)); repeat split; lia.
  - destruct (Z.ltb_spec (current s) 0); repeat split; lia.
Qed.

Lemma walk_within (l : list (JournalEntry T)) (s : Streaks) (w m : nat) :
  streaksWithin s w m ->
  streaksWithin (fold_left streakStep l s)
    (w + length (List.filter isWin l))
    (m + length (List.filter (fun e => negb (isWin e)) l)).
Proof.
  revert s w m. induction l as [|e l IH]; intros s w m Hs; cbn [fold_left List.filter].
  - cbn [length]. rewrite !Nat.add_0_r. exact Hs.
  - destruct (streakStep_within s e w m Hs) as [Hstep _].
    specialize (IH _ _ _ Hstep).
    destruct (isWin e); cbn [negb length] in *.
    + replace (w + S (length (List.filter isWin l)))%nat
        with (S w + length (List.filter isWin l))%nat by lia. exact IH.
    + replace (m + S (length (List.filter (fun e => negb (isWin e)) l)))%nat
        with (S m + length (List.filter (fun e => negb (isWin e)) l))%nat by lia. exact IH.
Qed.

(** X8: The streaks an analysis reports fit its counts: the best winning streak
    is at most the number of wins, the worst losing streak at most the
    number of other closed trades, the current streak lies between them
    (negative for a losing run) and is never 0, its sign being that of the
    last closed trade. *)
Theorem analyzeJournal_streaks (entries : list (JournalEntry T)) (a : JournalAnalysis T) :
  analyzeJournal entries = Analyzed a ->
  (0 <= bestWin (streaks a) <= Z.of_nat (wins a))%Z /\
  (0 <= worstLose (streaks a) <= Z.of_nat (totalTrades a - wins a))%Z /\
  (- worstLose (streaks a) <= current (streaks a) <= bestWin (streaks a))%Z /\
  current (streaks a) <> 0%Z /\
  (forall before last,
     List.filter isClosed entries = before ++ [last] ->
     if isWin last then (0 < current (streaks a))%Z else (current (streaks a) < 0)%Z).
Proof.
  unfold analyzeJournal. set (closed := List.filter isClosed entries).
  destruct (length closed =? 0)%nat eqn:E; [discriminate|].
  intros [= <-]. cbn [streaks wins totalTrades].
  assert (Hlast : forall before last, closed = before ++ [last] ->
            if isWin last then (0 < current (walkStreaks closed))%Z
            else (current (walkStreaks closed) < 0)%Z).
  { intros before last ->. rewrite walkStreaks_app. cbn [fold_left].
    apply (streakStep_within (walkStreaks before) last
             (length (List.filter isWin before))
             (length (List.filter (fun e => negb (isWin e)) before))).
    apply (walk_within before _ 0 0). repeat split; cbn; lia. }
  pose proof (walk_within closed {| current := 0; bestWin := 0; worstLose := 0 |} 0 0)
    as Hw.
  cbn [Nat.add] in Hw. fold (walkStreaks closed) in Hw.
  destruct Hw as (Hb & Hl & Hc); [repeat split; cbn; lia|].
  assert (Hsplit : (length (List.filter (fun e => negb (isWin e)) closed)
                    = length closed - length (List.filter isWin closed))%nat).
  { clear. induction closed as [|e l IH]; [reflexivity|].
    cbn [List.filter]. pose proof (length_filter_le isWin l).
    destruct (isWin e); cbn [negb length]; lia. }
  rewrite Hsplit in Hl.
  split; [exact Hb|]. split; [exact Hl|]. split; [exact Hc|]. split; [|exact Hlast].
  destruct (@exists_last _ closed) as (before & last & Heq).
  { intros ->. discriminate. }
  specialize (Hlast before last Heq). destruct (isWin last); lia.
Qed.

End AnalysisFacts.

Lemma analyzeJournal_streaks_witness :
  let trade (pct : float) : JournalEntry float :=
    {| status := "closed"; pnl := None; pnlPct := Some pct;
       chain := None; narratives := None |} in
  let entries := [trade 4; trade 2; trade (-1); trade 3]%float in
  let a := {| totalTrades := 4; wins := 3; losses := 1; winRate := 0.75%float;
              avgPnlPct := 2%float; totalPnl := 0%float; profitFactor := Finite 0%float;
              kelly := calcKellyCriterion 0.75%float 3%float 1%float;
              byNarrative := groupByNarrative (List.filter isClosed entries);
              byChain := groupByChain (List.filter isClosed entries);
              streaks := {| current := 1; bestWin := 2; worstLose := 1 |} |} in
  (0 <= bestWin (streaks a) <= Z.of_nat (wins a))%Z /\
  (0 <= worstLose (streaks a) <= Z.of_nat (totalTrades a - wins a))%Z /\
  (- worstLose (streaks a) <= current (streaks a) <= bestWin (streaks a))%Z /\
  current (streaks a) <> 0%Z /\
  (forall before last,
     List.filter isClosed entries = before ++ [last] ->
     if isWin last then (0 < current (streaks a))%Z else (current (streaks a) < 0)%Z).
Proof.
  intros trade entries a.
  apply (analyzeJournal_streaks entries a). vm_compute. reflexivity.
Defined.

(** *** Rates and averages, in exact arithmetic *)

Lemma sumOf_sumR (f : JournalEntry R -> R) (l : list (JournalEntry R)) :
  sumOf f l = sumR f l.
Proof. unfold sumOf. exact_ops. rewrite fold_left_sumR. lra. Qed.

Lemma num_or_exact (x : R) : num_or (Some x) (lit 0) = x.
Proof.
  unfold num_or. exact_ops. unfold Exact.truthy, Exact.eqb.
  destruct (Req_dec_T x 0); cbn [negb]; lra.
Qed.

Lemma sumR_wins_positive (l : list (JournalEntry R)) :
  (0 < sumR pctOf (List.filter isWin l))%R \/ List.filter isWin l = [].
Proof.
  induction l as [|e l IH]; [right; reflexivity|].
  cbn [List.filter]. destruct (isWin e) eqn:E; [|exact IH].
  left. unfold sumR in *. cbn [fold_right].
  assert (He : (0 < pctOf e)%R).
  { unfold isWin, pctOf in *. destruct (pnlPct e); [|discriminate].
    exact_ops. apply Exact_ltb_spec in E. exact E. }
  destruct IH as [IH | ->]; [lra | cbn [fold_right]; lra].
Qed.

Lemma rate_exact (w n : nat) : div (count w) (count n) = (INR w / INR n)%R.
Proof. unfold count. exact_ops. rewrite <- !INR_IZR_INZ. reflexivity. Qed.

Lemma sumOf_pnlPct (closed : list (JournalEntry R)) :
  Forall (fun e => isClosed e = true) closed ->
  sumOf (fun e => num_or (pnlPct e) (lit 0)) closed = sumR pctOf closed.
Proof.
  intros Hc. rewrite sumOf_sumR. unfold sumR.
  induction Hc as [|e l He _ IH]; [reflexivity|].
  cbn [fold_right]. rewrite IH. f_equal.
  unfold isClosed in He. apply andb_true_iff in He as [_ Hp].
  apply bool_decide_eq_true in Hp as [p Hp]. unfold pctOf. rewrite Hp.
  apply num_or_exact.
Qed.

Lemma sumR_abs_nonneg (l : list (JournalEntry R)) :
  (0 <= sumR (fun e => Rabs (pctOf e)) l)%R.
Proof.
  unfold sumR. induction l as [|e l IH]; cbn [fold_right]; [lra|].
  apply Rplus_le_le_0_compat; [apply Rabs_pos | exact IH].
Qed.

Lemma avgLossPct_exact (closed : list (JournalEntry R)) :
  avgLossPct closed =
    if (0 <? length (List.filter isLoss closed))%nat
    then (sumR (fun e => Rabs (pctOf e)) (List.filter isLoss closed)
          / INR (length (List.filter isLoss closed)))%R
    else 0%R.
Proof.
  unfold avgLossPct. destruct (0 <? _)%nat; [|reflexivity].
  rewrite sumOf_sumR. unfold count. exact_ops. rewrite <- INR_IZR_INZ. reflexivity.
Qed.

Lemma avgWinPct_exact (closed : list (JournalEntry R)) :
  avgWinPct closed =
    if (0 <? length (List.filter isWin closed))%nat
    then (sumR pctOf (List.filter isWin closed)
          / INR (length (List.filter isWin closed)))%R
    else 0%R.
Proof.
  unfold avgWinPct. destruct (0 <? _)%nat; [|reflexivity].
  rewrite sumOf_sumR. unfold count. exact_ops. rewrite <- INR_IZR_INZ. reflexivity.
Qed.

(** X9: In exact arithmetic an analysis splits its trades into wins and losses,
    its win rate is wins/trades, between 0 and 1, and its average P&L% is
    the mean of the pnlPct of the closed trades.  The Kelly figures come
    from a positive average win whenever there is a win, so that the win to
    loss ratio can divide; they are the "no losses" result exactly when the
    average loss is 0, which is the case without losses and also when every
    loss is a break-even trade. *)
Theorem analyzeJournal_rates (entries : list (JournalEntry R)) (a : JournalAnalysis R) :
  analyzeJournal entries = Analyzed a ->
  let closed := List.filter isClosed entries in
  (wins a + losses a)%nat = totalTrades a /\
  winRate a = (INR (wins a) / INR (totalTrades a))%R /\
  (0 <= winRate a <= 1)%R /\
  (avgPnlPct a * INR (totalTrades a) = sumR pctOf closed)%R /\
  kelly a = calcKellyCriterion (winRate a) (avgWinPct closed) (avgLossPct closed) /\
  ((0 < wins a)%nat -> (0 < avgWinPct closed)%R /\ (0 < winRate a)%R) /\
  (wins a = 0%nat -> avgWinPct closed = 0%R /\ winRate a = 0%R) /\
  (0 <= avgLossPct closed)%R /\
  (recommendation (kelly a) = NoLossesRecorded <-> avgLossPct closed = 0%R) /\
  (losses a = 0%nat -> recommendation (kelly a) = NoLossesRecorded) /\
  (Forall (fun e => isLoss e = true -> pnlPct e = Some 0%R) closed ->
   recommendation (kelly a) = NoLossesRecorded).
Proof.
  unfold analyzeJournal. cbv zeta. set (closed := List.filter isClosed entries).
  destruct (Nat.eqb_spec (length closed) 0) as [E|NE]; [discriminate|].
  intros [= <-].
  cbv beta iota delta [wins losses totalTrades winRate avgPnlPct kelly].
  rewrite <- !INR_IZR_INZ.
  change (sumOf (fun e => num_or (pnlPct e) (IZR 0)) closed)
    with (sumOf (fun e => num_or (pnlPct e) (lit 0)) closed).
  rewrite sumOf_pnlPct by apply closed_Forall.
  assert (Hn : (0 < INR (length closed))%R) by (apply lt_0_INR; lia).
  pose proof (length_filter_le isWin closed) as Hwle.
  assert (Hw0 : (0 <= INR (length (List.filter isWin closed)))%R) by apply pos_INR.
  assert (Hw1 : (INR (length (List.filter isWin closed)) <= INR (length closed))%R)
    by (apply le_INR; exact Hwle).
  assert (Hloss0 : (0 <= avgLossPct closed)%R).
  { rewrite avgLossPct_exact.
    destruct (0 <? length (List.filter isLoss closed))%nat eqn:El; [|lra].
    apply Nat.ltb_lt in El.
    apply Rmult_le_pos; [apply sumR_abs_nonneg|].
    left. apply Rinv_0_lt_compat, lt_0_INR. exact El. }
  assert (Hrec : recommendation
                   (calcKellyCriterion
                      (INR (length (List.filter isWin closed)) / INR (length closed))%R
                      (avgWinPct closed) (avgLossPct closed)) = NoLossesRecorded
                 <-> avgLossPct closed = 0%R).
  { unfold calcKellyCriterion. exact_ops. unfold Exact.eqb, Exact.leb, Exact.ltb.
    destruct (Req_dec_T (avgLossPct closed) 0) as [H0|H0]; [tauto|].
    split; [|tauto].
    destruct (Rle_dec _ 0); cbn [recommendation]; [discriminate|].
    repeat (match goal with
            | |- context [Rlt_dec ?x ?y] => destruct (Rlt_dec x y)
            | |- context [Rle_dec ?x ?y] => destruct (Rle_dec x y)
            end); discriminate. }
  split; [apply wins_plus_losses, closed_Forall|].
  split; [reflexivity|].
  split.
  { split.
    - apply Rmult_le_pos; [exact Hw0 | left; apply Rinv_0_lt_compat, Hn].
    - apply Rmult_le_reg_r with (INR (length closed)); [exact Hn|].
      unfold Rdiv. rewrite Rmult_assoc, Rinv_l by lra. lra. }
  split.
  { field. lra. }
  split; [reflexivity|].
  split.
  { intros Hpos.
    assert (Hwpos : (0 < INR (length (List.filter isWin closed)))%R)
      by (apply lt_0_INR; exact Hpos).
    split.
    - rewrite avgWinPct_exact. apply Nat.ltb_lt in Hpos. rewrite Hpos.
      apply Nat.ltb_lt in Hpos.
      apply Rmult_lt_0_compat; [|apply Rinv_0_lt_compat, Hwpos].
      destruct (sumR_wins_positive closed) as [Hs | Hs]; [exact Hs|].
      rewrite Hs in Hpos. cbn in Hpos. lia.
    - apply Rmult_lt_0_compat; [exact Hwpos | apply Rinv_0_lt_compat, Hn]. }
  split.
  { intros Hz. split.
    - rewrite avgWinPct_exact, Hz. reflexivity.
    - rewrite Hz. cbn [INR]. lra. }
  split; [exact Hloss0|].
  split; [exact Hrec|].
  split.
  - intros Hz. apply Hrec. rewrite avgLossPct_exact, Hz. reflexivity.
  - intros Hbe. apply Hrec. rewrite avgLossPct_exact.
    destruct (0 <? length (List.filter isLoss closed))%nat; [|reflexivity].
    assert (Hs : sumR (fun e => Rabs (pctOf e)) (List.filter isLoss closed) = 0%R).
    { clear -Hbe. induction Hbe as [|e l He _ IH]; [reflexivity|].
      cbn [List.filter]. destruct (isLoss e) eqn:El; [|exact IH].
      unfold sumR in *. cbn [fold_right]. rewrite IH.
      unfold pctOf. rewrite (He eq_refl). rewrite Rabs_R0. lra. }
    rewrite Hs. unfold Rdiv. apply Rmult_0_l.
Qed.

Lemma analyzeJournal_rates_witness :
  exists a, analyzeJournal
              [ {| status := "closed"; pnl := Some 5%R; pnlPct := Some 10%R;
                   chain := None; narratives := None |};
                {| status := "closed"; pnl := Some 0%R; pnlPct := Some 0%R;
                   chain := None; narratives := None |} ] = Analyzed a /\
            (wins a + losses a)%nat = totalTrades a /\
            recommendation (kelly a) = NoLossesRecorded.
Proof.
  set (entries := [ {| status := "closed"; pnl := Some 5%R; pnlPct := Some 10%R;
                       chain := None; narratives := None |};
                    {| status := "closed"; pnl := Some 0%R; pnlPct := Some 0%R;
                       chain := None; narratives := None |} ]).
  assert (Hc : List.filter isClosed entries = entries).
  { reflexivity. }
  destruct (analyzeJournal entries) as [|a] eqn:E.
  { unfold analyzeJournal in E. rewrite Hc in E. discriminate. }
  exists a. split; [reflexivity|].
  pose proof (analyzeJournal_rates entries a E) as Hr. cbv zeta in Hr.
  destruct Hr as (Hwl & _ & _ & _ & _ & _ & _ & _ & _ & _ & Hbe).
  split; [exact Hwl|]. apply Hbe. rewrite Hc. unfold entries.
  constructor; [|constructor; [|constructor]]; intros Hl.
  - unfold isLoss in Hl. cbn [pnlPct] in Hl. exact_ops.
    apply Exact_leb_spec in Hl. lra.
  - reflexivity.
Defined.

(** *** The breakdowns by chain and by narrative *)

Lemma mapTotal_insert {V} (f : V -> nat) (m : gmap string V) (k : string) (v : V) :
  (mapTotal f (<[k := v]> m) + from_option f 0 (m !! k) = f v + mapTotal f m)%nat.
Proof.
  assert (Hfresh : forall (m' : gmap string V) (x : V), m' !! k = None ->
            mapTotal f (<[k := x]> m') = (f x + mapTotal f m')%nat).
  { intros m' x Hk. unfold mapTotal.
    rewrite map_fold_insert_L; [reflexivity| |exact Hk]. intros. lia. }
  destruct (m !! k) as [v0|] eqn:E; cbn [from_option].
  - rewrite <- (insert_delete_eq m k v).
    rewrite <- (insert_delete_id m k v0 E) at 2.
    rewrite !Hfresh by apply lookup_delete_eq. lia.
  - rewrite Hfresh by exact E. lia.
Qed.

Lemma mapTotal_fmap {V} (f : V -> nat) (g : V -> V) (m : gmap string V) :
  (forall v, f (g v) = f v) -> mapTotal f (g <$> m) = mapTotal f m.
Proof.
  intros Hfg. induction m as [|k v m Hk IH] using map_ind.
  - rewrite fmap_empty. reflexivity.
  - rewrite fmap_insert.
    pose proof (mapTotal_insert f (g <$> m) k (g v)) as H1.
    pose proof (mapTotal_insert f m k v) as H2.
    rewrite lookup_fmap, Hk in H1. rewrite Hk in H2. cbn in H1, H2.
    rewrite Hfg in H1. lia.
Qed.

Section Breakdowns.
Context {T : Type} `{Number T}.

Lemma bumpChain_totals (m : gmap string (ChainStats T)) (e : JournalEntry T) :
  (forall k, inherited k = true -> m !! k = None) ->
  (forall k, inherited k = true -> bumpChain m e !! k = None) /\
  mapTotal c_trades (bumpChain m e)
    = ((if inherited (chainOf e) then 0 else 1) + mapTotal c_trades m)%nat /\
  mapTotal c_wins (bumpChain m e)
    = ((if inherited (chainOf e) then 0 else if isWin e then 1 else 0)
       + mapTotal c_wins m)%nat.
Proof.
  intros Hm. unfold bumpChain. cbv zeta.
  pose proof (mapTotal_insert c_trades m (chainOf e)) as Ht.
  pose proof (mapTotal_insert c_wins m (chainOf e)) as Hw.
  destruct (inherited (chainOf e)) eqn:Ei.
  - rewrite (Hm _ Ei). split; [exact Hm|]. split; lia.
  - assert (Hk : forall (v : ChainStats T) k,
              inherited k = true -> <[chainOf e := v]> m !! k = None).
    { intros v k Hi. rewrite lookup_insert_ne by congruence. by apply Hm. }
    destruct (m !! chainOf e) as [s|] eqn:Em; cbn [default from_option Datatypes.id];
      (split; [apply Hk|]);
      match goal with
      | |- context [<[_ := ?v]> m] => specialize (Ht v); specialize (Hw v)
      end;
      cbn in Ht, Hw |- *; destruct (isWin e); split; lia.
Qed.

Lemma groupByChain_totals (closed : list (JournalEntry T)) (m : gmap string (ChainStats T)) :
  (forall k, inherited k = true -> m !! k = None) ->
  (forall k, inherited k = true -> fold_left bumpChain closed m !! k = None) /\
  mapTotal c_trades (fold_left bumpChain closed m)
    = (mapTotal c_trades m + length (filedByChain closed))%nat /\
  mapTotal c_wins (fold_left bumpChain closed m)
    = (mapTotal c_wins m + length (List.filter isWin (filedByChain closed)))%nat.
Proof.
  revert m. unfold filedByChain.
  induction closed as [|e l IH]; intros m Hm; cbn [fold_left List.filter length].
  - split; [exact Hm|]. split; lia.
  - destruct (bumpChain_totals m e Hm) as (Hm' & Et & Ew).
    destruct (IH (bumpChain m e) Hm') as (Hk & -> & ->).
    split; [exact Hk|]. rewrite Et, Ew.
    destruct (inherited (chainOf e)); cbn [negb List.filter length]; [split; lia|].
    destruct (isWin e); cbn [length]; split; lia.
Qed.

Lemma bumpNarrative_total (e : JournalEntry T) (m : gmap string (NarrativeStats T))
    (n : string) :
  (forall k, inherited k = true -> m !! k = None) ->
  (forall k, inherited k = true -> bumpNarrative e m n !! k = None) /\
  mapTotal n_trades (bumpNarrative e m n)
    = ((if inherited n then 0 else 1) + mapTotal n_trades m)%nat.
Proof.
  intros Hm. unfold bumpNarrative.
  pose proof (mapTotal_insert n_trades m n) as Ht.
  destruct (inherited n) eqn:Ei.
  - rewrite (Hm _ Ei). split; [exact Hm|]. lia.
  - assert (Hk : forall (v : NarrativeStats T) k,
              inherited k = true -> <[n := v]> m !! k = None).
    { intros v k Hi. rewrite lookup_insert_ne by congruence. by apply Hm. }
    destruct (m !! n) as [s|] eqn:Em; cbn [default from_option Datatypes.id];
      (split; [apply Hk|]);
      match goal with
      | |- context [<[_ := ?v]> m] => specialize (Ht v)
      end;
      cbn in Ht |- *; lia.
Qed.

Lemma groupByNarrative_total (closed : list (JournalEntry T))
    (m : gmap string (NarrativeStats T)) :
  (forall k, inherited k = true -> m !! k = None) ->
  (forall k, inherited k = true ->
     fold_left (fun m e => fold_left (bumpNarrative e) (default [] (narratives e)) m)
       closed m !! k = None) /\
  mapTotal n_trades
    (fold_left (fun m e => fold_left (bumpNarrative e) (default [] (narratives e)) m)
       closed m)
  = (mapTotal n_trades m + bucketTagCount closed)%nat.
Proof.
  revert m. induction closed as [|e l IH]; intros m Hm;
    cbn [fold_left bucketTagCount fold_right].
  - split; [exact Hm|]. lia.
  - fold (bucketTagCount l).
    assert (Hin : forall tags m',
              (forall k, inherited k = true -> m' !! k = None) ->
              (forall k, inherited k = true ->
                 fold_left (bumpNarrative e) tags m' !! k = None) /\
              mapTotal n_trades (fold_left (bumpNarrative e) tags m')
              = (mapTotal n_trades m'
                 + length (List.filter (fun n => negb (inherited n)) tags))%nat).
    { induction tags as [|t ts IHt]; intros m' Hm'; cbn [fold_left List.filter length].
      - split; [exact Hm'|]. lia.
      - destruct (bumpNarrative_total e m' t Hm') as (Hm'' & Et).
        destruct (IHt _ Hm'') as (Hk & ->). split; [exact Hk|]. rewrite Et.
        destruct (inherited t); cbn [negb length]; lia. }
    destruct (Hin (default [] (narratives e)) m Hm) as (Hm' & Et).
    destruct (IH _ Hm') as (Hk & ->). split; [exact Hk|].
    rewrite Et. unfold bucketTags. lia.
Qed.

Lemma filter_all {A} (p : A -> bool) (l : list A) :
  Forall (fun x => p x = true) l -> List.filter p l = l.
Proof.
  induction 1 as [|x l Hx _ IH]; cbn [List.filter]; [reflexivity|].
  by rewrite Hx, IH.
Qed.

(** X10: The breakdowns account for the closed trades.  A chain or a
    narrative named as a member every object inherits (constructor,
    toString, ...) gets no bucket, and the trade is counted under none for
    it.  Over the chains the trade counts add up to the number of trades
    filed and the win counts to the wins among them (an entry without a
    chain is filed under "unknown"); over the narratives the trade counts
    add up to the number of tags that get a bucket, a trade with several
    tags counting once under each and an untagged one under none.  When no
    chain, or no tag, is such a name, that is every trade and every win,
    or every tag. *)
Theorem analyzeJournal_breakdowns (entries : list (JournalEntry T)) (a : JournalAnalysis T) :
  analyzeJournal entries = Analyzed a ->
  let closed := List.filter isClosed entries in
  (forall k, inherited k = true -> byChain a !! k = None /\ byNarrative a !! k = None) /\
  mapTotal c_trades (byChain a) = length (filedByChain closed) /\
  mapTotal c_wins (byChain a) = length (List.filter isWin (filedByChain closed)) /\
  mapTotal n_trades (byNarrative a) = bucketTagCount closed /\
  (Forall (fun e => inherited (chainOf e) = false) closed ->
   mapTotal c_trades (byChain a) = totalTrades a /\
   mapTotal c_wins (byChain a) = wins a) /\
  (Forall (fun e => Forall (fun n => inherited n = false) (default [] (narratives e)))
          closed ->
   mapTotal n_trades (byNarrative a) = tagCount closed) /\
  (Forall (fun e => narratives e = None \/ narratives e = Some []) entries ->
   byNarrative a = ∅).
Proof.
  unfold analyzeJournal. set (closed := List.filter isClosed entries).
  destruct (length closed =? 0)%nat; [discriminate|].
  intros [= <-]. cbv beta iota zeta delta [byChain byNarrative totalTrades wins].
  unfold groupByChain, groupByNarrative.
  assert (Hempty : forall V k, inherited k = true -> (∅ : gmap string V) !! k = None)
    by (intros; apply lookup_empty).
  destruct (groupByChain_totals closed ∅ (Hempty _)) as (Hkc & Etc & Ewc).
  destruct (groupByNarrative_total closed ∅ (Hempty _)) as (Hkn & Etn).
  assert (Hzero : forall V (f : V -> nat), mapTotal f (∅ : gmap string V) = 0%nat)
    by (intros; unfold mapTotal; apply map_fold_empty).
  rewrite Hzero in Etc, Ewc, Etn. cbn [Nat.add] in Etc, Ewc, Etn.
  rewrite mapTotal_fmap by reflexivity.
  split.
  { intros k Hk. split; [by apply Hkc|]. rewrite lookup_fmap, Hkn by done. reflexivity. }
  split; [exact Etc|]. split; [exact Ewc|]. split; [exact Etn|].
  split.
  { intros Hall. rewrite Etc, Ewc. unfold filedByChain.
    rewrite filter_all; [done|].
    eapply Forall_impl; [exact Hall|]. cbn. by intros e ->. }
  split.
  { intros Hall. rewrite Etn. clear -Hall.
    induction Hall as [|e l He _ IH]; cbn [bucketTagCount tagCount fold_right];
      [reflexivity|].
    fold (bucketTagCount l). fold (tagCount l). rewrite IH. unfold bucketTags.
    rewrite filter_all; [done|].
    eapply Forall_impl; [exact He|]. cbn. by intros n ->. }
  intros Hnone.
  assert (Hc : Forall (fun e => narratives e = None \/ narratives e = Some []) closed).
  { apply List.Forall_forall. intros e He. apply List.filter_In in He as [He _].
    revert e He. apply List.Forall_forall. exact Hnone. }
  assert (Hfold : forall m : gmap string (NarrativeStats T),
            fold_left (fun m e => fold_left (bumpNarrative e) (default [] (narratives e)) m)
              closed m = m).
  { clear -Hc. induction Hc as [|e l He _ IH]; intros m; cbn [fold_left]; [reflexivity|].
    destruct He as [-> | ->]; cbn [default fold_left]; apply IH. }
  rewrite Hfold. apply fmap_empty.
Qed.

End Breakdowns.

(** Three closed trades, the last on a chain and under a tag named
    "constructor": two are filed by chain, and three of the four tags get
    a bucket. *)
Lemma analyzeJournal_breakdowns_witness :
  let trade (pct : float) (c : option string) (tags : option (list string))
      : JournalEntry float :=
    {| status := "closed"; pnl := None; pnlPct := Some pct;
       chain := c; narratives := tags |} in
  let entries :=
    [trade 4%float (Some "sol") (Some ["ai"; "meme"]);
     trade (-1)%float None None;
     trade 3%float (Some "constructor") (Some ["ai"; "constructor"])] in
  let a := {| totalTrades := 3; wins := 2; losses := 1;
              winRate := (2 / 3)%float;
              avgPnlPct := 2%float; totalPnl := 0%float; profitFactor := Finite 0%float;
              kelly := calcKellyCriterion (2 / 3)%float 3.5%float 1%float;
              byNarrative := groupByNarrative (List.filter isClosed entries);
              byChain := groupByChain (List.filter isClosed entries);
              streaks := {| current := 1; bestWin := 1; worstLose := 1 |} |} in
  analyzeJournal entries = Analyzed a /\
  mapTotal c_trades (byChain a) = 2%nat /\
  mapTotal c_wins (byChain a) = 1%nat /\
  mapTotal n_trades (byNarrative a) = 3%nat /\
  byChain a !! "constructor" = None /\
  byNarrative a !! "constructor" = None.
Proof.
  intros trade entries a.
  assert (Ha : analyzeJournal entries = Analyzed a) by (vm_compute; reflexivity).
  destruct (analyzeJournal_breakdowns entries a Ha) as (Hk & Et & Ew & En & _).
  split; [exact Ha|].
  split; [rewrite Et; vm_compute; reflexivity|].
  split; [rewrite Ew; vm_compute; reflexivity|].
  split; [rewrite En; vm_compute; reflexivity|].
  split; apply Hk; vm_compute; reflexivity.
Defined.

(** ** The state store, call by call *)

Section StoreFacts.
Context {T : Type} `{Number T}.

Abbreviation value := (json T).
Abbreviation object := (gmap string (json T)).

Ltac steps := cbn [mbind attempt_bind mret attempt_ret diskAfter fst snd].

Lemma config_insert_ok (disk : file T) (updates : object) (k : string) :
  k = "config" ->
  exists c : object,
    JObj (updates ∪ spreadOf (loadState disk !! "config")) = JObj c /\
    dom (DEFAULT_CONFIG (T:=T)) ⊆ dom c.
Proof.
  intros _. eexists. split; [reflexivity|].
  destruct (loadState_carriesDefaults disk) as [_ (config & -> & Hc)].
  cbn [spreadOf]. rewrite dom_union_L. set_solver.
Qed.

(** What a call leaves on disk: the file as it was, or the loaded document
    with one key replaced. *)
Lemma mutate_cases (now : Z) (m : mutation T) (disk : file T) :
  mutate now m disk = disk \/
  exists v : value,
    mutate now m disk = saveState (<[writtenKey m := v]> (loadState disk)) /\
    (writtenKey m = "config" ->
     exists c : object, v = JObj c /\ dom (DEFAULT_CONFIG (T:=T)) ⊆ dom c).
Proof.
  destruct m; cbn [mutate writtenKey].
  - unfold addJournalEntry. destruct (asArray _); steps; [|by left].
    right. eexists. split; [reflexivity | discriminate].
  - unfold updateJournalEntry. destruct (asArray _) as [l|]; steps; [|by left].
    destruct (findIndex _ l) as [[i|]|]; steps; try by left.
    right. eexists. split; [reflexivity | discriminate].
  - unfold addWatchlistItem. destruct (asArray _) as [l|]; steps; [|by left].
    destruct (filterArray _ l); steps; [|by left].
    right. eexists. split; [reflexivity | discriminate].
  - unfold removeWatchlistItem. destruct (asArray _) as [l|]; steps; [|by left].
    destruct (filterArray _ l); steps; [|by left].
    right. eexists. split; [reflexivity | discriminate].
  - unfold addNarrative.
    destruct (getProp _ name) as [existing|]; steps; [|by left].
    destruct existing as [v|], (inherited name);
      try (match goal with
           | |- context [if truthyV ?m then TypeError else _] => destruct (truthyV m)
           end; steps; [by left|];
           destruct (loadState_carriesDefaults disk) as [Hdom _];
           assert (Hin : "narratives" ∈ dom (loadState disk))
             by (apply Hdom; unfold DEFAULT_STATE; set_solver);
           apply elem_of_dom in Hin as [ns Hns];
           right; exists ns; split; [by rewrite insert_id | discriminate]);
      (repeat (match goal with
               | |- context [mbind _ ?x] =>
                   let r := fresh in destruct x as [r|] eqn:?; steps; [|by left]
               end);
       right; eexists; split; [reflexivity | discriminate]).
  - unfold addScanRecord. destruct (asArray _); steps; [|by left].
    right. eexists. split; [reflexivity | discriminate].
  - unfold addPolyBet. destruct (truthyV _).
    + destruct (asArray _); steps; [|by left].
      right. eexists. split; [reflexivity | discriminate].
    + rewrite lookup_insert_eq. cbn [asArray]. steps. rewrite insert_insert_eq.
      right. eexists. split; [reflexivity | discriminate].
  - unfold updatePolyBet. destruct (negb _); steps; [by left|].
    destruct (asArray _) as [l|]; steps; [|by left].
    destruct (findIndex _ l) as [[i|]|]; steps; try by left.
    right. eexists. split; [reflexivity | discriminate].
  - unfold updateConfig. steps. right. eexists. split; [reflexivity|].
    apply config_insert_ok.
Qed.

(** What is read after a save of the loaded document with one key replaced:
    that document as JSON wrote it. *)
Lemma loadState_reread_saved_insert (disk : file T) (k : string) (v : value) :
  (k = "config" -> exists c : object, v = JObj c /\ dom (DEFAULT_CONFIG (T:=T)) ⊆ dom c) ->
  loadState (reread (saveState (<[k := v]> (loadState disk))))
  = <[k := throughJSON v]> (throughJSON <$> loadState disk).
Proof.
  intros Hk. rewrite loadState_reread_saveState; [apply fmap_insert|].
  apply carriesDefaults_insert; [apply loadState_carriesDefaults | exact Hk].
Qed.

(** X11: Every call of the store leaves the file as it was or saves the loaded
    document with the one key it works on replaced.  What is loaded after a
    write is the saved document as JSON wrote it: a key other than the one
    replaced reads as JSON wrote what was loaded, which is the same as
    before when JSON keeps the loaded document (finite numbers, no -0),
    and the whole document loads as it was saved when JSON keeps it. *)
Theorem mutate_writes_one_key (now : Z) (m : mutation T) (disk : file T) :
  mutate now m disk = disk \/
  exists v : value,
    mutate now m disk = saveState (<[writtenKey m := v]> (loadState disk)) /\
    loadState (reread (mutate now m disk))
    = <[writtenKey m := throughJSON v]> (throughJSON <$> loadState disk) /\
    (forall k : string, k <> writtenKey m ->
       loadState (reread (mutate now m disk)) !! k
       = throughJSON <$> (loadState disk !! k)) /\
    (keptByJSON (loadState disk) ->
     forall k : string, k <> writtenKey m ->
       loadState (reread (mutate now m disk)) !! k = loadState disk !! k) /\
    (keptByJSON (<[writtenKey m := v]> (loadState disk)) ->
     loadState (reread (mutate now m disk)) = <[writtenKey m := v]> (loadState disk)).
Proof.
  destruct (mutate_cases now m disk) as [-> | (v & -> & Hv)]; [by left|].
  right. exists v. split; [reflexivity|].
  rewrite loadState_reread_saved_insert by exact Hv.
  split; [reflexivity|]. split; [|split].
  - intros k Hk. rewrite lookup_insert_ne by done. apply lookup_fmap.
  - intros Hkept k Hk. rewrite lookup_insert_ne by done.
    by rewrite (keptByJSON_fmap _ Hkept).
  - intros Hkept. rewrite <- fmap_insert. by apply keptByJSON_fmap.
Qed.

(** *** The journal *)

Lemma journal_saved (disk : file T) (l : list value) :
  loadState (saveState (<["journal" := JArr l]> (loadState disk))) !! "journal"
  = Some (JArr l).
Proof. rewrite loadState_saved_insert by done. apply lookup_insert_eq. Qed.

(** X12: addJournalEntry pushes one entry and returns it: the caller's fields
    win over the generated id, the status "open" and the four null exit
    fields, and the timestamp is the caller's when that is truthy and the
    clock's otherwise.  The journal read next holds the stored entries and
    the new one as JSON wrote them, which is the entries themselves when
    JSON keeps the saved document (finite numbers, no -0).  The call
    raises, leaving the file alone, exactly when the stored journal is not
    an array. *)
Theorem addJournalEntry_appends (now : Z) (entry : object) (disk : file T) :
  (forall journal : list value,
     loadState disk !! "journal" = Some (JArr journal) ->
     exists full : object,
       addJournalEntry now entry disk
       = Done (JObj full,
               saveState (<["journal" := JArr (journal ++ [JObj full])]> (loadState disk))) /\
       loadState (reread (diskAfter disk (addJournalEntry now entry disk))) !! "journal"
       = Some (JArr (throughJSON <$> (journal ++ [JObj full]))) /\
       (keptByJSON (<["journal" := JArr (journal ++ [JObj full])]> (loadState disk)) ->
        loadState (reread (diskAfter disk (addJournalEntry now entry disk))) !! "journal"
        = Some (JArr (journal ++ [JObj full]))) /\
       (forall k v, k <> "timestamp" -> entry !! k = Some v -> full !! k = Some v) /\
       (entry !! "id" = None -> full !! "id" = Some (JStr ("j_" +:+ pretty now))) /\
       (entry !! "status" = None -> full !! "status" = Some (JStr "open")) /\
       (forall k, k ∈ ["exitPrice"; "exitTimestamp"; "pnl"; "pnlPct"] ->
                  entry !! k = None -> full !! k = Some JNull) /\
       full !! "timestamp"
       = Some (if truthyV (entry !! "timestamp")
               then default JNull (entry !! "timestamp") else JNum (of_Z now)) /\
       dom full
       = dom entry ∪ list_to_set ["id"; "status"; "exitPrice"; "exitTimestamp";
                                  "pnl"; "pnlPct"; "timestamp"]) /\
  ((forall journal : list value, loadState disk !! "journal" <> Some (JArr journal)) ->
   addJournalEntry now entry disk = TypeError /\
   diskAfter disk (addJournalEntry now entry disk) = disk).
Proof.
  split.
  - intros journal Hj. unfold addJournalEntry. rewrite Hj. cbn [asArray]. steps.
    eexists. split; [reflexivity|].
    split.
    { rewrite loadState_reread_saved_insert by done. rewrite lookup_insert_eq.
      reflexivity. }
    split.
    { intros Hkept. rewrite (reread_kept _ Hkept). apply journal_saved. }
    split; [|split; [|split; [|split; [|split]]]].
    + intros k v Hk Hv. rewrite lookup_insert_ne by done.
      by apply lookup_union_Some_l.
    + intros Hid. rewrite lookup_insert_ne by done.
      rewrite lookup_union_r by exact Hid. by simplify_map_eq.
    + intros Hs. rewrite lookup_insert_ne by done.
      rewrite lookup_union_r by exact Hs. by simplify_map_eq.
    + intros k Hk Hnone. rewrite lookup_insert_ne by set_solver.
      rewrite lookup_union_r by exact Hnone.
      repeat (apply elem_of_cons in Hk as [-> | Hk]; [by simplify_map_eq|]).
      by apply elem_of_nil in Hk.
    + apply lookup_insert_eq.
    + rewrite dom_insert_L, dom_union_L, !dom_insert_L, dom_empty_L.
      cbn [list_to_set]. set_solver.
  - intros Hno. unfold addJournalEntry.
    destruct (loadState disk !! "journal") as [[| b | x | s | l | m]|] eqn:E;
      cbn [asArray]; steps; try done.
    by destruct (Hno l).
Qed.







Lemma filterArray_total (f : bool -> bool) (k : string) (target : option value)
    (l : list value) :
  Forall (fun w => w <> JNull) l ->
  filterArray (fun w => v ← getProp (Some w) k; Done (f (strictEq v target))) l
  = Done (List.filter (fun w => f (propIs k target w)) l).
Proof.
  induction 1 as [|w l Hw _ IH]; [reflexivity|].
  cbn [filterArray List.filter]. rewrite IH.
  destruct w as [| b | x | s | a | m]; try done; cbn [getProp propIs]; steps;
    match goal with |- context [if ?c then _ else _] => by destruct c end.
Qed.



(** *** The watchlist *)






(** *** The config *)

(** X18: updateConfig overrides the loaded config, defaults included, with the
    updates, and returns the result; what getConfig reads next is that
    result as JSON wrote it, which is the result itself when JSON keeps the
    saved document (finite numbers, no -0).  No default key can be removed.
    After an update that JSON keeps, a second update leaves the file of one
    update with the second laid over the first; an empty update of a
    document that JSON keeps changes nothing a load can see. *)
Theorem updateConfig_merges (updates : object) (disk : file T) :
  exists config : object,
    getConfig disk = Some (JObj config) /\
    dom (DEFAULT_CONFIG (T:=T)) ⊆ dom config /\
    updateConfig updates disk
    = Done (JObj (updates ∪ config),
            saveState (<["config" := JObj (updates ∪ config)]> (loadState disk))) /\
    getConfig (reread (diskAfter disk (updateConfig updates disk)))
    = Some (throughJSON (JObj (updates ∪ config))) /\
    dom (DEFAULT_CONFIG (T:=T)) ⊆ dom (updates ∪ config) /\
    (keptByJSON (<["config" := JObj (updates ∪ config)]> (loadState disk)) ->
     getConfig (reread (diskAfter disk (updateConfig updates disk)))
     = Some (JObj (updates ∪ config)) /\
     forall later : object,
       diskAfter (reread (diskAfter disk (updateConfig updates disk)))
         (updateConfig later (reread (diskAfter disk (updateConfig updates disk))))
       = diskAfter disk (updateConfig (later ∪ updates) disk)) /\
    (keptByJSON (loadState disk) ->
     loadState (reread (diskAfter disk (updateConfig ∅ disk))) = loadState disk).
Proof.
  destruct (loadState_carriesDefaults disk) as [_ (config & Hc & Hdom)].
  assert (Hup : forall u : object,
            dom (DEFAULT_CONFIG (T:=T)) ⊆ dom (u ∪ config)).
  { intros u. rewrite dom_union_L. set_solver. }
  assert (Hload : forall u : object,
            loadState (saveState (<["config" := JObj (u ∪ config)]> (loadState disk)))
            = <["config" := JObj (u ∪ config)]> (loadState disk)).
  { intros u. apply loadState_saved_insert. intros _. eauto. }
  exists config. unfold getConfig, updateConfig. rewrite Hc. cbn [spreadOf]. steps.
  split; [reflexivity|]. split; [exact Hdom|]. split; [reflexivity|].
  split.
  { rewrite loadState_reread_saved_insert by (intros _; eauto).
    by rewrite lookup_insert_eq. }
  split; [apply Hup|]. split.
  - intros Hkept. rewrite (reread_kept _ Hkept). split.
    + by rewrite Hload, lookup_insert_eq.
    + intros later. rewrite Hload, lookup_insert_eq. cbn [spreadOf].
      by rewrite insert_insert_eq, (assoc_L (∪)).
  - intros Hkept. rewrite (left_id_L ∅ (∪)).
    rewrite (insert_id (loadState disk)) by exact Hc.
    rewrite (reread_kept _ Hkept).
    apply loadState_saveState, loadState_carriesDefaults.
Qed.

(** *** The narratives *)

Lemma addNarrative_existing (name : string) (mint notes : option string) (disk : file T)
    (ns r : object) (l : list value) :
  loadState disk !! "narratives" = Some (JObj ns) ->
  ns !! name = Some (JObj r) ->
  r !! "tokens" = Some (JArr l) ->
  let r1 :=
    if truthyV (JStr (T:=T) <$> mint)
       && negb (existsb (fun t => strictEq (Some t) (Some (JStr (default "" mint)))) l)
    then <["tokens" := JArr (l ++ [JStr (default "" mint)])]> r else r in
  let r2 :=
    if truthyV (JStr (T:=T) <$> notes) then <["notes" := JStr (default "" notes)]> r1
    else r1 in
  addNarrative name mint notes disk
  = Done (Own (JObj r2),
          saveState (<["narratives" := JObj (<[name := JObj r2]> ns)]> (loadState disk))).
Proof.
  intros Hns Hr Hl r1 r2. unfold addNarrative. rewrite Hns. cbn [getProp]. steps.
  rewrite Hr. cbn [truthyV from_option Datatypes.id]. steps. subst r2 r1.
  destruct (truthyV (JStr <$> mint)); cbn [andb].
  - cbn [getProp]. steps. rewrite Hl.
    destruct (existsb _ l); cbn [negb assignProp]; steps;
      destruct (truthyV (JStr <$> notes)); cbn [assignProp]; steps; reflexivity.
  - steps. destruct (truthyV (JStr <$> notes)); cbn [assignProp]; steps; reflexivity.
Qed.

Lemma addNarrative_fresh (name : string) (mint notes : option string) (disk : file T)
    (ns : object) :
  loadState disk !! "narratives" = Some (JObj ns) ->
  truthyV (ns !! name) = false ->
  (ns !! name = None -> inherited name = false) ->
  let r : object := <["tokens" := JArr []]> (<["notes" := JStr ""]> ∅) in
  let r1 :=
    if truthyV (JStr (T:=T) <$> mint)
    then <["tokens" := JArr [JStr (default "" mint)]]> r else r in
  let r2 :=
    if truthyV (JStr (T:=T) <$> notes) then <["notes" := JStr (default "" notes)]> r1
    else r1 in
  addNarrative name mint notes disk
  = Done (Own (JObj r2),
          saveState (<["narratives" := JObj (<[name := JObj r2]> ns)]> (loadState disk))).
Proof.
  intros Hns Hfalsy Hown r r1 r2. unfold addNarrative. rewrite Hns. cbn [getProp]. steps.
  assert (Hrest : forall rest : attempt (member T * file T),
            match ns !! name, inherited name with
            | None, true =>
                if truthyV (JStr (T:=T) <$> mint) then TypeError
                else Done (Inherited, saveState (loadState disk))
            | _, _ => rest
            end = rest).
  { intros rest. destruct (ns !! name) as [v|]; [reflexivity|].
    by rewrite Hown. }
  rewrite Hrest. clear Hrest.
  rewrite Hfalsy. cbn [assignProp]. steps. subst r2 r1 r.
  destruct (truthyV (JStr <$> mint)).
  - cbn [getProp]. steps. rewrite lookup_insert_eq. cbn [existsb assignProp app]. steps.
    destruct (truthyV (JStr <$> notes)) eqn:En; cbn [assignProp]; steps.
    + rewrite (insert_insert_eq _ "tokens").
      rewrite (insert_insert_ne _ "notes" "tokens") by done.
      rewrite (insert_insert_ne _ "notes" "tokens") by done.
      rewrite (insert_insert_eq _ "notes"). reflexivity.
    + rewrite (insert_insert_eq _ "tokens"). reflexivity.
  - steps. destruct (truthyV (JStr <$> notes)) eqn:En; cbn [assignProp]; steps.
    + rewrite (insert_insert_ne _ "notes" "tokens") by done.
      rewrite (insert_insert_eq _ "notes"). reflexivity.
    + reflexivity.
Qed.

Lemma addNarrative_inherited (name : string) (mint notes : option string) (disk : file T)
    (ns : object) :
  loadState disk !! "narratives" = Some (JObj ns) ->
  ns !! name = None ->
  inherited name = true ->
  addNarrative name mint notes disk
  = if truthyV (JStr (T:=T) <$> mint) then TypeError
    else Done (Inherited, saveState (loadState disk)).
Proof.
  intros Hns Hnone Hin. unfold addNarrative. rewrite Hns. cbn [getProp]. steps.
  rewrite Hnone, Hin. reflexivity.
Qed.

Lemma narratives_saved (disk : file T) (v : value) :
  loadState (saveState (<["narratives" := v]> (loadState disk)))
  = <["narratives" := v]> (loadState disk).
Proof. by rewrite loadState_saved_insert. Qed.

(** X19: Under a name that the stored narratives do not hold and that every
    object inherits a member for (constructor, toString, ...), addNarrative
    makes no record: with a mint it raises and writes nothing, without one
    it saves the document as loaded and returns that member.  Otherwise it
    creates the narrative when there is none under the name, appends the
    mint to its tokens unless it is among them, and replaces the notes when
    notes are given; the other fields of the narrative are kept, and a
    token list without duplicates stays without.  The narratives read next
    are the stored ones with the record as JSON wrote them; when JSON keeps
    the saved document (finite numbers, no -0) they hold the record as
    returned, and the same call once more returns the same record and
    leaves the same file. *)
Theorem addNarrative_records (name : string) (mint notes : option string) (disk : file T)
    (ns : object) :
  loadState disk !! "narratives" = Some (JObj ns) ->
  (ns !! name = None -> inherited name = true ->
   addNarrative name mint notes disk
   = (if truthyV (JStr (T:=T) <$> mint) then TypeError
      else Done (Inherited, saveState (loadState disk))) /\
   diskAfter disk (addNarrative name mint notes disk)
   = (if truthyV (JStr (T:=T) <$> mint) then disk else saveState (loadState disk))) /\
  (forall (base : object) (l : list value),
     ns !! name = Some (JObj base) \/
     (truthyV (ns !! name) = false /\
      (ns !! name = None -> inherited name = false) /\
      base = <["tokens" := JArr []]> (<["notes" := JStr ""]> ∅)) ->
     base !! "tokens" = Some (JArr l) ->
     let m : value := JStr (default "" mint) in
     let adds :=
       truthyV (JStr (T:=T) <$> mint)
       && negb (existsb (fun t => strictEq (Some t) (Some m)) l) in
     exists (r' : object) (disk' : file T),
       addNarrative name mint notes disk = Done (Own (JObj r'), disk') /\
       disk' = saveState (<["narratives" := JObj (<[name := JObj r']> ns)]>
                            (loadState disk)) /\
       getNarratives (reread disk') = Some (throughJSON (JObj (<[name := JObj r']> ns))) /\
       r' !! "tokens" = Some (JArr (if adds then l ++ [m] else l)) /\
       r' !! "notes"
       = (if truthyV (JStr (T:=T) <$> notes) then Some (JStr (default "" notes))
          else base !! "notes") /\
       (forall k, k <> "tokens" -> k <> "notes" -> r' !! k = base !! k) /\
       (NoDup l -> NoDup (if adds then l ++ [m] else l)) /\
       (keptByJSON (<["narratives" := JObj (<[name := JObj r']> ns)]> (loadState disk)) ->
        getNarratives (reread disk') = Some (JObj (<[name := JObj r']> ns)) /\
        addNarrative name mint notes (reread disk') = Done (Own (JObj r'), disk'))).
Proof.
  intros Hns. split.
  { intros Hnone Hin.
    rewrite (addNarrative_inherited name mint notes disk ns Hns Hnone Hin).
    by destruct (truthyV (JStr <$> mint)). }
  intros base l Hold Hl m adds.
  set (r1 := if adds then <["tokens" := JArr (l ++ [m])]> base else base).
  set (r2 := if truthyV (JStr (T:=T) <$> notes)
             then <["notes" := JStr (default "" notes)]> r1 else r1).
  set (disk' := saveState (<["narratives" := JObj (<[name := JObj r2]> ns)]>
                             (loadState disk))).
  assert (Hcall : addNarrative name mint notes disk = Done (Own (JObj r2), disk')).
  { destruct Hold as [Hold | (Hfalsy & Hown & ->)].
    - exact (addNarrative_existing name mint notes disk ns base l Hns Hold Hl).
    - rewrite lookup_insert_eq in Hl. injection Hl as <-.
      rewrite (addNarrative_fresh name mint notes disk ns Hns Hfalsy Hown).
      subst disk' r2 r1 adds m. cbn [existsb negb app]. rewrite andb_true_r.
      reflexivity. }
  assert (Htok : r2 !! "tokens" = Some (JArr (if adds then l ++ [m] else l))).
  { subst r2 r1. destruct (truthyV (JStr <$> notes)), adds; by simplify_map_eq. }
  assert (Hnotes : r2 !! "notes"
                   = if truthyV (JStr (T:=T) <$> notes) then Some (JStr (default "" notes))
                     else base !! "notes").
  { subst r2 r1. destruct (truthyV (JStr <$> notes)), adds; by simplify_map_eq. }
  assert (Hself : strictEq (Some m) (Some m) = true).
  { subst m. cbn [strictEq]. by rewrite bool_decide_eq_true_2. }
  exists r2, disk'. split; [exact Hcall|]. split; [reflexivity|].
  split.
  { unfold getNarratives, disk'. rewrite loadState_reread_saved_insert by done.
    by rewrite lookup_insert_eq. }
  split; [exact Htok|]. split; [exact Hnotes|].
  split; [|split].
  - intros k Hk1 Hk2. subst r2 r1.
    destruct (truthyV (JStr <$> notes)), adds; by simplify_map_eq.
  - intros Hnd. destruct adds eqn:Ea; [|exact Hnd].
    apply NoDup_app. split; [exact Hnd|]. split; [|apply NoDup_singleton].
    intros x Hx ->%list_elem_of_singleton.
    apply andb_true_iff in Ea as [_ Ea]. apply negb_true_iff in Ea.
    assert (Hex : existsb (fun t => strictEq (Some t) (Some m)) l = true).
    { apply existsb_exists. exists m. split; [by apply list_elem_of_In | exact Hself]. }
    congruence.
  - intros Hkept.
    assert (Hre : reread disk' = disk') by (unfold disk'; by apply reread_kept).
    rewrite Hre. split.
    { unfold getNarratives, disk'. rewrite narratives_saved. apply lookup_insert_eq. }
    rewrite (addNarrative_existing name mint notes disk' (<[name := JObj r2]> ns) r2
               (if adds then l ++ [m] else l)).
    + assert (Hsame : (if truthyV (JStr (T:=T) <$> mint)
                          && negb (existsb (fun t => strictEq (Some t) (Some m))
                                     (if adds then l ++ [m] else l))
                       then <["tokens" := JArr ((if adds then l ++ [m] else l) ++ [m])]> r2
                       else r2) = r2).
      { destruct (truthyV (JStr <$> mint)) eqn:Em; cbn [andb]; [|reflexivity].
        assert (Hin : existsb (fun t => strictEq (Some t) (Some m))
                        (if adds then l ++ [m] else l) = true).
        { destruct adds eqn:Ea.
          - rewrite existsb_app. cbn [existsb]. rewrite Hself. by rewrite orb_true_r.
          - unfold adds in Ea. rewrite ?Em in Ea. cbn [andb] in Ea.
            by apply negb_false_iff. }
        by rewrite Hin. }
      fold m. rewrite Hsame.
      assert (Hsame' : (if truthyV (JStr (T:=T) <$> notes)
                        then <["notes" := JStr (default "" notes)]> r2 else r2) = r2).
      { destruct (truthyV (JStr <$> notes)); [|reflexivity]. by apply insert_id. }
      rewrite Hsame'. unfold disk' at 1. rewrite narratives_saved.
      by rewrite !insert_insert_eq.
    + unfold disk'. rewrite narratives_saved. apply lookup_insert_eq.
    + apply lookup_insert_eq.
    + exact Htok.
Qed.

(** *** The Polymarket bets *)


(** *** Reading the journal and the bets *)

Lemma filterBy_total (k : string) (target : option value) (l : list value) :
  Forall (fun w => w <> JNull) l ->
  filterBy k target l = Done (List.filter (propIs k target) l).
Proof.
  intros Hl. unfold filterBy.
  exact (filterArray_total (fun b => b) k target l Hl).
Qed.

Lemma filterArray_hasNarrative (narrative : string) (l : list value) :
  Forall (fun j => j <> JNull /\
                   forall (m : object) v, j = JObj m -> m !! "narratives" = Some v ->
                                          exists tags, v = JArr tags) l ->
  filterArray (hasNarrative narrative) l = Done (List.filter (tagged narrative) l).
Proof.
  induction 1 as [|j l [Hnull Harr] _ IH]; [reflexivity|].
  cbn [filterArray List.filter]. rewrite IH. unfold hasNarrative.
  destruct j as [| b | x | s | a | m]; try done; cbn [getProp tagged truthyV]; steps;
    try reflexivity.
  destruct (m !! "narratives") as [v|] eqn:E; [|reflexivity].
  destruct (Harr m v eq_refl E) as [tags ->]. cbn [truthyV]. steps.
  by destruct (existsb _ tags).
Qed.

Lemma Forall_filter (Q : value -> Prop) (p : value -> bool) (l : list value) :
  Forall Q l -> Forall Q (List.filter p l).
Proof.
  induction 1 as [|x l Hx _ IH]; cbn [List.filter]; [constructor|].
  destruct (p x); [by constructor | exact IH].
Qed.

Lemma filter_sublist (p : value -> bool) (l : list value) :
  List.filter p l `sublist_of` l.
Proof.
  induction l as [|x l IH]; cbn [List.filter]; [constructor|].
  destruct (p x); by constructor.
Qed.

(** X21: getJournal filters by status, then by narrative, and only then keeps
    the last entries, so that [last] counts among the entries that passed
    the filters; the result is a part of the journal in journal order.
    Without options it is the whole journal, and with the status "open"
    alone it is what getOpenPositions gives. *)
Theorem getJournal_filters (status narrative : option string) (last : option Z)
    (disk : file T) (journal : list value) :
  loadState disk !! "journal" = Some (JArr journal) ->
  Forall (fun j => j <> JNull /\
                   forall (m : object) v, j = JObj m -> m !! "narratives" = Some v ->
                                          exists tags, v = JArr tags) journal ->
  let byStatus :=
    if truthyV (JStr (T:=T) <$> status)
    then List.filter (propIs "status" (JStr <$> status)) journal else journal in
  let byNarrative :=
    if truthyV (JStr (T:=T) <$> narrative)
    then List.filter (tagged (default "" narrative)) byStatus else byStatus in
  let result :=
    match last with
    | Some n => if (n =? 0)%Z then byNarrative else sliceFromEnd n byNarrative
    | None => byNarrative
    end in
  getJournal status narrative last disk = Done result /\
  result `sublist_of` journal /\
  (forall n, last = Some n -> (0 < n)%Z ->
     result = drop (length byNarrative - Z.to_nat n) byNarrative /\
     length result = Nat.min (Z.to_nat n) (length byNarrative)) /\
  getJournal None None None disk = Done journal /\
  getJournal (Some "open") None None disk = getOpenPositions disk.
Proof.
  intros Hj Hok byStatus byNarrative result.
  assert (Hnn : Forall (fun j => j <> JNull) journal)
    by (eapply Forall_impl; [exact Hok|]; by intros j [? _]).
  assert (Hs : byStatus `sublist_of` journal).
  { unfold byStatus. destruct (truthyV (JStr <$> status)); [apply filter_sublist | done]. }
  assert (Hn : byNarrative `sublist_of` byStatus).
  { unfold byNarrative.
    destruct (truthyV (JStr <$> narrative)); [apply filter_sublist | done]. }
  split; [|split; [|split; [|split]]].
  - unfold getJournal. rewrite Hj. cbn [spreadArray]. steps.
    assert (H1 : (if truthyV (JStr (T:=T) <$> status)
                  then filterBy "status" (JStr <$> status) journal
                  else Done journal) = Done byStatus).
    { unfold byStatus.
      destruct (truthyV (JStr <$> status)); [by apply filterBy_total | done]. }
    rewrite H1. steps.
    assert (H2 : (if truthyV (JStr (T:=T) <$> narrative)
                  then filterArray (hasNarrative (default "" narrative)) byStatus
                  else Done byStatus) = Done byNarrative).
    { unfold byNarrative. destruct (truthyV (JStr <$> narrative)); [|done].
      apply filterArray_hasNarrative. unfold byStatus.
      destruct (truthyV (JStr <$> status)); [by apply Forall_filter | done]. }
    rewrite H2. steps. reflexivity.
  - transitivity byNarrative; [|by transitivity byStatus].
    unfold result, sliceFromEnd. destruct last as [n|]; [|done].
    destruct (n =? 0)%Z; [done|]. destruct (0 <=? n)%Z; apply sublist_drop.
  - intros n -> Hpos. unfold result, sliceFromEnd.
    destruct (Z.eqb_spec n 0); [lia|]. destruct (Z.leb_spec 0 n); [|lia].
    split; [reflexivity|]. rewrite length_drop. lia.
  - unfold getJournal. rewrite Hj. reflexivity.
  - unfold getJournal, getOpenPositions. rewrite Hj.
    cbn [spreadArray asArray fmap option_fmap option_map truthyV].
    steps. rewrite bool_decide_eq_false_2 by done. cbn [negb]. steps.
    unfold filterBy. destruct (filterArray _ journal); reflexivity.
Qed.

(** X22: getPolyBets gives the stored bets, an empty list when they are falsy,
    filtered by conditionId and then by status when these are given; with
    no option it hands back whatever is stored. *)
Theorem getPolyBets_filters (conditionId status : option string) (disk : file T) :
  (forall bets : list value,
     loadState disk !! "polymarketBets" = Some (JArr bets) ->
     Forall (fun b => b <> JNull) bets ->
     let byId :=
       if truthyV (JStr (T:=T) <$> conditionId)
       then List.filter (propIs "conditionId" (JStr <$> conditionId)) bets else bets in
     let byStatus :=
       if truthyV (JStr (T:=T) <$> status)
       then List.filter (propIs "status" (JStr <$> status)) byId else byId in
     getPolyBets conditionId status disk = Done (JArr byStatus) /\
     byStatus `sublist_of` bets) /\
  (truthyV (loadState disk !! "polymarketBets") = false ->
   getPolyBets conditionId status disk = Done (JArr [])) /\
  (forall stored : value,
     loadState disk !! "polymarketBets" = Some stored -> truthyV (Some stored) = true ->
     getPolyBets None None disk = Done stored).
Proof.
  split; [|split].
  - intros bets Hb Hnn byId byStatus.
    assert (Hs : byId `sublist_of` bets).
    { unfold byId.
      destruct (truthyV (JStr <$> conditionId)); [apply filter_sublist | done]. }
    split.
    + unfold getPolyBets. rewrite Hb. cbn [truthyV from_option Datatypes.id].
      fold byId. unfold byStatus, byId.
      destruct (truthyV (JStr <$> conditionId)); cbn [asArray]; steps.
      * rewrite filterBy_total by done. steps.
        destruct (truthyV (JStr <$> status)); cbn [asArray]; steps; [|done].
        rewrite filterBy_total; [done|].
        by apply Forall_filter.
      * destruct (truthyV (JStr <$> status)); cbn [asArray]; steps; [|done].
        by rewrite filterBy_total.
    + transitivity byId; [|done].
      unfold byStatus. destruct (truthyV (JStr <$> status)); [apply filter_sublist | done].
  - intros Hf. unfold getPolyBets. rewrite Hf.
    destruct (truthyV (JStr <$> conditionId)), (truthyV (JStr <$> status));
      cbn [asArray filterBy filterArray]; steps; reflexivity.
  - intros stored Hs Ht. unfold getPolyBets. rewrite Hs, Ht. reflexivity.
Qed.

End StoreFacts.

Lemma mutate_writes_one_key_witness :
  loadState (reread (mutate 1700000000000%Z (AddJournalEntry (<["type" := JStr "buy"]> ∅))
                       (Missing (T:=float)))) !! "watchlist"
  = loadState (Missing (T:=float)) !! "watchlist".
Proof.
  destruct (mutate_writes_one_key (T:=float) 1700000000000%Z
              (AddJournalEntry (<["type" := JStr "buy"]> ∅)) Missing)
    as [E | (v & _ & _ & _ & Hk & _)].
  - vm_compute in E. discriminate E.
  - apply Hk; [vm_compute; reflexivity | vm_compute; discriminate].
Defined.

Lemma addJournalEntry_appends_witness :
  exists full : gmap string (json float),
    addJournalEntry 1700000000000%Z (<["type" := JStr "buy"]> ∅) Missing
    = Done (JObj full,
            saveState (<["journal" := JArr ([] ++ [JObj full])]> (loadState Missing))) /\
    full !! "id" = Some (JStr "j_1700000000000") /\
    full !! "status" = Some (JStr "open") /\
    full !! "timestamp" = Some (JNum 1700000000000%float).
Proof.
  destruct (proj1 (addJournalEntry_appends (T:=float) 1700000000000%Z
                     (<["type" := JStr "buy"]> ∅) Missing) [] eq_refl)
    as (full & Hcall & _ & _ & _ & Hid & Hstatus & _ & Hts & _).
  exists full. split; [exact Hcall|]. split; [exact (Hid eq_refl)|].
  split; [exact (Hstatus eq_refl) | exact Hts].
Defined.






(** A first call under a new name, and a call under the name constructor. *)
Lemma addNarrative_records_witness :
  (let base : gmap string (json float) :=
     <["tokens" := JArr []]> (<["notes" := JStr ""]> ∅) in
   let m : json float := JStr "Mint1111" in
   exists (r' : gmap string (json float)) (disk' : file float),
     addNarrative "ai agents" (Some "Mint1111") None Missing = Done (Own (JObj r'), disk') /\
     r' !! "tokens" = Some (JArr ([] ++ [m])) /\
     r' !! "notes" = base !! "notes") /\
  addNarrative "constructor" (Some "Mint1111") None (Missing (T:=float)) = TypeError /\
  diskAfter Missing (addNarrative "constructor" None (Some "note") (Missing (T:=float)))
  = saveState (loadState Missing).
Proof.
  pose proof (addNarrative_records (T:=float)) as Hthm.
  assert (Hns : loadState (Missing (T:=float)) !! "narratives" = Some (JObj ∅))
    by (vm_compute; reflexivity).
  split; [|split].
  - intros base m.
    destruct (proj2 (Hthm "ai agents" (Some "Mint1111") None Missing ∅ Hns) base [])
      as (r' & disk' & Hcall & _ & _ & Htok & Hnotes & _).
    + right. split; [reflexivity|]. split; [|reflexivity].
      intros _. vm_compute. reflexivity.
    + vm_compute. reflexivity.
    + exists r', disk'. split; [exact Hcall|]. split; [exact Htok | exact Hnotes].
  - exact (proj1 (proj1 (Hthm "constructor" (Some "Mint1111") None Missing ∅ Hns)
                    eq_refl eq_refl)).
  - exact (proj2 (proj1 (Hthm "constructor" None (Some "note") Missing ∅ Hns)
                    eq_refl eq_refl)).
Defined.


Lemma getJournal_filters_witness :
  let held : gmap string (json float) :=
    <["id" := JStr "j_1"]> (<["status" := JStr "open"]>
    (<["narratives" := JArr [JStr "ai"]]> ∅)) in
  let sold : gmap string (json float) :=
    <["id" := JStr "j_2"]> (<["status" := JStr "closed"]> ∅) in
  let disk : file float :=
    Stored (JObj (<["journal" := JArr [JObj held; JObj sold; JObj held]]> ∅)) in
  getJournal (Some "open") (Some "ai") (Some 1%Z) disk = Done [JObj held].
Proof.
  intros held sold disk.
  refine (proj1 (getJournal_filters (T:=float) (Some "open") (Some "ai") (Some 1%Z) disk
                   [JObj held; JObj sold; JObj held] _ _)).
  - vm_compute. reflexivity.
  - repeat (constructor; [split; [discriminate|]; intros m v [= <-] Hv;
                          vm_compute in Hv; try discriminate;
                          injection Hv as <-; eexists; reflexivity|]).
    constructor.
Defined.

(** ** The scorers and the analysis of a token, in exact arithmetic *)

Lemma clamp_shape (x y : R) :
  ((x <= y -> Rmax 0 (Rmin 1 x) <= Rmax 0 (Rmin 1 y)) /\
   (Rmax 0 (Rmin 1 x) = 1 <-> 1 <= x) /\
   (Rmax 0 (Rmin 1 x) = 0 <-> x <= 0))%R.
Proof.
  unfold Rmax, Rmin.
  destruct (Rle_dec 1 x), (Rle_dec 1 y);
    repeat match goal with |- context [Rle_dec ?a ?b] => destruct (Rle_dec a b) end;
    repeat split; intros; lra.
Qed.

Lemma ln_1000 : ln 1000 = (3 * ln 10)%R.
Proof.
  replace 1000%R with (10 * (10 * 10))%R by lra.
  rewrite !ln_mult by lra. lra.
Qed.

Lemma ln_10_pos : (0 < ln 10)%R.
Proof. rewrite <- ln_1. apply ln_increasing; lra. Qed.

Lemma log10_third (h : R) : (1 < h)%R ->
  ((1 <= ln h / ln 10 / 3 <-> 1000 <= h) /\ 0 < ln h / ln 10 / 3)%R.
Proof.
  intros Hh. pose proof ln_10_pos as H10.
  assert (Hpos : (0 < ln h)%R) by (rewrite <- ln_1; apply ln_increasing; lra).
  assert (Hq : (ln h / ln 10 / 3 = ln h * / (3 * ln 10))%R) by (field; lra).
  rewrite Hq. split; [split|].
  - intros H1. apply Rnot_lt_le. intros Hlt.
    apply ln_increasing in Hlt; [|lra]. rewrite ln_1000 in Hlt.
    apply (Rmult_le_compat_r (3 * ln 10)) in H1; [|lra].
    rewrite Rmult_assoc, Rinv_l in H1 by lra. lra.
  - intros H1. apply (Rmult_le_reg_r (3 * ln 10)); [lra|].
    rewrite Rmult_assoc, Rinv_l by lra.
    assert (ln 1000 <= ln h)%R
      by (destruct H1 as [H1 | <-]; [left; apply ln_increasing; lra | lra]).
    rewrite ln_1000 in *. lra.
  - apply Rmult_lt_0_compat; [exact Hpos|]. apply Rinv_0_lt_compat. lra.
Qed.

(** X23: The shape of the five scorers over the reals.  Volume grows with the
    transaction count, from 0 at no transaction to 1 from 20 on; safety
    falls with the risk count, from 1 at no risk to 0 from 5 on; liquidity
    depends on the size of the price impact only, is 1 at no impact and 0
    from 5% on; holders is 0 up to one holder, grows with the count and is 1
    from 1000 on; age falls as the token gets older and is 1 for a creation
    time that is not in the past. *)
Theorem scorers_shape :
  (forall x y : R,
     ((x <= y -> scoreVolume x <= scoreVolume y) /\
      (scoreVolume x = 1 <-> 20 <= x) /\ (scoreVolume x = 0 <-> x <= 0))%R) /\
  (forall x y : R,
     ((x <= y -> scoreSafety y <= scoreSafety x) /\
      (scoreSafety x = 1 <-> x <= 0) /\ (scoreSafety x = 0 <-> 5 <= x))%R) /\
  (forall p q : R,
     (scoreLiquidity (Some (- p)) = scoreLiquidity (Some p) /\
      (Rabs p <= Rabs q -> scoreLiquidity (Some q) <= scoreLiquidity (Some p)) /\
      (scoreLiquidity (Some p) = 1 <-> p = 0) /\
      (scoreLiquidity (Some p) = 0 <-> 5 <= Rabs p))%R) /\
  (forall h k : R,
     ((h <= k -> scoreHolders h <= scoreHolders k) /\
      (scoreHolders h = 1 <-> 1000 <= h) /\ (scoreHolders h = 0 <-> h <= 1))%R) /\
  (forall dateNow c1 c2 : R,
     (c1 <> 0 -> c2 <> 0 ->
      (c1 <= c2 -> scoreAge dateNow (Some c1) <= scoreAge dateNow (Some c2)) /\
      (dateNow / 1000 <= c1 -> scoreAge dateNow (Some c1) = 1))%R).
Proof.
  split; [|split; [|split; [|split]]].
  - intros x y. unfold scoreVolume. exact_ops.
    destruct (clamp_shape (x / 20) (y / 20)) as (Hm & H1 & H0).
    split; [intros; apply Hm; lra|]. split; [rewrite H1 | rewrite H0]; split; lra.
  - intros x y. unfold scoreSafety. exact_ops.
    destruct (clamp_shape (1 - y / 5) (1 - x / 5)) as (Hm & _ & _).
    destruct (clamp_shape (1 - x / 5) 0) as (_ & H1 & H0).
    split; [intros; apply Hm; lra|]. split; [rewrite H1 | rewrite H0]; split; lra.
  - intros p q. unfold scoreLiquidity. exact_ops.
    destruct (clamp_shape (1 - Rabs q / 5) (1 - Rabs p / 5)) as (Hm & _ & _).
    destruct (clamp_shape (1 - Rabs p / 5) 0) as (_ & H1 & H0).
    split; [by rewrite Rabs_Ropp|]. split; [intros; apply Hm; lra|].
    pose proof (Rabs_pos p) as Hp.
    split; [rewrite H1 | rewrite H0; split; lra].
    split.
    + intros Ha. destruct (Req_dec_T p 0) as [Hz|Hz]; [exact Hz|].
      apply Rabs_pos_lt in Hz. lra.
    + intros ->. rewrite Rabs_R0. lra.
  - intros h k. unfold scoreHolders. exact_ops. unfold Exact.leb.
    destruct (Rle_dec h 1) as [Hh|Hh].
    + split; [|split; split; intros; lra].
      intros _. destruct (Rle_dec k 1); [lra|]. apply clamp_unit.
    + apply Rnot_le_lt in Hh. destruct (log10_third h Hh) as [Hh1 Hh0].
      destruct (clamp_shape (ln h / ln 10 / 3) (ln k / ln 10 / 3)) as (Hm & H1 & H0).
      split; [|split].
      * intros Hhk. destruct (Rle_dec k 1); [lra|]. apply Hm.
        pose proof ln_10_pos.
        assert (ln h <= ln k)%R
          by (destruct Hhk as [Hlt | <-]; [left; apply ln_increasing; lra | lra]).
        apply Rmult_le_compat_r; [lra|]. apply Rmult_le_compat_r; [|lra].
        left. by apply Rinv_0_lt_compat.
      * rewrite H1. exact Hh1.
      * rewrite H0. split; intros; lra.
  - intros dateNow c1 c2 Hc1 Hc2. rewrite !scoreAge_known by assumption. split.
    + intros Hle. 
      assert (Rmax 0 (dateNow / 1000 - c2) <= Rmax 0 (dateNow / 1000 - c1))%R
        by (apply Rle_max_compat_l; lra).
      set (a1 := Rmax 0 (dateNow / 1000 - c1)) in *.
      set (a2 := Rmax 0 (dateNow / 1000 - c2)) in *.
      destruct (Req_dec_T a1 a2) as [-> | Hne]; [lra|].
      left. apply exp_increasing. lra.
    + intros Hfut. rewrite Rmax_left by lra.
      replace (- 0 / 86400)%R with 0%R by lra. apply exp_0.
Qed.

(** X24: analyzeToken's token passes the filters exactly when the holders fetch
    answered with at least 10 accounts and a top-10 concentration of at
    most 50, the quote fetch answered, and the safety fetch failed or
    reported no risk.  A concentration that is missing or 0 counts as 100,
    so such a token never passes; a failed holders fetch excludes the token
    and a failed safety fetch does not. *)
Theorem analyzeToken_passes_iff (dateNow : R) (mint : string) (createdAt : option R)
    (holdersResult : option (HoldersInfo R)) (safetyResult : option (SafetyInfo R))
    (quoteResult : option (QuoteInfo R)) (txResult : option (list (TxInfo R))) :
  let m := analyzeToken dateNow mint createdAt
             holdersResult safetyResult quoteResult txResult in
  (passesFilters m = true <->
   (exists h, holdersResult = Some h /\
              (10 <= num_or (totalAccounts h) 0)%R /\
              (num_or (top10ConcentrationPct h) 100 <= 50)%R) /\
   (forall s, safetyResult = Some s -> (s_riskCount s <= 0)%R) /\
   (exists q, quoteResult = Some q)) /\
  (holdersResult = None -> passesFilters m = false) /\
  (forall h, holdersResult = Some h ->
     top10ConcentrationPct h = None \/ top10ConcentrationPct h = Some 0%R ->
     passesFilters m = false) /\
  (passesFilters m = true ->
   passesFilters (analyzeToken dateNow mint createdAt
                    holdersResult None quoteResult txResult) = true).
Proof.
  intros m.
  assert (Hiff : forall sr,
    passesFilters (analyzeToken dateNow mint createdAt holdersResult sr quoteResult txResult)
      = true <->
    (exists h, holdersResult = Some h /\
               (10 <= num_or (totalAccounts h) 0)%R /\
               (num_or (top10ConcentrationPct h) 100 <= 50)%R) /\
    (forall s, sr = Some s -> (s_riskCount s <= 0)%R) /\
    (exists q, quoteResult = Some q)).
  { intros sr. rewrite passesFilters_true_iff. unfold analyzeToken.
    cbn [setScore holderCount topHolderPct hasCriticalRisk quotable].
    change (lit 0) with 0%R. change (lit 100) with 100%R.
    destruct holdersResult as [h|], sr as [s|], quoteResult as [q|];
      (split; [intros (Hh & Ht & Hc & Hq) | intros ((h' & Hh & Hc & Ht) & Hs & (q' & Hq))]);
      try discriminate; try lra.
    - split; [eauto|]. split; [|eauto]. intros s' [= <-].
      apply Rnot_lt_le. intros Hlt. apply Exact_ltb_spec in Hlt.
      exact_ops. congruence.
    - injection Hh as <-. repeat split; try assumption.
      specialize (Hs s eq_refl). exact_ops. unfold Exact.ltb.
      destruct (Rlt_dec 0 (s_riskCount s)); [lra | reflexivity].
    - split; [eauto|]. split; [|eauto]. intros s' [=].
    - injection Hh as <-. repeat split; assumption. }
  split; [apply Hiff|]. split; [|split].
  - intros ->. apply not_true_is_false. intros Hp. apply Hiff in Hp as ((h & [=] & _) & _).
  - intros h -> Htop. apply not_true_is_false. intros Hp.
    apply Hiff in Hp as ((h' & [= <-] & _ & Ht) & _).
    destruct Htop as [Htop | Htop]; rewrite Htop in Ht; cbn [num_or] in Ht;
      exact_ops; try lra.
    unfold Exact.truthy, Exact.eqb in Ht. destruct (Req_dec_T 0 0); cbn in Ht; lra.
  - intros Hp. apply Hiff in Hp as (Hh & _ & Hq). apply Hiff.
    split; [exact Hh|]. split; [intros s [=] | exact Hq].
Qed.

Lemma scoreAge_unit (dateNow : R) (createdAt : option R) :
  (0 < scoreAge dateNow createdAt <= 1)%R.
Proof.
  destruct createdAt as [c|]; [destruct (Req_dec_T c 0) as [->|Hc]|].
  - rewrite scoreAge_unknown by auto. lra.
  - rewrite scoreAge_known by exact Hc. split; [apply exp_pos|].
    apply exp_le_1.
    pose proof (Rmax_l 0 (dateNow / 1000 - c)).
    apply Rmult_le_reg_r with 86400%R; [lra|].
    unfold Rdiv. rewrite Rmult_assoc, Rinv_l by lra. lra.
  - rewrite scoreAge_unknown by auto. lra.
Qed.

Lemma scoreHolders_unit (h : R) : (0 <= scoreHolders h <= 1)%R.
Proof.
  unfold scoreHolders. exact_ops. unfold Exact.leb.
  destruct (Rle_dec h 1); [lra | apply clamp_unit].
Qed.

Lemma scoreHolders_ten (h : R) : (10 <= h -> 1 / 3 <= scoreHolders h)%R.
Proof.
  intros Hh. unfold scoreHolders. exact_ops. unfold Exact.leb.
  destruct (Rle_dec h 1); [lra|].
  pose proof ln_10_pos as H10.
  assert (Hln : (ln 10 <= ln h)%R)
    by (destruct Hh as [Hlt | <-]; [left; apply ln_increasing; lra | lra]).
  assert (Hq : (1 / 3 <= ln h / ln 10 / 3)%R).
  { apply Rmult_le_compat_r; [lra|].
    apply (Rmult_le_reg_r (ln 10)); [lra|].
    unfold Rdiv. rewrite Rmult_assoc, Rinv_l by lra. lra. }
  unfold Rmax, Rmin.
  destruct (Rle_dec 1 (ln h / ln 10 / 3));
    repeat match goal with |- context [Rle_dec ?a ?b] => destruct (Rle_dec a b) end; lra.
Qed.

Lemma analyzeToken_units (dateNow : R) (mint : string) (createdAt : option R)
    (holdersResult : option (HoldersInfo R)) (safetyResult : option (SafetyInfo R))
    (quoteResult : option (QuoteInfo R)) (txResult : option (list (TxInfo R))) :
  let m := analyzeToken dateNow mint createdAt
             holdersResult safetyResult quoteResult txResult in
  (0 <= liquidityScore m <= 1)%R /\ (0 <= volumeScore m <= 1)%R /\
  (0 <= holdersScore m <= 1)%R /\ (0 <= safetyScore m <= 1)%R /\
  (0 < ageScore m <= 1)%R.
Proof.
  intros m. unfold m, analyzeToken.
  cbn [setScore liquidityScore volumeScore holdersScore safetyScore ageScore].
  split; [|split; [|split; [|split]]].
  - destruct quoteResult; [|change (lit 0) with 0%R; lra].
    unfold scoreLiquidity. exact_ops. apply clamp_unit.
  - destruct txResult; [|change (lit 0) with 0%R; lra].
    unfold scoreVolume. exact_ops. apply clamp_unit.
  - destruct holdersResult; [apply scoreHolders_unit | change (lit 0) with 0%R; lra].
  - destruct safetyResult; [|change (lit 0) with 0%R; lra].
    unfold scoreSafety. exact_ops. apply clamp_unit.
  - apply scoreAge_unit.
Qed.

Lemma computeScore_sum (m : Metrics R) :
  computeScore m
  = (25 / 100 * liquidityScore m + 20 / 100 * volumeScore m
     + 20 / 100 * holdersScore m + 20 / 100 * safetyScore m
     + 15 / 100 * ageScore m)%R.
Proof.
  unfold computeScore. cbn [WEIGHTS w_liquidity w_volume w_holders w_safety w_age].
  exact_ops. reflexivity.
Qed.

Lemma analyzeToken_scored (dateNow : R) (mint : string) (createdAt : option R)
    (holdersResult : option (HoldersInfo R)) (safetyResult : option (SafetyInfo R))
    (quoteResult : option (QuoteInfo R)) (txResult : option (list (TxInfo R))) :
  exists s : R,
    score (analyzeToken dateNow mint createdAt
             holdersResult safetyResult quoteResult txResult) = Some s /\
    (0 < s <= 1)%R.
Proof.
  pose proof (analyzeToken_units dateNow mint createdAt holdersResult safetyResult
                quoteResult txResult) as (Hl & Hv & Hh & Hs & Ha).
  set (m := analyzeToken _ _ _ _ _ _ _) in *.
  exists (computeScore m). split; [reflexivity|]. rewrite computeScore_sum. lra.
Qed.

(** X25: The score analyzeToken assigns is the weighted sum of its sub-scores
    and lies between 0 and 1.  A fetch that fails leaves its sub-score at
    0: with all four failing, the score is 0.15 times the age score.  In a
    token that passes the filters the safety score is all or nothing (1 when
    the safety fetch answered, 0 when it failed), the holders score is at
    least 1/3 and the score above 1/15. *)
Theorem analyzeToken_score (dateNow : R) (mint : string) (createdAt : option R)
    (holdersResult : option (HoldersInfo R)) (safetyResult : option (SafetyInfo R))
    (quoteResult : option (QuoteInfo R)) (txResult : option (list (TxInfo R))) :
  let m := analyzeToken dateNow mint createdAt
             holdersResult safetyResult quoteResult txResult in
  exists s : R,
    score m = Some s /\
    (s = 25 / 100 * liquidityScore m + 20 / 100 * volumeScore m
         + 20 / 100 * holdersScore m + 20 / 100 * safetyScore m
         + 15 / 100 * ageScore m)%R /\
    (0 < s <= 1)%R /\
    (holdersResult = None -> holdersScore m = 0%R) /\
    (safetyResult = None -> safetyScore m = 0%R) /\
    (quoteResult = None -> liquidityScore m = 0%R) /\
    (txResult = None -> volumeScore m = 0%R) /\
    ageScore m = scoreAge dateNow createdAt /\
    (passesFilters m = true ->
     safetyScore m = match safetyResult with Some _ => 1 | None => 0 end%R /\
     (1 / 3 <= holdersScore m)%R /\ (1 / 15 < s)%R).
Proof.
  intros m.
  pose proof (analyzeToken_units dateNow mint createdAt holdersResult safetyResult
                quoteResult txResult) as (Hl & Hv & Hh & Hs & Hau).
  fold m in Hl, Hv, Hh, Hs, Hau.
  exists (computeScore m). split; [reflexivity|].
  pose proof (computeScore_sum m) as Hsum.
  split; [exact Hsum|]. rewrite Hsum. split; [lra|].
  split; [by intros ->|]. split; [by intros ->|]. split; [by intros ->|].
  split; [by intros ->|]. split; [reflexivity|].
  intros Hp.
  assert (Hsafe : safetyScore m = match safetyResult with Some _ => 1 | None => 0 end%R).
  { apply passesFilters_true_iff in Hp as (_ & _ & Hc & _).
    unfold m, analyzeToken in Hc |- *. cbn [setScore safetyScore hasCriticalRisk] in Hc |- *.
    destruct safetyResult as [s|]; [|reflexivity].
    unfold scoreSafety. exact_ops. unfold Exact.ltb in Hc.
    destruct (Rlt_dec 0 (s_riskCount s)); [discriminate|].
    unfold Rmax, Rmin.
    destruct (Rle_dec 1 (1 - s_riskCount s / 5));
      repeat match goal with |- context [Rle_dec ?a ?b] => destruct (Rle_dec a b) end; lra. }
  assert (Hten : (1 / 3 <= holdersScore m)%R).
  { apply passesFilters_true_iff in Hp as (Hc & _).
    unfold m, analyzeToken in Hc |- *. cbn [setScore holdersScore holderCount] in Hc |- *.
    destruct holdersResult as [h|]; [by apply scoreHolders_ten|].
    change (lit 0) with 0%R in Hc. lra. }
  split; [exact Hsafe|]. split; [exact Hten|]. lra.
Qed.

(** ** From the pool signatures to the mints *)

Section ExtractFacts.
Context {T : Type} `{Number T}.

Abbreviation MintMap := (list (string * MintInfo T)).

Lemma has_spec (mints : MintMap) (mint : string) :
  has mints mint = true <-> mint ∈ mints.*1.
Proof.
  unfold has. rewrite existsb_exists, list_elem_of_fmap. split.
  - intros (e & He & Hk). apply bool_decide_eq_true in Hk.
    exists e. split; [done | by apply list_elem_of_In].
  - intros (e & -> & He). exists e. split; [by apply list_elem_of_In|].
    by apply bool_decide_eq_true.
Qed.

Lemma tokenMintsOf_spec (balances : list (option string)) (mint : string) :
  mint ∈ tokenMintsOf balances <->
  Some mint ∈ balances /\ mint <> "" /\ mint <> WSOL_MINT.
Proof.
  unfold tokenMintsOf.
  assert (Hgen : forall acc : list string,
    mint ∈ fold_left
      (fun tokenMints bal =>
         match bal with
         | Some mint =>
             if negb (bool_decide (mint = "")) && negb (bool_decide (mint = WSOL_MINT))
             then if bool_decide (mint ∈ tokenMints) then tokenMints
                  else tokenMints ++ [mint]
             else tokenMints
         | None => tokenMints
         end) balances acc
    <-> mint ∈ acc \/ (Some mint ∈ balances /\ mint <> "" /\ mint <> WSOL_MINT)).
  { induction balances as [|bal rest IH]; intros acc; cbn [fold_left].
    - rewrite elem_of_nil. tauto.
    - rewrite IH, elem_of_cons. destruct bal as [b|]; [|naive_solver].
      repeat case_bool_decide; cbn [negb andb];
        rewrite ?elem_of_app, ?list_elem_of_singleton; naive_solver. }
  rewrite Hgen, elem_of_nil. tauto.
Qed.

Lemma recordMints_keys (mints : MintMap) (r : option (SignatureMints T)) (key : string) :
  key ∈ (recordMints mints r).*1 <->
  key ∈ mints.*1 \/ exists r', r = Some r' /\ key ∈ sm_mints r'.
Proof.
  destruct r as [r|]; cbn [recordMints]; [|naive_solver].
  assert (Hgen : forall (ms : list string) (mints : MintMap),
    key ∈ (fold_left
             (fun mints mint =>
                if has mints mint then mints
                else mints ++ [(mint, {| createdAt := sm_blockTime r;
                                         mi_dex := sm_dex r;
                                         mi_signature := sm_signature r |})])
             ms mints).*1
    <-> key ∈ mints.*1 \/ key ∈ ms).
  { induction ms as [|m ms IH]; intros mints'; cbn [fold_left].
    - rewrite elem_of_nil. tauto.
    - rewrite IH. destruct (has mints' m) eqn:E.
      + apply has_spec in E. rewrite elem_of_cons. naive_solver.
      + rewrite fmap_app, elem_of_app. cbn [fmap list_fmap fst].
        rewrite list_elem_of_singleton, elem_of_cons. naive_solver. }
  rewrite Hgen. naive_solver.
Qed.

Lemma recordMints_inv (Q : string * MintInfo T -> Prop) (mints : MintMap)
    (r : option (SignatureMints T)) :
  NoDup mints.*1 -> Forall Q mints ->
  (forall r' mint, r = Some r' -> mint ∈ sm_mints r' ->
     Q (mint, {| createdAt := sm_blockTime r'; mi_dex := sm_dex r';
                 mi_signature := sm_signature r' |})) ->
  NoDup (recordMints mints r).*1 /\ Forall Q (recordMints mints r) /\
  exists added, recordMints mints r = mints ++ added.
Proof.
  destruct r as [r|]; cbn [recordMints];
    [|intros; split; [done|split; [done|exists []; by rewrite app_nil_r]]].
  intros Hnd HQ Hr.
  assert (Hms : forall mint, mint ∈ sm_mints r ->
            Q (mint, {| createdAt := sm_blockTime r; mi_dex := sm_dex r;
                        mi_signature := sm_signature r |})) by eauto.
  clear Hr. revert mints Hnd HQ Hms. generalize (sm_mints r) as ms.
  induction ms as [|m ms IH]; intros mints Hnd HQ Hms; cbn [fold_left].
  - split; [done|]. split; [done|]. exists []. by rewrite app_nil_r.
  - destruct (has mints m) eqn:E.
    + apply IH; [done | done |]. intros mint Hm. apply Hms. by right.
    + destruct (IH (mints ++ [(m, {| createdAt := sm_blockTime r; mi_dex := sm_dex r;
                                     mi_signature := sm_signature r |})]))
        as (Hnd' & HQ' & (added & Hadd)).
      * rewrite fmap_app. apply NoDup_app. split; [done|]. split; [|apply NoDup_singleton].
        intros x Hx Hx2. cbn [fmap list_fmap fst] in Hx2.
        apply list_elem_of_singleton in Hx2 as ->. apply has_spec in Hx.
        rewrite E in Hx. discriminate.
      * apply Forall_app. split; [done|]. constructor; [|constructor]. apply Hms. by left.
      * intros mint Hm. apply Hms. by right.
      * split; [done|]. split; [done|]. eexists. rewrite Hadd, <- app_assoc. reflexivity.
Qed.

Lemma recordAll_keys (results : list (option (SignatureMints T))) (mints : MintMap)
    (key : string) :
  key ∈ (fold_left recordMints results mints).*1 <->
  key ∈ mints.*1 \/ exists r, Some r ∈ results /\ key ∈ sm_mints r.
Proof.
  revert mints. induction results as [|r rs IH]; intros mints; cbn [fold_left].
  - split; [tauto|]. intros [? | (r' & ?%elem_of_nil & _)]; done.
  - rewrite IH, recordMints_keys. setoid_rewrite elem_of_cons. naive_solver.
Qed.

Lemma recordAll_inv (Q : string * MintInfo T -> Prop)
    (results : list (option (SignatureMints T))) (mints : MintMap) :
  NoDup mints.*1 -> Forall Q mints ->
  (forall r mint, Some r ∈ results -> mint ∈ sm_mints r ->
     Q (mint, {| createdAt := sm_blockTime r; mi_dex := sm_dex r;
                 mi_signature := sm_signature r |})) ->
  NoDup (fold_left recordMints results mints).*1 /\
  Forall Q (fold_left recordMints results mints) /\
  (length mints <= length (fold_left recordMints results mints))%nat.
Proof.
  revert mints. induction results as [|r rs IH]; intros mints Hnd HQ Hr; cbn [fold_left].
  - done.
  - destruct (recordMints_inv Q mints r Hnd HQ) as (Hnd' & HQ' & (added & Hadd)).
    { intros r' mint -> Hm. apply Hr; [by left | done]. }
    destruct (IH (recordMints mints r) Hnd' HQ') as (Hnd'' & HQ'' & Hlen).
    { intros r' mint Hr' Hm. apply Hr; [by right | done]. }
    split; [done|]. split; [done|].
    rewrite Hadd in Hlen |- *. rewrite length_app in Hlen. lia.
Qed.

Lemma take_min_length {A} (n : nat) (l : list A) :
  take (Nat.min n (length l)) l = take n l.
Proof.
  destruct (Nat.le_ge_cases n (length l)) as [Hle | Hge].
  - by rewrite Nat.min_l.
  - rewrite Nat.min_r by done. by rewrite !take_ge.
Qed.

(** The loop records whole batches of a prefix of the signatures, and the
    whole list unless the limit was reached. *)
Lemma extractLoop_prefix (getParsedTransaction : string -> option (ParsedTransaction T))
    (limit : Z) (fuel : nat) (sigs : list (PoolSignature T)) (mints : MintMap) :
  (length sigs <= fuel)%nat ->
  exists n : nat,
    (n <= length sigs)%nat /\
    extractLoop fuel getParsedTransaction sigs limit mints
    = fold_left recordMints (signatureMints getParsedTransaction <$> take n sigs) mints /\
    (n = length sigs \/
     (limit <= Z.of_nat (length (extractLoop fuel getParsedTransaction sigs limit mints)))%Z).
Proof.
  revert sigs mints. induction fuel as [|fuel IH]; intros sigs mints Hfuel.
  - destruct sigs; [|cbn in Hfuel; lia]. exists 0%nat. cbn. auto.
  - destruct sigs as [|s rest]; [exists 0%nat; cbn; auto|].
    cbn [extractLoop].
    destruct (Z.ltb_spec (Z.of_nat (length mints)) limit) as [Hlt | Hge].
    + set (sigs := s :: rest) in *.
      destruct (IH (drop 5 sigs)
                  (fold_left recordMints
                     (signatureMints getParsedTransaction <$> take 5 sigs) mints))
        as (n & Hn & Heq & Hstop).
      { rewrite length_drop. unfold sigs in *. cbn [length] in *. lia. }
      exists (Nat.min (5 + n) (length sigs)). split; [lia|]. split.
      * rewrite Heq, take_min_length, <- take_take_drop, fmap_app, fold_left_app.
        reflexivity.
      * destruct Hstop as [-> | Hstop]; [left | by right].
        rewrite length_drop. lia.
    + exists 0%nat. split; [lia|]. split; [reflexivity | by right].
Qed.

Lemma extractMints_nonpositive
    (getParsedTransaction : string -> option (ParsedTransaction T))
    (sigs : list (PoolSignature T)) (limit : Z) :
  (limit <= 0)%Z -> extractMintsFromSignatures getParsedTransaction sigs limit = [].
Proof.
  intros Hlim. unfold extractMintsFromSignatures.
  destruct sigs as [|s rest]; [reflexivity|]. cbn [length extractLoop].
  destruct (_ <? limit)%Z eqn:E; [|reflexivity]. apply Z.ltb_lt in E. cbn in E. lia.
Qed.

(** X26: extractMintsFromSignatures gives each mint once, never the wrapped SOL
    mint or an empty one, and each from a transaction of one of the
    signatures, whose signature and DEX it carries.  With a limit that is
    not positive nothing is extracted; when fewer mints than the limit come
    out, no transaction was left unread: every usable mint of every
    transaction that could be fetched is there.  More fuel than there are
    signatures changes nothing. *)
Theorem extractMintsFromSignatures_sound
    (getParsedTransaction : string -> option (ParsedTransaction T))
    (sigs : list (PoolSignature T)) (limit : Z) :
  let mintMap := extractMintsFromSignatures getParsedTransaction sigs limit in
  NoDup mintMap.*1 /\
  Forall (fun e =>
            fst e <> "" /\ fst e <> WSOL_MINT /\
            exists sig tx,
              sig ∈ sigs /\ getParsedTransaction (signature sig) = Some tx /\
              Some (fst e) ∈ default [] (postTokenBalances tx) /\
              mi_signature (snd e) = signature sig /\ mi_dex (snd e) = dex sig)
         mintMap /\
  ((limit <= 0)%Z -> mintMap = []) /\
  ((Z.of_nat (length mintMap) < limit)%Z ->
   forall sig tx mint,
     sig ∈ sigs -> getParsedTransaction (signature sig) = Some tx ->
     Some mint ∈ default [] (postTokenBalances tx) ->
     mint <> "" -> mint <> WSOL_MINT ->
     mint ∈ mintMap.*1) /\
  (forall fuel, (length sigs <= fuel)%nat ->
     extractLoop fuel getParsedTransaction sigs limit [] = mintMap).
Proof.
  intros mintMap.
  destruct (extractLoop_prefix getParsedTransaction limit (length sigs) sigs [] (le_n _))
    as (n & Hn & Heq & Hstop).
  fold (extractMintsFromSignatures getParsedTransaction sigs limit) in Heq, Hstop.
  fold mintMap in Heq, Hstop.
  set (Q := fun e : string * MintInfo T =>
            fst e <> "" /\ fst e <> WSOL_MINT /\
            exists sig tx,
              sig ∈ sigs /\ getParsedTransaction (signature sig) = Some tx /\
              Some (fst e) ∈ default [] (postTokenBalances tx) /\
              mi_signature (snd e) = signature sig /\ mi_dex (snd e) = dex sig).
  assert (Hres : forall r, Some r ∈ signatureMints getParsedTransaction <$> take n sigs ->
            exists sig tx, sig ∈ take n sigs /\
              getParsedTransaction (signature sig) = Some tx /\
              sm_mints r = tokenMintsOf (default [] (postTokenBalances tx)) /\
              sm_signature r = signature sig /\ sm_dex r = dex sig).
  { intros r (sig & Hr & Hsig)%list_elem_of_fmap. unfold signatureMints in Hr.
    destruct (getParsedTransaction (signature sig)) as [tx|] eqn:E; [|discriminate].
    injection Hr as ->. exists sig, tx. done. }
  destruct (recordAll_inv Q (signatureMints getParsedTransaction <$> take n sigs) [])
    as (Hnd & HQ & _).
  { constructor. }
  { constructor. }
  { intros r mint Hr Hm. destruct (Hres r Hr) as (sig & tx & Hsig & Htx & Hms & Hs & Hd).
    rewrite Hms in Hm. apply tokenMintsOf_spec in Hm as (Hin & Hne & Hw).
    split; [done|]. split; [done|]. exists sig, tx.
    split; [by eapply subseteq_take|]. done. }
  rewrite <- Heq in Hnd, HQ.
  split; [exact Hnd|]. split; [exact HQ|]. split; [|split].
  - apply extractMints_nonpositive.
  - intros Hlt sig tx mint Hsig Htx Hin Hne Hw.
    destruct Hstop as [-> | Hstop]; [|lia].
    rewrite firstn_all in Heq. rewrite Heq. apply recordAll_keys. right.
    exists {| sm_mints := tokenMintsOf (default [] (postTokenBalances tx));
              sm_blockTime :=
                match tx_blockTime tx with
                | Some t => if truthy t then Some t else sig_blockTime sig
                | None => sig_blockTime sig
                end;
              sm_dex := dex sig;
              sm_signature := signature sig |}.
    split.
    + apply list_elem_of_fmap. exists sig. split; [|done].
      unfold signatureMints. by rewrite Htx.
    + cbn [sm_mints]. by apply tokenMintsOf_spec.
  - intros fuel Hfuel.
    assert (Hmore : forall fuel (l : list (PoolSignature T)) mints,
              (length l <= fuel)%nat ->
              extractLoop fuel getParsedTransaction l limit mints
              = extractLoop (length l) getParsedTransaction l limit mints).
    { clear. intros fuel l. remember (length l) as k eqn:Hk.
      revert fuel l Hk.
      induction k as [k IHk] using lt_wf_ind. intros fuel l -> mints Hfuel.
      destruct l as [|s rest]; [by destruct fuel|].
      destruct fuel as [|fuel]; [cbn in Hfuel; lia|].
      cbn [length extractLoop].
      destruct (Z.ltb _ limit); [|reflexivity].
      set (l := s :: rest) in *.
      assert (Hd : (length (drop 5 l) < length l)%nat)
        by (rewrite length_drop; unfold l; cbn [length]; lia).
      rewrite (IHk (length (drop 5 l)) Hd fuel (drop 5 l) eq_refl)
        by (unfold l in *; cbn [length] in *; lia).
      rewrite (IHk (length (drop 5 l)) Hd (length rest) (drop 5 l) eq_refl)
        by (rewrite length_drop; unfold l; cbn [length]; lia).
      reflexivity. }
    apply Hmore, Hfuel.
Qed.

End ExtractFacts.

(** ** The report of scanNewTokens *)

Lemma round_bounds (x : R) : (x - 1 / 2 < round x <= x + 1 / 2)%R.
Proof.
  cbn [round R_Rounding].
  destruct (base_Int_part (x + / 2)) as [Hle Hgt]. lra.
Qed.

Lemma round_mono (x y : R) : (x <= y -> round x <= round y)%R.
Proof.
  intros Hxy. pose proof (round_bounds x) as Hx. pose proof (round_bounds y) as Hy.
  cbn [round R_Rounding] in *. apply IZR_le.
  assert (Hlt : (IZR (Int_part (x + / 2)) < IZR (Int_part (y + / 2) + 1))%R)
    by (rewrite plus_IZR; lra).
  apply lt_IZR in Hlt. lia.
Qed.

Lemma shown_unit (s : R) :
  (0 <= s <= 1 -> 0 <= round (s * 1000) / 1000 <= 1 /\
                  Rabs (round (s * 1000) / 1000 - s) <= 1 / 2000)%R.
Proof.
  intros Hs. pose proof (round_bounds (s * 1000)) as Hb.
  cbn [round R_Rounding] in *. set (z := Int_part (s * 1000 + / 2)) in *.
  assert (H0 : (-1 < z)%Z) by (apply lt_IZR; lra).
  assert (H1 : (z < 1001)%Z) by (apply lt_IZR; lra).
  assert (H0' : (0 <= IZR z)%R) by (apply IZR_le; lia).
  assert (H1' : (IZR z <= 1000)%R) by (apply IZR_le; lia).
  split; [lra|]. apply Rabs_le. lra.
Qed.

Lemma length_omap_le {A B} (f : A -> option B) (l : list A) :
  (length (omap f l) <= length l)%nat.
Proof.
  induction l as [|x l IH]; cbn [omap list_omap length]; [lia|].
  destruct (f x); cbn [length]; lia.
Qed.

Section ReportFacts.
Context {T : Type} `{Number T} `{Transcendental T}.

Lemma analyzeLoop_inv (Q : Metrics T * string -> Prop)
    (fetched : string -> option (Fetched T)) (limit : Z) (fuel : nat)
    (entries : list (string * MintInfo T)) (analyzed : list (Metrics T * string)) :
  Forall Q analyzed ->
  (forall e r, e ∈ entries -> analyzeEntry fetched e = Some r -> Q r) ->
  (Z.of_nat (length analyzed) < Z.max 0 (limit * 2) + 5)%Z ->
  let result := analyzeLoop fuel fetched entries limit analyzed in
  Forall Q result /\
  (length result <= length analyzed + length entries)%nat /\
  (Z.of_nat (length result) < Z.max 0 (limit * 2) + 5)%Z.
Proof.
  revert entries analyzed. induction fuel as [|fuel IH]; intros entries analyzed HQ He Hlen;
    cbn [analyzeLoop]; [split; [done|split; [lia|done]]|].
  destruct entries as [|e rest]; [split; [done|split; [lia|done]]|].
  destruct (Z.ltb_spec (Z.of_nat (length analyzed)) (limit * 2)) as [Hlt | Hge];
    [|split; [done|split; [lia|done]]].
  set (entries := e :: rest) in *.
  set (new := omap (fun r => r) (analyzeEntry fetched <$> take 5 entries)).
  assert (Hnew : (length new <= Nat.min 5 (length entries))%nat).
  { unfold new. etransitivity; [apply length_omap_le|].
    by rewrite length_fmap, length_take. }
  destruct (IH (drop 5 entries) (analyzed ++ new)) as (HQ' & Hlen' & Hbound).
  - apply Forall_app. split; [done|]. apply Forall_forall. intros r Hr.
    apply list_elem_of_omap in Hr as (o & Ho & ->).
    apply list_elem_of_fmap in Ho as (e' & He' & Hin).
    eapply He; [|by symmetry]. by eapply subseteq_take.
  - intros e' r Hin. apply He. by eapply subseteq_drop.
  - rewrite length_app. lia.
  - split; [done|]. split; [|done].
    rewrite length_app, length_drop in Hlen'. lia.
Qed.

End ReportFacts.

Lemma byScoreDesc_negative (a b : Metrics R * string) (x y : R) :
  score (fst a) = Some x -> score (fst b) = Some y ->
  (ltb (byScoreDesc a b) (lit 0) = true <-> (y < x)%R).
Proof.
  intros Ha Hb. unfold byScoreDesc. rewrite Ha, Hb. exact_ops.
  rewrite Exact_ltb_spec. lra.
Qed.

Lemma insertSorted_scoreDesc (t : Metrics R * string) (l : list (Metrics R * string)) :
  is_Some (score (fst t)) -> Forall (fun u => is_Some (score (fst u))) l ->
  StronglySorted scoreDesc l -> StronglySorted scoreDesc (insertSorted byScoreDesc t l).
Proof.
  intros [x Hx] Hall Hs. induction Hs as [|u l Hs IH Hu]; cbn [insertSorted].
  - repeat constructor.
  - apply Forall_cons in Hall as [[y Hy] Hall].
    destruct (ltb (byScoreDesc u t) (lit 0)) eqn:E.
    + apply (byScoreDesc_negative u t y x Hy Hx) in E.
      constructor; [by apply IH|].
      rewrite (insertSorted_Permutation byScoreDesc t l).
      constructor; [|exact Hu]. exists y, x. repeat split; [done..|lra].
    + assert (Hyx : (y <= x)%R).
      { apply Rnot_lt_le. intros Hlt.
        apply (byScoreDesc_negative u t y x Hy Hx) in Hlt. congruence. }
      constructor; [by constructor|].
      constructor; [exists x, y; done|].
      eapply Forall_impl; [exact Hu|]. intros v (y' & z & Hy' & Hz & Hle).
      exists x, z. repeat split; [done..|]. rewrite Hy in Hy'. injection Hy' as <-. lra.
Qed.

Lemma sortBy_scoreDesc (l : list (Metrics R * string)) :
  Forall (fun u => is_Some (score (fst u))) l ->
  StronglySorted scoreDesc (sortBy byScoreDesc l).
Proof.
  induction 1 as [|t l Ht Hall IH]; cbn [sortBy fold_right]; [constructor|].
  apply insertSorted_scoreDesc; [done| |exact IH].
  fold (sortBy byScoreDesc l). by rewrite sortBy_Permutation.
Qed.

Lemma StronglySorted_take {A} (R : A -> A -> Prop) (n : nat) (l : list A) :
  StronglySorted R l -> StronglySorted R (take n l).
Proof.
  intros Hs. revert n. induction Hs as [|x l Hs IH Hx]; intros [|n]; cbn [take];
    try constructor; [apply IH|].
  apply Forall_forall. intros y Hy.
  eapply Forall_forall; [exact Hx|]. by eapply subseteq_take.
Qed.

Lemma StronglySorted_imap {A B} (R : A -> A -> Prop) (R' : B -> B -> Prop)
    (f : nat -> A -> B) (l : list A) :
  (forall i j a b, R a b -> R' (f i a) (f j b)) ->
  StronglySorted R l -> StronglySorted R' (imap f l).
Proof.
  intros Hf Hs. revert f Hf. induction Hs as [|x l Hs IH Hx]; intros f Hf; cbn [imap];
    constructor.
  - apply IH. intros i j a b. apply Hf.
  - apply Forall_forall. intros y Hy.
    apply elem_of_lookup_imap in Hy as (i & a & -> & Ha).
    apply Hf. eapply Forall_forall; [exact Hx|]. by eapply list_elem_of_lookup_2.
Qed.

(** X27: What scanNewTokens reports.  A report comes only with a positive
    limit and at least one mint discovered.  The counters are nested:
    tokens returned, at most the limit, out of those that passed the
    filters, out of those analysed, out of those discovered; the analysis
    stops within one batch of twice the limit.  The tokens are ranked 1, 2,
    ... by descending score, each has at least 10 holders and a top-10
    concentration of at most 50, and shows a score between 0 and 1. *)
Theorem scanNewTokens_report (heliusKey : option string) (limit : Z)
    (recentSigs : list (PoolSignature R))
    (getParsedTransaction : string -> option (ParsedTransaction R))
    (fetched : string -> option (Fetched R)) (r : ScanReport R) :
  scanNewTokens heliusKey limit recentSigs getParsedTransaction fetched = Report r ->
  (0 < limit)%Z /\
  (0 < totalDiscovered r)%nat /\
  (totalPassedFilters r <= totalAnalyzed r <= totalDiscovered r)%nat /\
  (Z.of_nat (totalAnalyzed r) < limit * 2 + 5)%Z /\
  returned r = length (tokens r) /\
  returned r = Nat.min (Z.to_nat limit) (totalPassedFilters r) /\
  (forall i t, tokens r !! i = Some t ->
     rank t = S i /\ (10 <= rt_holderCount t)%R /\ (rt_topHolderPct t <= 50)%R /\
     exists s, rt_score t = Some s /\ (0 <= s <= 1)%R) /\
  StronglySorted shownScoreDesc (tokens r).
Proof.
  unfold scanNewTokens. case_bool_decide; [discriminate|].
  destruct (length recentSigs =? 0)%nat; [discriminate|].
  set (mintMap := extractMintsFromSignatures getParsedTransaction recentSigs (limit * 3)).
  destruct (length mintMap =? 0)%nat eqn:Hm; [discriminate|].
  apply Nat.eqb_neq in Hm.
  set (analyzed := analyzeLoop (length mintMap) fetched mintMap limit []).
  set (passed := List.filter (fun t => passesFilters (fst t)) analyzed).
  set (sorted := sortBy byScoreDesc passed).
  intros [= <-].
  cbn [tokens totalDiscovered totalAnalyzed totalPassedFilters returned].
  assert (Hlimit : (0 < limit)%Z).
  { destruct (Z.lt_ge_cases 0 limit) as [|Hle]; [done|]. exfalso. apply Hm.
    unfold mintMap. rewrite extractMints_nonpositive by lia. reflexivity. }
  set (Q := fun t : Metrics R * string =>
              exists s : R, score (fst t) = Some s /\ (0 < s <= 1)%R).
  destruct (analyzeLoop_inv Q fetched limit (length mintMap) mintMap [])
    as (HQ & Hlen & Hbound).
  { constructor. }
  { intros e res _ He. unfold analyzeEntry in He.
    destruct (fetched (fst e)) as [f|]; [|discriminate]. injection He as <-.
    apply analyzeToken_scored. }
  { cbn [length]. lia. }
  fold analyzed in HQ, Hlen, Hbound. cbn [length] in Hlen.
  assert (Hpassed : Forall (fun t => Q t /\ passesFilters (fst t) = true) passed).
  { apply Forall_forall. intros t Ht. apply list_elem_of_In, List.filter_In in Ht as [Ht Hp].
    split; [|exact Hp]. eapply Forall_forall; [exact HQ|]. by apply list_elem_of_In. }
  assert (Hperm : sorted ≡ₚ passed) by apply sortBy_Permutation.
  assert (Hsorted : Forall (fun t => Q t /\ passesFilters (fst t) = true) sorted)
    by (by rewrite Hperm).
  assert (Hslice : sliceTo limit sorted = take (Z.to_nat limit) sorted).
  { unfold sliceTo. destruct (Z.leb_spec 0 limit); [reflexivity | lia]. }
  rewrite Hslice, length_imap, length_take.
  assert (Hls : length sorted = length passed) by (by rewrite Hperm).
  split; [exact Hlimit|]. split; [lia|]. split.
  { split; [|lia]. rewrite Hls. apply length_filter_le. }
  split; [lia|]. split; [reflexivity|]. split; [reflexivity|]. split.
  - intros i t Ht. rewrite list_lookup_imap in Ht.
    destruct (take (Z.to_nat limit) sorted !! i) as [u|] eqn:Hu; [|discriminate].
    injection Ht as <-.
    assert (Hin : u ∈ sorted) by (eapply subseteq_take; by eapply list_elem_of_lookup_2).
    eapply Forall_forall in Hsorted as [(s & Hs & Hrange) Hp]; [|exact Hin].
    apply passesFilters_true_iff in Hp as (Hh & Ht & _).
    cbn [rankedToken rank rt_holderCount rt_topHolderPct rt_score].
    split; [lia|]. split; [exact Hh|]. split; [exact Ht|].
    rewrite Hs. eexists. split; [reflexivity|]. exact_ops.
    apply shown_unit. lra.
  - apply (StronglySorted_imap scoreDesc).
    + intros i j a b (x & y & Hx & Hy & Hle). unfold shownScoreDesc.
      cbn [rankedToken rt_score]. rewrite Hx, Hy. eexists _, _.
      split; [reflexivity|]. split; [reflexivity|]. exact_ops.
      apply Rmult_le_compat_r; [lra|]. apply round_mono. lra.
    + apply StronglySorted_take, sortBy_scoreDesc.
      eapply Forall_impl; [exact Hpassed|]. intros t [(s & Hs & _) _]. by exists s.
Qed.

Lemma scanNewTokens_report_witness :
  let sig : PoolSignature R :=
    {| signature := "sig1"; sig_blockTime := None; dex := "PumpSwap" |} in
  let tx : ParsedTransaction R :=
    {| tx_blockTime := None;
       postTokenBalances := Some [Some WSOL_MINT; Some "Mint1111"] |} in
  let answers : Fetched R :=
    {| f_dateNow := 1700000000000%R;
       f_holders := Some {| totalAccounts := Some 100%R;
                            top10ConcentrationPct := Some 20%R |};
       f_safety := None;
       f_quote := Some {| q_priceImpactPct := Some 1%R |};
       f_transactions := None |} in
  exists r : ScanReport R,
    scanNewTokens (Some "key") 1 [sig] (fun _ => Some tx) (fun _ => Some answers)
    = Report r /\
    (0 < 1)%Z /\
    (0 < totalDiscovered r)%nat /\
    (totalPassedFilters r <= totalAnalyzed r <= totalDiscovered r)%nat /\
    (Z.of_nat (totalAnalyzed r) < 1 * 2 + 5)%Z /\
    returned r = length (tokens r) /\
    returned r = Nat.min (Z.to_nat 1) (totalPassedFilters r) /\
    (forall i t, tokens r !! i = Some t ->
       rank t = S i /\ (10 <= rt_holderCount t)%R /\ (rt_topHolderPct t <= 50)%R /\
       exists s, rt_score t = Some s /\ (0 <= s <= 1)%R) /\
    StronglySorted shownScoreDesc (tokens r).
Proof.
  intros sig tx answers.
  assert (Hm : extractMintsFromSignatures (fun _ => Some tx) [sig] (1 * 3)
               = [("Mint1111", {| createdAt := None; mi_dex := "PumpSwap";
                                  mi_signature := "sig1" |})])
    by (vm_compute; reflexivity).
  assert (E : exists r : ScanReport R,
            scanNewTokens (Some "key") 1 [sig] (fun _ => Some tx) (fun _ => Some answers)
            = Report r).
  { eexists. unfold scanNewTokens.
    rewrite bool_decide_eq_false_2 by (intros [?|?]; discriminate).
    cbn [length Nat.eqb]. rewrite Hm. cbn [length Nat.eqb]. reflexivity. }
  destruct E as [r E]. exists r. split; [exact E|].
  exact (scanNewTokens_report _ _ _ _ _ r E).
Defined.

(** ** The holders of a token *)

Lemma round_IZR (z : Z) : round (IZR z) = IZR z.
Proof.
  pose proof (round_bounds (IZR z)) as [Hlo Hhi].
  cbn [round R_Rounding] in *. set (w := Int_part (IZR z + / 2)) in *.
  assert (H1 : (z - 1 < w)%Z) by (apply lt_IZR; rewrite minus_IZR; lra).
  assert (H2 : (w < z + 1)%Z) by (apply lt_IZR; rewrite plus_IZR; lra).
  f_equal. lia.
Qed.

(** Rounding to two decimals: off by at most 0.005, and monotone. *)
Lemma round2_near (x : R) :
  (x - 5 / 1000 <= round (x * 100) / 100 <= x + 5 / 1000)%R.
Proof.
  pose proof (round_bounds (x * 100)) as Hb. lra.
Qed.

Lemma round2_mono (x y : R) : (x <= y -> round (x * 100) / 100 <= round (y * 100) / 100)%R.
Proof.
  intros Hxy. apply Rmult_le_compat_r; [lra|]. apply round_mono. lra.
Qed.

Lemma round2_hundredths (z : Z) : (round (IZR z / 100 * 100) / 100 = IZR z / 100)%R.
Proof.
  replace (IZR z / 100 * 100)%R with (IZR z) by lra. by rewrite round_IZR.
Qed.

Lemma round2_between (a b : Z) (x : R) :
  (IZR a / 100 <= x <= IZR b / 100 ->
   IZR a / 100 <= round (x * 100) / 100 <= IZR b / 100)%R.
Proof.
  intros [Ha Hb]. split.
  - rewrite <- (round2_hundredths a) at 1. by apply round2_mono.
  - rewrite <- (round2_hundredths b). by apply round2_mono.
Qed.

Lemma sortBy_descending {A} (cmp : A -> A -> R) (key : A -> R) (l : list A) :
  (forall a b, ltb (cmp a b) (lit 0) = true <-> (key b < key a)%R) ->
  StronglySorted (fun a b => (key b <= key a)%R) (sortBy cmp l).
Proof.
  intros Hcmp. induction l as [|x l IH]; cbn [sortBy fold_right]; [constructor|].
  fold (sortBy cmp l). induction IH as [|y s Hs IHs Hy]; cbn [insertSorted].
  - repeat constructor.
  - destruct (ltb (cmp y x) (lit 0)) eqn:E.
    + apply Hcmp in E. constructor; [exact IHs|].
      rewrite (insertSorted_Permutation cmp x s).
      constructor; [lra | exact Hy].
    + assert (Hyx : (key y <= key x)%R).
      { apply Rnot_lt_le. intros Hlt. apply Hcmp in Hlt. congruence. }
      constructor; [by constructor|]. constructor; [exact Hyx|].
      eapply Forall_impl; [exact Hy|]. cbn. intros z Hz. lra.
Qed.

Lemma take_imap {A B} (f : nat -> A -> B) (n : nat) (l : list A) :
  take n (imap f l) = imap f (take n l).
Proof.
  revert f n. induction l as [|x l IH]; intros f [|n]; cbn [imap take]; try reflexivity.
  by rewrite IH.
Qed.

Lemma sumR_imap {A B} (g : B -> R) (f : nat -> A -> B) (l : list A) :
  (forall i j a, g (f i a) = g (f j a)) ->
  sumR g (imap f l) = sumR (fun a => g (f 0%nat a)) l.
Proof.
  revert f. induction l as [|x l IH]; intros f Hf; cbn [imap sumR fold_right]; [reflexivity|].
  fold (sumR g (imap (f ∘ S) l)). rewrite IH by (intros; apply Hf).
  fold (sumR (fun a => g (f 0%nat a)) l). f_equal.
  unfold sumR. clear IH. induction l as [|y l IHl]; cbn [fold_right]; [reflexivity|].
  rewrite IHl. f_equal. apply Hf.
Qed.

Lemma sumR_le {A} (f g : A -> R) (l : list A) (c : R) :
  Forall (fun a => (f a <= g a + c)%R) l ->
  (sumR f l <= sumR g l + INR (length l) * c)%R.
Proof.
  induction 1 as [|a l Ha _ IH]; unfold sumR in *; cbn [fold_right length]; [cbn; lra|].
  rewrite S_INR. lra.
Qed.

Lemma sumR_nonneg {A} (f : A -> R) (l : list A) :
  Forall (fun a => (0 <= f a)%R) l -> (0 <= sumR f l)%R.
Proof.
  induction 1 as [|a l Ha _ IH]; unfold sumR in *; cbn [fold_right]; lra.
Qed.

Lemma sumR_take_le {A} (f : A -> R) (n : nat) (l : list A) :
  Forall (fun a => (0 <= f a)%R) l -> (sumR f (take n l) <= sumR f l)%R.
Proof.
  intros Hl. revert n. induction Hl as [|a l Ha Hl IH]; intros [|n]; cbn [take];
    unfold sumR in *; cbn [fold_right]; try lra.
  - pose proof (sumR_nonneg f l Hl) as Hs. unfold sumR in Hs. lra.
  - specialize (IH n). lra.
Qed.

Lemma sumR_scale {A} (f : A -> R) (c : R) (l : list A) :
  sumR (fun a => (f a * c)%R) l = (sumR f l * c)%R.
Proof.
  induction l as [|a l IH]; unfold sumR in *; cbn [fold_right]; [lra|]. rewrite IH. lra.
Qed.

Lemma elem_le_sumR {A} (f : A -> R) (l : list A) (x : A) :
  Forall (fun a => (0 <= f a)%R) l -> x ∈ l -> (f x <= sumR f l)%R.
Proof.
  intros Hl Hx. induction Hl as [|a l Ha Hl IH]; [by apply elem_of_nil in Hx|].
  unfold sumR in *. cbn [fold_right].
  pose proof (sumR_nonneg f l Hl) as Hs. unfold sumR in Hs.
  apply elem_of_cons in Hx as [-> | Hx]; [lra|]. specialize (IH Hx). lra.
Qed.

Lemma byAmountDesc_negative (a b : TokenAccount R) :
  ltb (byAmountDesc a b) (lit 0) = true <-> (amountOf b < amountOf a)%R.
Proof. unfold byAmountDesc. exact_ops. rewrite Exact_ltb_spec. lra. Qed.

(** X28: getTokenHolders over the reals, for amounts that are not negative and a
    limit that is not negative: the holders are the first [limit] accounts
    by amount, largest first, ranked 1, 2, ...; each share is between 0 and
    100 and the top-10 concentration between 0 and 100.05.  When there are
    at most 10 accounts, all within the limit and not all empty, the
    concentration is at least 99.95, so that analyzeToken's token never
    passes the filters. *)
Theorem getTokenHolders_concentration (result : TokenAccounts R)
    (accounts : list (TokenAccount R)) (limit : Z) :
  token_accounts result = Some accounts ->
  Forall (fun a => (0 <= amountOf a)%R) accounts ->
  (0 <= limit)%Z ->
  let report := getTokenHolders (Some result) limit in
  exists top : R,
    top10ConcentrationPct (holdersInfo report) = Some top /\
    (0 <= top <= 100 + 5 / 100)%R /\
    length (holders report) = Nat.min (Z.to_nat limit) (length accounts) /\
    (forall i h, holders report !! i = Some h ->
       h_rank h = S i /\ (0 <= pctOfVisible h <= 100)%R) /\
    StronglySorted amountDesc (holders report) /\
    ((length accounts <= 10)%nat -> (length accounts <= Z.to_nat limit)%nat ->
     (0 < sumR amountOf accounts)%R ->
     (9995 / 100 <= top)%R /\
     forall dateNow mint createdAt safetyResult quoteResult txResult,
       passesFilters (analyzeToken dateNow mint createdAt (Some (holdersInfo report))
                        safetyResult quoteResult txResult) = false).
Proof.
  intros Hacc Hnonneg Hlimit. cbv zeta. unfold getTokenHolders. rewrite Hacc.
  set (sorted := sortBy byAmountDesc accounts).
  assert (Hperm : sorted ≡ₚ accounts) by apply sortBy_Permutation.
  assert (Hlen : length sorted = length accounts) by (by rewrite Hperm).
  assert (Hsnn : Forall (fun a => (0 <= amountOf a)%R) sorted) by (by rewrite Hperm).
  assert (Htotal : fold_left (fun sum a => add sum (amountOf a)) sorted (lit 0)
                   = sumR amountOf sorted).
  { exact_ops. rewrite fold_left_sumR. lra. }
  rewrite Htotal. set (total := sumR amountOf sorted).
  assert (Htot0 : (0 <= total)%R) by (by apply sumR_nonneg).
  assert (Hslice : sliceTo limit sorted = take (Z.to_nat limit) sorted).
  { unfold sliceTo. destruct (Z.leb_spec 0 limit); [reflexivity | lia]. }
  rewrite Hslice. set (shown := take (Z.to_nat limit) sorted).
  cbn [holders holdersInfo top10ConcentrationPct].
  rewrite length_imap, take_imap.
  set (top10 := take (Nat.min 10 (length shown)) shown).
  set (share := fun a : TokenAccount R =>
                  if Exact.ltb 0 total then (amountOf a / total * 100)%R else 0%R).
  set (p := fun a : TokenAccount R => (round (share a * 100) / 100)%R).
  assert (Hp : forall i a, pctOfVisible (holder total i a) = p a) by reflexivity.
  assert (Hsum : fold_left (fun sum h => add sum (pctOfVisible h))
                   (imap (holder total) top10) (lit 0)
                 = sumR p top10).
  { exact_ops. rewrite fold_left_sumR, (sumR_imap pctOfVisible) by reflexivity.
    rewrite Rplus_0_l. reflexivity. }
  rewrite Hsum.
  assert (Hshare : forall a, a ∈ sorted -> (0 <= share a <= 100)%R).
  { intros a Ha. unfold share.
    destruct (Exact.ltb 0 total) eqn:Hpos; [|lra]. apply Exact_ltb_spec in Hpos.
    assert (H0 : (0 <= amountOf a)%R) by (eapply Forall_forall in Hsnn; eassumption).
    assert (H1 : (amountOf a <= total)%R) by (by apply elem_le_sumR).
    split.
    - apply Rmult_le_pos; [|lra]. apply Rmult_le_pos; [lra|].
      left. by apply Rinv_0_lt_compat.
    - apply Rmult_le_reg_r with (r := (total / 100)%R); [lra|].
      field_simplify; lra. }
  assert (Hpr : forall a, a ∈ sorted -> (0 <= p a <= 100)%R).
  { intros a Ha. destruct (Hshare a Ha) as [Hlo Hhi]. unfold p.
    pose proof (round2_between 0 10000 (share a)) as Hr. lra. }
  assert (Hsub : forall a, a ∈ top10 -> a ∈ sorted).
  { intros a Ha. eapply subseteq_take, subseteq_take, Ha. }
  assert (Hshares : (sumR share sorted <= 100)%R).
  { unfold share.
    destruct (Exact.ltb 0 total) eqn:Hpos.
    - apply Exact_ltb_spec in Hpos. rewrite (sumR_scale (fun a => (amountOf a / total)%R) 100).
      unfold Rdiv. rewrite (sumR_scale amountOf (/ total)). fold total.
      right. field. lra.
    - assert (Hz : sumR (fun _ : TokenAccount R => 0%R) sorted = 0%R).
      { clear. induction sorted as [|a l IH]; unfold sumR in *; cbn [fold_right]; lra. }
      rewrite Hz. lra. }
  assert (Hshare_nn : forall l, (forall a, a ∈ l -> a ∈ sorted) ->
            Forall (fun a => (0 <= share a)%R) l).
  { intros l Hl. apply Forall_forall. intros a Ha. apply Hshare, Hl, Ha. }
  assert (Hlen10 : (length top10 <= 10)%nat).
  { unfold top10. rewrite length_take. lia. }
  assert (Hupper : (sumR p top10 <= 100 + 5 / 100)%R).
  { pose proof (sumR_le p share top10 (5 / 1000)) as Hle.
    assert (Htake : (sumR share top10 <= sumR share sorted)%R).
    { unfold top10, shown.
      etransitivity; [apply sumR_take_le | apply sumR_take_le].
      - apply Hshare_nn. intros a Ha. by eapply subseteq_take.
      - by apply Hshare_nn. }
    assert (Hn : (INR (length top10) <= 10)%R)
      by (replace 10%R with (INR 10) by (cbn; lra); by apply le_INR).
    assert (Hall : Forall (fun a => (p a <= share a + 5 / 1000)%R) top10).
    { apply Forall_forall. intros a _. unfold p.
      pose proof (round2_near (share a)) as Hr. lra. }
    specialize (Hle Hall). nra. }
  assert (Hlower : (0 <= sumR p top10)%R).
  { apply sumR_nonneg, Forall_forall. intros a Ha. apply Hpr, Hsub, Ha. }
  change (div (round (mul (sumR p top10) (lit 100))) (lit 100))
    with (round (sumR p top10 * 100) / 100)%R.
  eexists. split; [reflexivity|]. split; [|split; [|split; [|split]]].
  - pose proof (round2_between 0 10005 (sumR p top10)) as Hr. lra.
  - unfold shown. rewrite length_take, Hlen. reflexivity.
  - intros i h Hh. rewrite list_lookup_imap in Hh.
    destruct (shown !! i) as [a|] eqn:Ha; [|discriminate]. injection Hh as <-.
    cbn [holder h_rank]. split; [lia|].
    change (pctOfVisible (holder total i a)) with (p a). apply Hpr.
    eapply subseteq_take. by eapply list_elem_of_lookup_2.
  - apply (StronglySorted_imap (fun a b => (amountOf b <= amountOf a)%R)).
    + intros i j a b Hab. exact Hab.
    + apply StronglySorted_take.
      apply (sortBy_descending byAmountDesc amountOf), byAmountDesc_negative.
  - intros H10 Hall Hpos.
    assert (Htop : top10 = sorted).
    { unfold top10, shown. rewrite !take_ge; [reflexivity | lia |].
      rewrite take_ge by lia. lia. }
    assert (Htotal_pos : (0 < total)%R).
    { unfold total. by rewrite (sumR_Permutation _ _ _ Hperm). }
    assert (Hfull : sumR share sorted = 100%R).
    { unfold share. apply Exact_ltb_spec in Htotal_pos as Hlt. rewrite Hlt.
      rewrite (sumR_scale (fun a => (amountOf a / total)%R) 100).
      unfold Rdiv. rewrite (sumR_scale amountOf (/ total)). fold total. field. lra. }
    assert (Hnear : (100 - 5 / 100 <= sumR p top10)%R).
    { rewrite Htop.
      pose proof (sumR_le share p sorted (5 / 1000)) as Hle.
      assert (Hall' : Forall (fun a => (share a <= p a + 5 / 1000)%R) sorted).
      { apply Forall_forall. intros a _. unfold p.
        pose proof (round2_near (share a)) as Hr. lra. }
      specialize (Hle Hall').
      assert (Hn : (INR (length sorted) <= 10)%R).
      { replace 10%R with (INR 10) by (cbn; lra). apply le_INR. lia. }
      nra. }
    assert (Hbig : (9995 / 100 <= round (sumR p top10 * 100) / 100)%R).
    { pose proof (round2_between 9995 10005 (sumR p top10)) as Hr. lra. }
    split; [exact Hbig|].
    intros dateNow mint0 createdAt0 sr qr tr.
    apply not_true_is_false. intros Hpass.
    apply passesFilters_true_iff in Hpass as (_ & Ht & _).
    unfold analyzeToken in Ht. cbn [setScore topHolderPct top10ConcentrationPct] in Ht.
    set (top := (round (sumR p top10 * 100) / 100)%R) in *.
    clearbody top. clear -Ht Hbig. revert Ht. exact_ops. unfold Exact.truthy, Exact.eqb.
    destruct (Req_dec_T top 0); cbn [negb]; lra.
Qed.

Lemma getTokenHolders_concentration_witness :
  let account (amount : R) : TokenAccount R :=
    {| ta_amount := Some amount; ta_owner := Some "owner"; ta_address := Some "account" |} in
  let accounts := [account 10%R; account 30%R] in
  let result := {| token_accounts := Some accounts; ta_total := None |} in
  let report := getTokenHolders (Some result) 20 in
  exists top : R,
    top10ConcentrationPct (holdersInfo report) = Some top /\
    (0 <= top <= 100 + 5 / 100)%R /\
    length (holders report) = Nat.min (Z.to_nat 20) (length accounts) /\
    (forall i h, holders report !! i = Some h ->
       h_rank h = S i /\ (0 <= pctOfVisible h <= 100)%R) /\
    StronglySorted amountDesc (holders report) /\
    ((length accounts <= 10)%nat -> (length accounts <= Z.to_nat 20)%nat ->
     (0 < sumR amountOf accounts)%R ->
     (9995 / 100 <= top)%R /\
     forall dateNow mint createdAt safetyResult quoteResult txResult,
       passesFilters (analyzeToken dateNow mint createdAt (Some (holdersInfo report))
                        safetyResult quoteResult txResult) = false).
Proof.
  intros account accounts result.
  assert (Hamount : forall x : R, x <> 0%R -> amountOf (account x) = x).
  { intros x Hx. unfold amountOf, account. cbn [ta_amount num_or].
    apply Exact_truthy_spec in Hx. exact_ops. by rewrite Hx. }
  apply (getTokenHolders_concentration result accounts 20).
  - reflexivity.
  - constructor; [rewrite Hamount; lra|]. constructor; [rewrite Hamount; lra|]. constructor.
  - lia.
Defined.

(** ** The helpers of the command line *)

Lemma indexOf_first (flag : string) (before rest : list string) :
  flag ∉ before -> indexOf flag (before ++ flag :: rest) = Some (length before).
Proof.
  induction before as [|a l IH]; intros Hb; cbn [app indexOf length].
  - by rewrite bool_decide_eq_true_2.
  - rewrite bool_decide_eq_false_2 by (intros ->; apply Hb; by left).
    rewrite IH by (intros ?; apply Hb; by right). reflexivity.
Qed.

Lemma indexOf_absent (flag : string) (args : list string) :
  flag ∉ args -> indexOf flag args = None.
Proof.
  induction args as [|a l IH]; intros Hb; cbn [indexOf]; [reflexivity|].
  rewrite bool_decide_eq_false_2 by (intros ->; apply Hb; by left).
  rewrite IH by (intros ?; apply Hb; by right). reflexivity.
Qed.

(** X29: parseFlag answers with the argument that follows the first occurrence
    of the flag, whatever that argument is, another flag included; it
    answers with the default when the flag is absent or is the last
    argument.  hasFlag tells whether the flag occurs at all. *)
Theorem parseFlag_first_occurrence (args : list string) (flag : string)
    (defaultVal : option string) :
  (flag ∉ args -> parseFlag args flag defaultVal = defaultVal) /\
  (forall before v after,
     args = before ++ flag :: v :: after -> flag ∉ before ->
     parseFlag args flag defaultVal = Some v) /\
  (forall before,
     args = before ++ [flag] -> flag ∉ before ->
     parseFlag args flag defaultVal = defaultVal) /\
  (hasFlag args flag = false -> parseFlag args flag defaultVal = defaultVal) /\
  (forall v, parseFlag args flag None = Some v -> hasFlag args flag = true /\ v ∈ args).
Proof.
  assert (Habsent : flag ∉ args -> parseFlag args flag defaultVal = defaultVal).
  { intros Hn. unfold parseFlag. by rewrite indexOf_absent. }
  split; [exact Habsent|]. split; [|split; [|split]].
  - intros before v after -> Hb. unfold parseFlag. rewrite indexOf_first by done.
    rewrite lookup_app_r by lia.
    replace (length before + 1 - length before)%nat with 1%nat by lia. reflexivity.
  - intros before -> Hb. unfold parseFlag. rewrite indexOf_first by done.
    rewrite lookup_ge_None_2; [reflexivity|]. rewrite length_app. cbn [length]. lia.
  - intros Hh. apply Habsent. by apply bool_decide_eq_false in Hh.
  - intros v Hv. unfold parseFlag in Hv.
    destruct (indexOf flag args) as [idx|] eqn:E; [|discriminate].
    destruct (args !! (idx + 1)%nat) as [w|] eqn:Ew; [|discriminate].
    injection Hv as ->. split; [|by eapply list_elem_of_lookup_2].
    apply bool_decide_eq_true. destruct (decide (flag ∈ args)) as [|Hn]; [done|].
    rewrite indexOf_absent in E by done. discriminate.
Qed.

Lemma parseFlag_first_occurrence_witness :
  parseFlag ["sol"; "--limit"; "5"; "--limit"; "9"] "--limit" (Some "10") = Some "5".
Proof.
  refine (proj1 (proj2 (parseFlag_first_occurrence
                          ["sol"; "--limit"; "5"; "--limit"; "9"] "--limit" (Some "10")))
            ["sol"] "5" ["--limit"; "9"] eq_refl _).
  intros Hin. apply list_elem_of_singleton in Hin. discriminate.
Defined.

Lemma length_substring (n m : nat) (s : string) :
  (n + m <= String.length s)%nat -> String.length (substring n m s) = m.
Proof.
  revert n m. induction s as [|c s IH]; intros n m Hlen; cbn [String.length] in Hlen.
  - assert (n = 0%nat) by lia. assert (m = 0%nat) by lia. subst. reflexivity.
  - destruct n as [|n]; cbn [substring].
    + destruct m as [|m]; [reflexivity|]. cbn [String.length]. rewrite IH by lia. reflexivity.
    + apply IH. lia.
Qed.

Lemma length_append (s1 s2 : string) :
  String.length (s1 +:+ s2) = (String.length s1 + String.length s2)%nat.
Proof.
  induction s1 as [|c s IH]; [reflexivity|].
  change (String c s +:+ s2) with (String c (s +:+ s2)).
  cbn [String.length Nat.add]. by rewrite IH.
Qed.

Lemma asciiOnly_append (s1 s2 : string) :
  asciiOnly s1 -> asciiOnly s2 -> asciiOnly (s1 +:+ s2).
Proof.
  unfold asciiOnly. intros H1 H2.
  induction s1 as [|c s1 IH]; [exact H2|].
  change (String c s1 +:+ s2) with (String c (s1 +:+ s2)).
  cbn [list_ascii_of_string] in *.
  apply Forall_cons in H1 as [Hc H1]. apply Forall_cons. split; [exact Hc | by apply IH].
Qed.

Lemma asciiOnly_substring (n m : nat) (s : string) :
  asciiOnly s -> asciiOnly (substring n m s).
Proof.
  unfold asciiOnly. revert n m.
  induction s as [|c s IH]; intros n m Hs.
  - destruct n, m; cbn; constructor.
  - cbn [list_ascii_of_string] in Hs. apply Forall_cons in Hs as [Hc Hs].
    destruct n as [|n]; cbn [substring].
    + destruct m as [|m]; cbn [list_ascii_of_string]; [constructor|].
      apply Forall_cons. split; [exact Hc | by apply IH].
    + by apply IH.
Qed.

(** X30: for an address of ASCII characters (one UTF-16 code unit each),
    shortAddr answers "???" for a missing or empty address, gives an
    address of at most 12 characters back as it is, and shortens a longer
    one to 13 characters: its first 6, three dots and its last 4.  The
    result is never empty, never longer than 13 characters, and of ASCII
    characters again. *)
Theorem shortAddr_length (addr : option string) :
  (forall s, addr = Some s -> asciiOnly s) ->
  (1 <= String.length (shortAddr addr) <= 13)%nat /\
  asciiOnly (shortAddr addr) /\
  (addr = None \/ addr = Some "" -> shortAddr addr = "???") /\
  (forall s, addr = Some s -> (1 <= String.length s <= 12)%nat -> shortAddr addr = s) /\
  (forall s, addr = Some s -> (12 < String.length s)%nat ->
     shortAddr addr = substring 0 6 s +:+ "..." +:+ substring (String.length s - 4) 4 s /\
     String.length (shortAddr addr) = 13%nat).
Proof.
  intros Hascii.
  assert (Hlong : forall s, (12 < String.length s)%nat ->
            String.length (substring 0 6 s +:+ "..." +:+ substring (String.length s - 4) 4 s)
            = 13%nat).
  { intros s Hs. rewrite !length_append, !length_substring by lia. reflexivity. }
  assert (Hdots : forall s : string, s = "???" \/ s = "..." -> asciiOnly s).
  { intros s [-> | ->]; unfold asciiOnly; cbn [list_ascii_of_string];
      repeat (apply Forall_cons; split; [vm_compute; lia|]); constructor. }
  split; [|split; [|split; [|split]]].
  - destruct addr as [s|]; cbn [shortAddr]; [|cbn; lia].
    case_bool_decide; [cbn; lia|].
    destruct (Nat.leb_spec (String.length s) 12) as [Hle|Hgt].
    + destruct s; [done|]. cbn [String.length] in *. lia.
    + rewrite Hlong by lia. lia.
  - destruct addr as [s|]; cbn [shortAddr]; [|apply Hdots; by left].
    case_bool_decide; [apply Hdots; by left|].
    specialize (Hascii s eq_refl).
    destruct (String.length s <=? 12)%nat; [exact Hascii|].
    apply asciiOnly_append; [by apply asciiOnly_substring|].
    apply asciiOnly_append; [apply Hdots; by right | by apply asciiOnly_substring].
  - intros [-> | ->]; reflexivity.
  - intros s -> [H1 H12]. cbn [shortAddr].
    rewrite bool_decide_eq_false_2 by (intros ->; cbn in H1; lia).
    destruct (Nat.leb_spec (String.length s) 12); [reflexivity | lia].
  - intros s -> Hs. cbn [shortAddr].
    rewrite bool_decide_eq_false_2 by (intros ->; cbn in Hs; lia).
    destruct (Nat.leb_spec (String.length s) 12); [lia|].
    split; [reflexivity | by apply Hlong].
Qed.

Lemma shortAddr_length_witness :
  (1 <= String.length (shortAddr (Some "So11111111111111111111111111111111111111112"))
   <= 13)%nat /\
  asciiOnly (shortAddr (Some "So11111111111111111111111111111111111111112")).
Proof.
  assert (Hascii : forall s, Some "So11111111111111111111111111111111111111112" = Some s ->
                     asciiOnly s).
  { intros s [= <-]. unfold asciiOnly. cbn [list_ascii_of_string].
    repeat (apply Forall_cons; split; [vm_compute; lia|]). constructor. }
  destruct (shortAddr_length (Some "So11111111111111111111111111111111111111112") Hascii)
    as (Hlen & Hres & _).
  split; [exact Hlen | exact Hres].
Defined.
